(** * import_icons.py: the asset importer of ios/FriendMap

    A shallow embedding of the script [ios/FriendMap/import_icons.py] and of
    the parts of the Python runtime it calls ([str.endswith],
    [os.path.splitext], [os.makedirs], [os.listdir], [shutil.copy], [open],
    [json.dump], [print]), followed by the properties of the script.

    Python values are modelled as follows.
    - A [str] is the list of its Unicode code points.
    - File contents are lists of bytes.
    - A path is the list of its components below the root, so that
      [os.path.join] of a path and a single file name appends one component.
    - The file system is an association list from paths to nodes, in
      creation order; [os.listdir] returns names in that order, which makes
      the listing order arbitrary but fixed for a given disk.
    - Statements run in a state-and-exception monad over a [world]: the
      disk, the standard output, a journal of the disk effects performed,
      and an oracle that decides which system calls fail for reasons the
      disk does not show (permission denied, disk full). *)

From Stdlib Require Import Ascii String Decimal.
From Stdlib Require Import List NArith ZArith Lia Bool.
Import ListNotations.

Set Implicit Arguments.

(* ===================================================================== *)
(** ** Python strings *)
(* ===================================================================== *)

Module Py.

(** A Python [str]: the sequence of its code points. *)
Definition str := list N.

(** File contents: a sequence of bytes. *)
Definition bytes := list N.

(** A literal of the source text. *)
Definition lit (s : string) : str :=
  map N_of_ascii (list_ascii_of_string s).

Definition str_eqb (a b : str) : bool :=
  if list_eq_dec N.eq_dec a b then true else false.

(** [s.endswith(suffix)] *)
Definition endswith (s suffix : str) : bool :=
  (length suffix <=? length s)%nat
  && str_eqb (skipn (length s - length suffix) s) suffix.

(** [s.rfind(c)] for a one-character needle: the highest index at which
    [c] occurs, or [-1]. *)
Fixpoint rfind_from (c : N) (s : str) (i : Z) : Z :=
  match s with
  | [] => (-1)%Z
  | x :: s' =>
      let r := rfind_from c s' (i + 1)%Z in
      if (0 <=? r)%Z then r else if N.eqb x c then i else (-1)%Z
  end.

Definition rfind (s : str) (c : N) : Z := rfind_from c s 0%Z.

(** [s[:i]] and [s[i:]] for [0 <= i]. *)
Definition slice_to (s : str) (i : Z) : str := firstn (Z.to_nat i) s.
Definition slice_from (s : str) (i : Z) : str := skipn (Z.to_nat i) s.

(** [str(n)] for a non-negative integer. *)
Fixpoint digits_of_uint (d : Decimal.uint) : str :=
  match d with
  | Nil => []
  | D0 d' => 48%N :: digits_of_uint d'
  | D1 d' => 49%N :: digits_of_uint d'
  | D2 d' => 50%N :: digits_of_uint d'
  | D3 d' => 51%N :: digits_of_uint d'
  | D4 d' => 52%N :: digits_of_uint d'
  | D5 d' => 53%N :: digits_of_uint d'
  | D6 d' => 54%N :: digits_of_uint d'
  | D7 d' => 55%N :: digits_of_uint d'
  | D8 d' => 56%N :: digits_of_uint d'
  | D9 d' => 57%N :: digits_of_uint d'
  end.

Definition str_of_nat (n : nat) : str := digits_of_uint (Nat.to_uint n).

(** [str(z)] for an integer. *)
Definition str_of_int (z : Z) : str :=
  match Z.to_int z with
  | Pos d => digits_of_uint d
  | Neg d => 45%N :: digits_of_uint d
  end.

End Py.

(* ===================================================================== *)
(** ** os.path *)
(* ===================================================================== *)

Module OsPath.
Import Py.

Definition sep : N := 47.     (* "/" *)
Definition extsep : N := 46.  (* "." *)

(** The [while] loop of [genericpath._splitext]: scans [p] from
    [filenameIndex] for [n] positions and answers whether a character other
    than [extsep] occurs there (the loop's early [return]). *)
Fixpoint has_non_dot (p : str) (filenameIndex : nat) (n : nat) : bool :=
  match n with
  | O => false
  | S n' =>
      match nth_error p filenameIndex with
      | Some c =>
          if N.eqb c extsep then has_non_dot p (S filenameIndex) n'
          else true
      | None => true
      end
  end.

(** [os.path.splitext(p)] ([posixpath], so [altsep] is [None]). *)
Definition splitext (p : str) : str * str :=
  let sepIndex := rfind p sep in
  let dotIndex := rfind p extsep in
  if (sepIndex <? dotIndex)%Z then
    let filenameIndex := (sepIndex + 1)%Z in
    if has_non_dot p (Z.to_nat filenameIndex)
         (Z.to_nat (dotIndex - filenameIndex))
    then (slice_to p dotIndex, slice_from p dotIndex)
    else (p, [])
  else (p, []).

End OsPath.

(* ===================================================================== *)
(** ** json *)
(* ===================================================================== *)

Module Json.
Import Py.

(** The Python values the script hands to [json.dump]: strings, integers,
    lists, and dictionaries with string keys.  A [dict] keeps its insertion
    order, which is the order of serialization, so it is an association
    list. *)
#[warnings="-register-all"]
Inductive value : Type :=
| JStr (s : str)
| JInt (z : Z)
| JList (items : list value)
| JDict (items : list (str * value)).

(** One lower-case hexadecimal digit. *)
Definition hex_digit (n : N) : N :=
  if (n <? 10)%N then (48 + n)%N else (87 + n)%N.

(** ['{0:04x}'.format(n)] for [n < 0x10000]. *)
Definition hex4 (n : N) : str :=
  [ hex_digit (N.land (N.shiftr n 12) 15);
    hex_digit (N.land (N.shiftr n 8) 15);
    hex_digit (N.land (N.shiftr n 4) 15);
    hex_digit (N.land n 15) ].

Definition backslash_u (n : N) : str := lit "\u" ++ hex4 n.

(** The [replace] callback of [json.encoder.py_encode_basestring_ascii]:
    [ESCAPE_DCT] first, then a [\uXXXX] escape, with a surrogate pair
    above the basic plane. *)
Definition escape_char (c : N) : str :=
  if N.eqb c 92 then lit "\\"
  else if N.eqb c 34 then [92; 34]%N
  else if N.eqb c 8 then lit "\b"
  else if N.eqb c 12 then lit "\f"
  else if N.eqb c 10 then lit "\n"
  else if N.eqb c 13 then lit "\r"
  else if N.eqb c 9 then lit "\t"
  else if (c <? 65536)%N then backslash_u c
  else
    let n := (c - 65536)%N in
    let s1 := N.lor 55296 (N.land (N.shiftr n 10) 1023) in
    let s2 := N.lor 56320 (N.land n 1023) in
    backslash_u s1 ++ backslash_u s2.

(** The characters [ESCAPE_ASCII] matches, hence replaces: the backslash,
    the double quote, and everything outside the printable ASCII range
    from the space to the tilde. *)
Definition needs_escape (c : N) : bool :=
  N.eqb c 92 || N.eqb c 34 || (c <? 32)%N || (126 <? c)%N.

(** [encode_basestring_ascii(s)], the encoder of strings when
    [ensure_ascii] has its default [True]. *)
Definition encode_basestring_ascii (s : str) : str :=
  [34%N] ++ flat_map (fun c => if needs_escape c then escape_char c else [c]) s
         ++ [34%N].

(** ['\n' + _indent * level] with [_indent = ' ' * indent]. *)
Definition newline_indent (indent level : nat) : str :=
  10%N :: repeat 32%N (indent * level).

(** [_iterencode] of [json.encoder._make_iterencode] with an integer
    [indent], the default separators (a comma, and a colon followed by a
    space) that go with it, and
    [sort_keys=False]; the chunks it yields are concatenated. *)
Fixpoint iterencode (indent : nat) (v : value) (level : nat) : str :=
  match v with
  | JStr s => encode_basestring_ascii s
  | JInt z => str_of_int z
  | JList items =>
      match items with
      | [] => lit "[]"
      | first :: rest =>
          let sep := 44%N :: newline_indent indent (S level) in
          lit "[" ++ newline_indent indent (S level)
            ++ iterencode indent first (S level)
            ++ (fix tail (l : list value) : str :=
                  match l with
                  | [] => []
                  | x :: l' => sep ++ iterencode indent x (S level) ++ tail l'
                  end) rest
            ++ newline_indent indent level ++ lit "]"
      end
  | JDict items =>
      match items with
      | [] => lit "{}"
      | (k, first) :: rest =>
          let sep := 44%N :: newline_indent indent (S level) in
          lit "{" ++ newline_indent indent (S level)
            ++ encode_basestring_ascii k ++ lit ": "
            ++ iterencode indent first (S level)
            ++ (fix tail (l : list (str * value)) : str :=
                  match l with
                  | [] => []
                  | (k', x) :: l' =>
                      sep ++ encode_basestring_ascii k' ++ lit ": "
                        ++ iterencode indent x (S level) ++ tail l'
                  end) rest
            ++ newline_indent indent level ++ lit "}"
      end
  end.

(** The text [json.dump(obj, fp, indent=indent)] writes to [fp]. *)
Definition dumps (obj : value) (indent : nat) : str :=
  iterencode indent obj 0.

(** [d[k]] and [l[i]], for reading a document back. *)
Definition get_key (k : str) (v : value) : option value :=
  match v with
  | JDict items =>
      option_map snd (find (fun kv => str_eqb (fst kv) k) items)
  | _ => None
  end.

Definition get_index (i : nat) (v : value) : option value :=
  match v with
  | JList items => nth_error items i
  | _ => None
  end.

End Json.

(* ===================================================================== *)
(** ** Text encoding *)
(* ===================================================================== *)

Module Codec.
Import Py.

(** UTF-8 of one code point; [None] for a surrogate or a value that is not
    a code point, where Python raises [UnicodeEncodeError]. *)
Definition utf8_char (c : N) : option bytes :=
  if (c <? 128)%N then Some [c]
  else if (c <? 2048)%N then
    Some [N.lor 192 (N.shiftr c 6); N.lor 128 (N.land c 63)]
  else if (c <? 65536)%N then
    if (55296 <=? c)%N && (c <=? 57343)%N then None
    else Some [N.lor 224 (N.shiftr c 12);
               N.lor 128 (N.land (N.shiftr c 6) 63);
               N.lor 128 (N.land c 63)]
  else if (c <? 1114112)%N then
    Some [N.lor 240 (N.shiftr c 18);
          N.lor 128 (N.land (N.shiftr c 12) 63);
          N.lor 128 (N.land (N.shiftr c 6) 63);
          N.lor 128 (N.land c 63)]
  else None.

(** [s.encode('utf-8')] *)
Fixpoint utf8 (s : str) : option bytes :=
  match s with
  | [] => Some []
  | c :: s' =>
      match utf8_char c, utf8 s' with
      | Some b, Some bs => Some (b ++ bs)
      | _, _ => None
      end
  end.

End Codec.

(* ===================================================================== *)
(** ** The file system *)
(* ===================================================================== *)

Module Fs.
Import Py.

(** A resolved absolute path: its components below the root. *)
Definition path := list str.

Inductive node : Type :=
| File (data : bytes)
| Dir.

(** The disk: every file and directory below the root, oldest first. *)
Definition store := list (path * node).

Definition path_eqb (p q : path) : bool :=
  if list_eq_dec (list_eq_dec N.eq_dec) p q then true else false.

Fixpoint assoc (p : path) (s : store) : option node :=
  match s with
  | [] => None
  | (q, v) :: s' => if path_eqb q p then Some v else assoc p s'
  end.

(** What the disk holds at a path; the root is always a directory. *)
Definition node_at (s : store) (p : path) : option node :=
  match p with
  | [] => Some Dir
  | _ => assoc p s
  end.

(** Replaces the node at [p], or adds it as the newest entry. *)
Fixpoint put (p : path) (v : node) (s : store) : store :=
  match s with
  | [] => [(p, v)]
  | (q, w) :: s' =>
      if path_eqb q p then (p, v) :: s' else (q, w) :: put p v s'
  end.

(** [os.path.dirname] and [os.path.basename] of a resolved path. *)
Definition dirname (p : path) : path := removelast p.
Definition basename (p : path) : str := last p [].

(** [os.path.join(a, b)] for a file name [b]: one more component.  Names
    returned by [os.listdir] and the names the script builds from them
    contain no separator, so the general case of [posixpath.join] (an
    absolute second argument replacing the first) does not arise. *)
Definition os_path_join (a : path) (b : str) : path := a ++ [b].

(** The names of the entries of directory [d], in disk order. *)
Fixpoint children (s : store) (d : path) : list str :=
  match s with
  | [] => []
  | (p, _) :: s' =>
      match p with
      | [] => children s' d
      | _ => if path_eqb (dirname p) d then basename p :: children s' d
             else children s' d
      end
  end.

(** Splits a path written with separators into its components. *)
Fixpoint components (s : str) (cur : str) : path :=
  match s with
  | [] => match cur with [] => [] | _ => [cur] end
  | c :: s' =>
      if N.eqb c 47 then
        match cur with
        | [] => components s' []
        | _ => cur :: components s' []
        end
      else components s' (cur ++ [c])
  end.

Definition path_of_string (s : string) : path := components (lit s) [].

(** The effects a run can have on the disk. *)
Inductive event : Type :=
| Mkdir (p : path)                 (* directory [p] created *)
| Truncate (p : path)              (* file [p] created empty, or emptied *)
| Append (p : path) (data : bytes) (* [data] written at the end of [p] *).

Definition event_path (e : event) : path :=
  match e with
  | Mkdir p => p
  | Truncate p => p
  | Append p _ => p
  end.

Definition apply_event (s : store) (e : event) : store :=
  match e with
  | Mkdir p => put p Dir s
  | Truncate p => put p (File []) s
  | Append p data =>
      match node_at s p with
      | Some (File old) => put p (File (old ++ data)) s
      | _ => s
      end
  end.

Definition replay (evs : list event) (s : store) : store :=
  fold_left apply_event evs s.

End Fs.

(* ===================================================================== *)
(** ** Statements: state and exceptions *)
(* ===================================================================== *)

Module Run.
Import Py Fs.

(** The exceptions the modelled calls raise.  All but
    [UnicodeEncodeError] are subclasses of [OSError]; [OSError_] stands for
    a failure the disk does not explain (permission denied, disk full, an
    input/output error). *)
Inductive exn : Type :=
| FileNotFoundError
| FileExistsError
| NotADirectoryError
| IsADirectoryError
| SameFileError
| OSError_
| UnicodeEncodeError.

Definition is_OSError (e : exn) : bool :=
  match e with
  | UnicodeEncodeError => false
  | _ => true
  end.

(** The state of a run.  [faults n] decides the fate of the [n]-th system
    call that can fail for an outside reason: [None] lets it through,
    [Some k] makes it fail, a write after [k] bytes. *)
Record world : Type := World {
  disk : store;
  clock : nat;
  faults : nat -> option nat;
  stdout : list str;
  journal : list event
}.

Inductive result (A : Type) : Type :=
| Ok (a : A)
| Raise (e : exn).
Arguments Raise {A} e.

(** A statement: it ends normally with a value or raises, and either way
    leaves the world as it was at that moment. *)
Definition M (A : Type) : Type := world -> result A * world.

Definition ret {A} (a : A) : M A := fun w => (Ok a, w).

Definition bind {A B} (m : M A) (k : A -> M B) : M B :=
  fun w =>
    match m w with
    | (Ok a, w') => k a w'
    | (Raise e, w') => (Raise e, w')
    end.

Definition raise {A} (e : exn) : M A := fun w => (Raise e, w).

(** [try: m  except: h] *)
Definition catch {A} (m : M A) (h : exn -> M A) : M A :=
  fun w =>
    match m w with
    | (Ok a, w') => (Ok a, w')
    | (Raise e, w') => h e w'
    end.

Declare Scope stmt_scope.
Delimit Scope stmt_scope with stmt.
Notation "x <- m ;; k" := (bind m (fun x => k))
  (at level 61, m at next level, right associativity) : stmt_scope.
Notation "m ;; k" := (bind m (fun _ => k))
  (at level 61, right associativity) : stmt_scope.
Local Open Scope stmt_scope.

(** [for x in xs: body] *)
Fixpoint for_each {A} (xs : list A) (body : A -> M unit) : M unit :=
  match xs with
  | [] => ret tt
  | x :: xs' => body x ;; for_each xs' body
  end.

Definition get_disk : M store := fun w => (Ok (disk w), w).

(** The only way a statement changes the disk: the effect is applied and
    recorded. *)
Definition emit (e : event) : M unit :=
  fun w =>
    (Ok tt, World (apply_event (disk w) e) (clock w) (faults w) (stdout w)
                  (journal w ++ [e])).

(** Entering a system call that can fail for an outside reason. *)
Definition syscall : M (option nat) :=
  fun w =>
    (Ok (faults w (clock w)),
     World (disk w) (S (clock w)) (faults w) (stdout w) (journal w)).

Definition fallible : M unit :=
  k <- syscall ;;
  match k with
  | Some _ => raise OSError_
  | None => ret tt
  end.

(** [print(line)] *)
Definition print (line : str) : M unit :=
  fun w =>
    (Ok tt, World (disk w) (clock w) (faults w) (stdout w ++ [line])
                  (journal w)).

(** [os.path.exists(p)] and [os.path.isdir(p)]; neither raises. *)
Definition os_path_exists (p : path) : M bool :=
  s <- get_disk ;;
  ret (match node_at s p with Some _ => true | None => false end).

Definition os_path_isdir (p : path) : M bool :=
  s <- get_disk ;;
  ret (match node_at s p with Some Dir => true | _ => false end).

(** [os.mkdir(p)] *)
Definition os_mkdir (p : path) : M unit :=
  fallible ;;
  s <- get_disk ;;
  match node_at s p with
  | Some _ => raise FileExistsError
  | None =>
      match node_at s (dirname p) with
      | Some Dir => emit (Mkdir p)
      | Some (File _) => raise NotADirectoryError
      | None => raise FileNotFoundError
      end
  end.

(** [os.makedirs(name, exist_ok=True)], by recursion on the components of
    [name] from the last one: [rname] is [name] reversed, so that its tail
    is the reversed [head] of [os.path.split(name)].  A resolved path has
    no [.] component, so the early return for a [tail] equal to [curdir]
    is left out. *)
Fixpoint os_makedirs_rev (rname : list str) : M unit :=
  let name := rev rname in
  match rname with
  | _ :: rhead =>
      head_exists <- os_path_exists (rev rhead) ;;
      if negb head_exists then
        catch (os_makedirs_rev rhead)
              (fun e => match e with
                        | FileExistsError => ret tt
                        | _ => raise e
                        end)
      else ret tt
  | [] => ret tt
  end ;;
  catch (os_mkdir name)
        (fun e =>
           if is_OSError e then
             is_dir <- os_path_isdir name ;;
             if negb is_dir then raise e else ret tt
           else raise e).

Definition os_makedirs (name : path) : M unit := os_makedirs_rev (rev name).

(** [os.listdir(p)] *)
Definition os_listdir (p : path) : M (list str) :=
  fallible ;;
  s <- get_disk ;;
  match node_at s p with
  | Some Dir => ret (children s p)
  | Some (File _) => raise NotADirectoryError
  | None => raise FileNotFoundError
  end.

(** [open(p, 'rb')] followed by reading the whole file. *)
Definition read_bytes (p : path) : M bytes :=
  fallible ;;
  s <- get_disk ;;
  match node_at s p with
  | Some (File data) => ret data
  | Some Dir => raise IsADirectoryError
  | None => raise FileNotFoundError
  end.

(** [open(p, 'w')] and [open(p, 'wb')]: the file is created, or emptied if
    it exists. *)
Definition open_w (p : path) : M unit :=
  fallible ;;
  s <- get_disk ;;
  match node_at s p with
  | Some Dir => raise IsADirectoryError
  | Some (File _) => emit (Truncate p)
  | None =>
      match node_at s (dirname p) with
      | Some Dir => emit (Truncate p)
      | Some (File _) => raise NotADirectoryError
      | None => raise FileNotFoundError
      end
  end.

(** Writing [data] to the open file [p] and closing it.  A fault leaves
    the bytes that got through on the disk. *)
Definition write (p : path) (data : bytes) : M unit :=
  k <- syscall ;;
  match k with
  | Some n => emit (Append p (firstn n data)) ;; raise OSError_
  | None => emit (Append p data)
  end.

(** [shutil.copyfile(src, dst)] *)
Definition shutil_copyfile (src dst : path) : M unit :=
  if path_eqb src dst then raise SameFileError
  else
    data <- read_bytes src ;;
    open_w dst ;;
    write dst data.

(** [shutil.copymode(src, dst)]: an [os.chmod], which can fail; permission
    bits are not part of the disk model. *)
Definition shutil_copymode (src dst : path) : M unit := fallible.

(** [shutil.copy(src, dst)] *)
Definition shutil_copy (src dst : path) : M path :=
  is_dir <- os_path_isdir dst ;;
  let dst := if is_dir then os_path_join dst (basename src) else dst in
  shutil_copyfile src dst ;;
  shutil_copymode src dst ;;
  ret dst.

(** [json.dump(obj, fp, indent=indent)] on the text file [fp] opened with
    [open(p, 'w')], up to the close at the end of the [with] block: the
    text is encoded and reaches the disk. *)
Definition json_dump (obj : Json.value) (fp : path) (indent : nat) : M unit :=
  match Codec.utf8 (Json.dumps obj indent) with
  | Some data => write fp data
  | None => raise UnicodeEncodeError
  end.

End Run.

(* ===================================================================== *)
(** ** The script *)
(* ===================================================================== *)

Module ImportIcons.
Import Py OsPath Json Fs Run.
Local Open Scope stmt_scope.

Definition source_dir : path :=
  path_of_string
    "/Users/alexdamore/Desktop/Vibe_Code/Antigravity/Antigravity - Dec 11 2025 - Testing/friendmap/ios/FriendMap/new icons/realistic".

Definition dest_root : path :=
  path_of_string
    "/Users/alexdamore/Desktop/Vibe_Code/Antigravity/Antigravity - Dec 11 2025 - Testing/friendmap/ios/FriendMap/Assets.xcassets/ActivityIcons".

(** The descriptor document.  The script defines three more builders
    ([get_contents_json], [get_simple_contents_json],
    [get_single_scale_contents_json]) and calls none of them. *)
Definition get_1x_contents_json (filename : str) : value :=
  JDict
    [ (lit "images",
       JList
         [ JDict
             [ (lit "filename", JStr filename);
               (lit "idiom", JStr (lit "universal"));
               (lit "scale", JStr (lit "1x")) ] ]);
      (lit "info",
       JDict
         [ (lit "author", JStr (lit "xcode"));
           (lit "version", JInt 1) ]) ].

(** The three builders the script defines before [get_1x_contents_json]
    and leaves unused. *)
Definition get_contents_json (filename : str) : value :=
  JDict
    [ (lit "images",
       JList
         [ JDict
             [ (lit "filename", JStr filename);
               (lit "idiom", JStr (lit "universal"));
               (lit "scale", JStr (lit "1x")) ];
           JDict
             [ (lit "idiom", JStr (lit "universal"));
               (lit "scale", JStr (lit "2x")) ];
           JDict
             [ (lit "idiom", JStr (lit "universal"));
               (lit "scale", JStr (lit "3x")) ] ]);
      (lit "info",
       JDict
         [ (lit "author", JStr (lit "xcode"));
           (lit "version", JInt 1) ]) ].

Definition get_simple_contents_json (filename : str) : value :=
  JDict
    [ (lit "images",
       JList
         [ JDict
             [ (lit "filename", JStr filename);
               (lit "idiom", JStr (lit "universal")) ] ]);
      (lit "info",
       JDict
         [ (lit "author", JStr (lit "xcode"));
           (lit "version", JInt 1) ]) ].

Definition get_single_scale_contents_json (filename : str) : value :=
  JDict
    [ (lit "images",
       JList
         [ JDict
             [ (lit "filename", JStr filename);
               (lit "idiom", JStr (lit "universal"));
               (lit "scale", JStr (lit "1x")) ];
           JDict
             [ (lit "idiom", JStr (lit "universal"));
               (lit "scale", JStr (lit "2x")) ];
           JDict
             [ (lit "idiom", JStr (lit "universal"));
               (lit "scale", JStr (lit "3x")) ] ]);
      (lit "info",
       JDict
         [ (lit "author", JStr (lit "xcode"));
           (lit "version", JInt 1) ]) ].

(** [[f for f in entries if f.endswith(".png")]] *)
Definition png_files (entries : list str) : list str :=
  filter (fun f => endswith f (lit ".png")) entries.

(** [os.path.splitext(f)[0]] *)
Definition name_no_ext (f : str) : str := fst (splitext f).

(** [os.path.join(dest_root, f"{name_no_ext}.imageset")] *)
Definition imageset_dir (f : str) : path :=
  os_path_join dest_root (name_no_ext f ++ lit ".imageset").

(** The body of the [for] loop. *)
Definition loop_body (f : str) : M unit :=
  if str_eqb (name_no_ext f) (lit "gaming") then ret tt (* continue *)
  else
    os_makedirs (imageset_dir f) ;;
    _ <- shutil_copy (os_path_join source_dir f)
                     (os_path_join (imageset_dir f) f) ;;
    let json_file := os_path_join (imageset_dir f) (lit "Contents.json") in
    open_w json_file ;;
    json_dump (get_1x_contents_json f) json_file 2.

Definition summary (files : list str) : str :=
  lit "Processed " ++ str_of_nat (length files) ++ lit " icons.".

(** The script, from its first statement to its last. *)
Definition main : M unit :=
  os_makedirs dest_root ;;
  entries <- os_listdir source_dir ;;
  let files := png_files entries in
  for_each files loop_body ;;
  print (summary files).

End ImportIcons.

Import Py OsPath Json Fs Run ImportIcons.
Local Open Scope stmt_scope.

(* ===================================================================== *)
(** ** Definitions for the properties *)
(* ===================================================================== *)

(** *** Effects of statements *)

(** One path lies on the way to another. *)
Definition is_prefix (p q : path) : Prop := exists l, q = p ++ l.

Definition is_file_event (e : event) : bool :=
  match e with
  | Mkdir _ => false
  | _ => true
  end.

(** [steps w evs w']: from [w] to [w'] the disk effects were exactly
    [evs], in this order, and nothing was printed. *)
Definition steps (w : world) (evs : list event) (w' : world) : Prop :=
  journal w' = journal w ++ evs
  /\ disk w' = replay evs (disk w)
  /\ faults w' = faults w
  /\ stdout w' = stdout w.

(** [grows P w w']: the same, for effects that all satisfy [P]. *)
Definition grows (P : event -> Prop) (w w' : world) : Prop :=
  exists evs, steps w evs w' /\ Forall P evs.

(** A statement is confined to [P] when, however it ends, its effects
    satisfy [P]. *)
Definition confined (P : event -> Prop) {A} (m : M A) : Prop :=
  forall w r w', m w = (r, w') -> grows P w w'.

(** *** The paths and the descriptor of one iteration *)

(** The place [shutil.copy] copies to. *)
Definition copy_target (s : store) (src dst : path) : path :=
  match node_at s dst with
  | Some Dir => os_path_join dst (basename src)
  | _ => dst
  end.

(** A string between double quotes. *)
Definition quoted (s : str) : str := [34%N] ++ s ++ [34%N].

Fixpoint join_lines (ls : list str) : str :=
  match ls with
  | [] => []
  | l :: ls' =>
      match ls' with
      | [] => l
      | _ => l ++ 10%N :: join_lines ls'
      end
  end.

(** The descriptor file as the format describes it, line by line: JSON
    with two spaces of indentation per level, [token] being the JSON
    string for the file name. *)
Definition descriptor_lines (token : str) : list str :=
  [ lit "{";
    lit "  " ++ quoted (lit "images") ++ lit ": [";
    lit "    {";
    lit "      " ++ quoted (lit "filename") ++ lit ": " ++ token ++ lit ",";
    lit "      " ++ quoted (lit "idiom") ++ lit ": "
               ++ quoted (lit "universal") ++ lit ",";
    lit "      " ++ quoted (lit "scale") ++ lit ": " ++ quoted (lit "1x");
    lit "    }";
    lit "  ],";
    lit "  " ++ quoted (lit "info") ++ lit ": {";
    lit "    " ++ quoted (lit "author") ++ lit ": "
             ++ quoted (lit "xcode") ++ lit ",";
    lit "    " ++ quoted (lit "version") ++ lit ": 1";
    lit "  }";
    lit "}" ].

Definition descriptor (f : str) : bytes :=
  join_lines (descriptor_lines (encode_basestring_ascii f)).

Definition is_ascii (c : N) : Prop := (c < 128)%N.

(** [os.path.join(source_dir, f)] *)
Definition source_path (f : str) : path := os_path_join source_dir f.

(** [os.path.join(imageset_dir, f)], and the place the copy goes to when
    that path is already a directory. *)
Definition copy_path (f : str) : path := os_path_join (imageset_dir f) f.
Definition nested_copy_path (f : str) : path := os_path_join (copy_path f) f.

(** [os.path.join(imageset_dir, "Contents.json")] *)
Definition descriptor_path (f : str) : path :=
  os_path_join (imageset_dir f) (lit "Contents.json").

(** The candidates the loop does not skip. *)
Definition processed (f : str) : bool :=
  negb (str_eqb (name_no_ext f) (lit "gaming")).

(** The effects an iteration for [f] can have. *)
Definition body_event (f : str) (e : event) : Prop :=
  (exists q, e = Mkdir q /\ q <> [] /\ is_prefix q (imageset_dir f))
  \/ (is_file_event e = true
      /\ (event_path e = copy_path f
          \/ event_path e = nested_copy_path f
          \/ event_path e = descriptor_path f)).

(** The effects of the first statement, [os.makedirs(dest_root)]. *)
Definition root_event (e : event) : Prop :=
  exists q, e = Mkdir q /\ q <> [] /\ is_prefix q dest_root.

(** A path on the way to the destination root, or below it. *)
Definition dest_side (p : path) : Prop :=
  is_prefix p dest_root \/ is_prefix dest_root p.

(** *** The whole run *)

(** The listing the script works from, and its candidates. *)
Definition entries (w : world) : list str := children (disk w) source_dir.
Definition candidates (w : world) : list str := png_files (entries w).

(** The effects of a loop over [l]. *)
Definition loop_event (l : list str) (e : event) : Prop :=
  exists g, In g l /\ processed g = true /\ body_event g e.

(** The effects of a run over the candidates [l]. *)
Definition main_event (l : list str) (e : event) : Prop :=
  root_event e \/ loop_event l e.

(** The four ways a run can end. *)
Inductive outcome (w : world) (r : result unit) (w' : world) : Prop :=
| root_failed (e : exn) :
    os_makedirs dest_root w = (Raise e, w') -> r = Raise e ->
    outcome w r w'
| listing_failed (wa : world) (e : exn) :
    os_makedirs dest_root w = (Ok tt, wa) ->
    os_listdir source_dir wa = (Raise e, w') -> r = Raise e ->
    outcome w r w'
| loop_failed (wa wb : world) (e : exn) :
    os_makedirs dest_root w = (Ok tt, wa) ->
    os_listdir source_dir wa = (Ok (entries w), wb) ->
    for_each (candidates w) loop_body wb = (Raise e, w') -> r = Raise e ->
    outcome w r w'
| completed (wa wb wc : world) :
    os_makedirs dest_root w = (Ok tt, wa) ->
    os_listdir source_dir wa = (Ok (entries w), wb) ->
    for_each (candidates w) loop_body wb = (Ok tt, wc) ->
    print (summary (candidates w)) wc = (Ok tt, w') -> r = Ok tt ->
    outcome w r w'.

(** *** Sample disks *)

(** The directories on the way to [p], and [p] itself. *)
Fixpoint ancestors (p : path) : list path :=
  match p with
  | [] => []
  | c :: p' => [c] :: map (cons c) (ancestors p')
  end.

(** A disk that holds the source directory with the given entries and
    nothing else: the destination root does not exist yet. *)
Definition source_tree (files : list (str * node)) : store :=
  map (fun q => (q, Dir)) (ancestors source_dir)
  ++ map (fun nv => (source_path (fst nv), snd nv)) files.

Definition no_faults : nat -> option nat := fun _ => None.

Definition fresh_world (files : list (str * node))
           (oracle : nat -> option nat) : world :=
  World (source_tree files) 0 oracle [] [].

(** The example of the specification: three icons, one of them the
    excluded one. *)
Definition three_icons : world :=
  fresh_world [ (lit "sports.png", File [137; 80; 78; 71]%N);
                (lit "music.png", File [137; 80; 78; 71; 13]%N);
                (lit "gaming.png", File [137; 80; 78; 71; 10]%N) ]
              no_faults.

Definition three_icons_done : world := snd (main three_icons).

(** *** Statements of the specification, and what they need *)

(** C2 as the specification states it: whatever the run, every entry that
    ends with [.png] and whose base name is not the excluded one ends up
    in its container, a copy of the source bytes next to a descriptor
    that names it. *)
Definition imported_as_stated (w : world) : Prop :=
  forall (f : str) (r : result unit) (w' : world),
    main w = (r, w') ->
    In f (entries w) ->
    endswith f (lit ".png") = true ->
    name_no_ext f <> lit "gaming" ->
    node_at (disk w') (imageset_dir f) = Some Dir
    /\ (exists data,
          node_at (disk w) (source_path f) = Some (File data)
          /\ node_at (disk w') (copy_path f) = Some (File data))
    /\ node_at (disk w') (descriptor_path f) = Some (File (descriptor f)).

(** Two icons whose names differ by a second [.png]. *)
Definition dotted_icons : world :=
  fresh_world [ (lit ".png", File [137; 80; 78; 71]%N);
                (lit ".png.png", File [137; 80; 78; 71; 13]%N) ]
              no_faults.

Definition dotted_icons_done : world := snd (main dotted_icons).

(** The container [gaming.png] would get. *)
Definition gaming_imageset : path :=
  os_path_join dest_root (lit "gaming.imageset").

(** A path that belongs to the excluded icon: the container, anything in
    it, or anything named [gaming.png]. *)
Definition gaming_place (p : path) : Prop :=
  is_prefix gaming_imageset p \/ basename p = lit "gaming.png".

Definition str_dec : forall a b : str, {a = b} + {a <> b} :=
  list_eq_dec N.eq_dec.

(** A disk without the source directory: only the user's home exists. *)
Definition no_source : world :=
  World [ ([lit "Users"], Dir); ([lit "Users"; lit "alexdamore"], Dir) ]
        0 no_faults [] [].

(** The last candidate of [l] whose iteration writes the descriptor at
    [p]. *)
Fixpoint last_writer (l : list str) (p : path) : option str :=
  match l with
  | [] => None
  | g :: l' =>
      match last_writer l' p with
      | Some h => Some h
      | None =>
          if processed g && path_eqb (descriptor_path g) p then Some g
          else None
      end
  end.

(** The part of the journal one processed candidate accounts for:
    directories made on the way to its container, then one copy, then one
    descriptor. *)
Definition iteration_journal (f : str) (chunk : list event) : Prop :=
  exists mk dst data,
    chunk = mk ++ [Truncate dst; Append dst data;
                   Truncate (descriptor_path f);
                   Append (descriptor_path f) (descriptor f)]
    /\ Forall (fun e => exists q, e = Mkdir q /\ q <> []
                                  /\ is_prefix q (imageset_dir f)) mk
    /\ (dst = copy_path f \/ dst = nested_copy_path f).

(** C7 as the specification states it: in a run that completes, distinct
    processed candidates have distinct containers. *)
Definition distinct_containers_as_stated (w : world) : Prop :=
  forall w', main w = (Ok tt, w') ->
    forall f g,
      In f (candidates w) -> processed f = true ->
      In g (candidates w) -> processed g = true ->
      f <> g -> imageset_dir f <> imageset_dir g.

(** C8 as the specification states it: when the iteration for a
    candidate raises, the run ends with that error in the world of that
    moment, and the container, the copy and the descriptor of every
    candidate processed before are as that candidate's iteration left
    them. *)
Definition failure_keeps_earlier_as_stated (w : world) : Prop :=
  forall (wa wb w1 w2 : world) (l1 l2 : list str) (f : str) (e : exn),
    os_makedirs dest_root w = (Ok tt, wa) ->
    os_listdir source_dir wa = (Ok (entries w), wb) ->
    candidates w = l1 ++ f :: l2 ->
    for_each l1 loop_body wb = (Ok tt, w1) ->
    loop_body f w1 = (Raise e, w2) ->
    main w = (Raise e, w2)
    /\ forall g, In g l1 -> processed g = true ->
         node_at (disk w2) (imageset_dir g)
         = node_at (disk w1) (imageset_dir g)
         /\ node_at (disk w2) (copy_path g) = node_at (disk w1) (copy_path g)
         /\ node_at (disk w2) (descriptor_path g)
            = node_at (disk w1) (descriptor_path g).

(** The two icons with one container, on a disk that fills up while the
    second descriptor is written: the seventeenth system call, the write
    of that descriptor, fails after three bytes. *)
Definition dotted_icons_disk_full : world :=
  fresh_world [ (lit ".png", File [137; 80; 78; 71]%N);
                (lit ".png.png", File [137; 80; 78; 71; 13]%N) ]
              (fun n => if Nat.eqb n 16 then Some 3 else None).

(** An icon, and a directory whose name ends with [.png]. *)
Definition icon_and_directory : world :=
  fresh_world [ (lit "a.png", File [137; 80; 78; 71]%N);
                (lit "d.png", Dir) ]
              no_faults.

(** A source directory whose only entry is a file named [.png]. *)
Definition only_dot_png : world :=
  fresh_world [ (lit ".png", File [137; 80; 78; 71]%N) ] no_faults.

(** C10 as the specification states it: every subdirectory of the source
    directory whose name ends with [.png] is a candidate, and the run
    raises. *)
Definition png_directory_aborts_as_stated (w : world) : Prop :=
  forall d,
    In d (entries w) ->
    endswith d (lit ".png") = true ->
    node_at (disk w) (source_path d) = Some Dir ->
    In d (candidates w) /\ exists e w', main w = (Raise e, w').

(** A source directory whose only entry is a directory named
    [gaming.png]. *)
Definition gaming_directory : world :=
  fresh_world [ (lit "gaming.png", Dir) ] no_faults.

(** *** Further properties *)

(** A name part made of dots only (the empty one included). *)
Definition all_dots (s : str) : bool :=
  negb (existsb (fun c => negb (N.eqb c extsep)) s).

(** The world after a system call that changed nothing. *)
Definition tick (w : world) : world :=
  World (disk w) (S (clock w)) (faults w) (stdout w) (journal w).

(** The [except OSError] clause of [os.makedirs] with [exist_ok=True]. *)
Definition exist_ok_handler (name : path) (e : exn) : M unit :=
  if is_OSError e then
    is_dir <- os_path_isdir name ;;
    if negb is_dir then raise e else ret tt
  else raise e.

(** A disk on which the destination root exists and the container of
    [sports.png] is taken by a regular file. *)
Definition container_taken : world :=
  World (source_tree [ (lit "sports.png", File [137; 80; 78; 71]%N) ]
         ++ map (fun q => (q, Dir)) (ancestors dest_root)
         ++ [ (imageset_dir (lit "sports.png"), File []) ])
        0 no_faults [] [].

(** A disk on which the container of [sports.png] exists and holds a
    directory named [Contents.json]. *)
Definition descriptor_taken : world :=
  World (source_tree [ (lit "sports.png", File [137; 80; 78; 71]%N) ]
         ++ map (fun q => (q, Dir)) (ancestors dest_root)
         ++ [ (imageset_dir (lit "sports.png"), Dir);
              (descriptor_path (lit "sports.png"), Dir) ])
        0 no_faults [] [].

(** A disk on which the container of [sports.png] exists and holds a
    directory named [sports.png]. *)
Definition copy_place_taken : world :=
  World (source_tree [ (lit "sports.png", File [137; 80; 78; 71]%N) ]
         ++ map (fun q => (q, Dir)) (ancestors dest_root)
         ++ [ (imageset_dir (lit "sports.png"), Dir);
              (copy_path (lit "sports.png"), Dir) ])
        0 no_faults [] [].

(** What [encode_basestring_ascii] puts for one character. *)
Definition encode_char (c : N) : str :=
  if needs_escape c then escape_char c else [c].

(** The characters of a name that [os.listdir] returns: the name is
    decoded with the [surrogateescape] handler, which gives Unicode scalar
    values and, for a byte that is not UTF-8, a low surrogate, never a
    high surrogate (U+D800 to U+DBFF). *)
Definition is_name_char (c : N) : bool :=
  (c <? 1114112)%N && negb ((55296 <=? c)%N && (c <=? 56319)%N).

(** *** Reading a JSON string

    The string grammar of the JSON format (RFC 8259, section 7), as a
    reader: it is written from the format, not from the encoder, and is
    what the descriptor is checked against. *)

(** The value of a hexadecimal digit, in either case. *)
Definition hex_value (k : N) : option N :=
  if (48 <=? k)%N && (k <=? 57)%N then Some (k - 48)%N
  else if (97 <=? k)%N && (k <=? 102)%N then Some (k - 87)%N
  else if (65 <=? k)%N && (k <=? 70)%N then Some (k - 55)%N
  else None.

Definition hex4_value (h3 h2 h1 h0 : N) : option N :=
  match hex_value h3, hex_value h2, hex_value h1, hex_value h0 with
  | Some a, Some b, Some c, Some d =>
      Some (4096 * a + 256 * b + 16 * c + d)%N
  | _, _, _, _ => None
  end.

(** The character that the letter after a backslash stands for: the
    quotation mark, the backslash, the solidus, and [b], [f], [n], [r],
    [t]. *)
Definition short_escape (k : N) : option N :=
  if N.eqb k 34 then Some 34%N
  else if N.eqb k 92 then Some 92%N
  else if N.eqb k 47 then Some 47%N
  else if N.eqb k 98 then Some 8%N
  else if N.eqb k 102 then Some 12%N
  else if N.eqb k 110 then Some 10%N
  else if N.eqb k 114 then Some 13%N
  else if N.eqb k 116 then Some 9%N
  else None.

(** The character at the front of the inside of a string, and what
    follows it: an unescaped character (no quotation mark, no backslash,
    no control character), a two-character escape, or a [\uXXXX] escape;
    an escaped high surrogate followed by an escaped low surrogate is
    the one character the pair stands for, as [json.loads] reads it. *)
Definition read_char (s : str) : option (N * str) :=
  match s with
  | [] => None
  | c :: rest =>
      if N.eqb c 92 then
        match rest with
        | [] => None
        | k :: rest1 =>
            if N.eqb k 117 then
              match rest1 with
              | h3 :: h2 :: h1 :: h0 :: rest2 =>
                  match hex4_value h3 h2 h1 h0 with
                  | None => None
                  | Some v =>
                      if (55296 <=? v)%N && (v <=? 56319)%N then
                        match rest2 with
                        | b :: u :: l3 :: l2 :: l1 :: l0 :: rest3 =>
                            match hex4_value l3 l2 l1 l0 with
                            | Some lo =>
                                if N.eqb b 92 && N.eqb u 117
                                   && (56320 <=? lo)%N && (lo <=? 57343)%N
                                then Some ((65536 + 1024 * (v - 55296)
                                            + (lo - 56320))%N, rest3)
                                else Some (v, rest2)
                            | None => Some (v, rest2)
                            end
                        | _ => Some (v, rest2)
                        end
                      else Some (v, rest2)
                  end
              | _ => None
              end
            else
              match short_escape k with
              | Some c' => Some (c', rest1)
              | None => None
              end
        end
      else if N.eqb c 34 || (c <? 32)%N then None
      else Some (c, rest)
  end.

(** The characters up to the closing quotation mark, and what follows
    it.  Every character read takes at least one character of the text,
    so the length of the text is fuel enough. *)
Fixpoint read_chars (fuel : nat) (s : str) : option (str * str) :=
  match fuel with
  | O => None
  | S fuel' =>
      match s with
      | [] => None
      | c :: rest =>
          if N.eqb c 34 then Some ([], rest)
          else
            match read_char s with
            | None => None
            | Some (c', rest') =>
                match read_chars fuel' rest' with
                | None => None
                | Some (cs, after) => Some (c' :: cs, after)
                end
            end
      end
  end.

(** The string a JSON string token stands for; [None] when the text is
    not one token. *)
Definition json_string_value (tok : str) : option str :=
  match tok with
  | [] => None
  | q :: body =>
      if N.eqb q 34 then
        match read_chars (length body) body with
        | Some (cs, []) => Some cs
        | _ => None
        end
      else None
  end.

(** *** The spelling of a character under [ensure_ascii]

    How [json.dump] spells one character of a string when [ensure_ascii]
    is left at [True], stated through the value of what is written: a
    printable ASCII character other than the quotation mark and the
    backslash stands for itself; the quotation mark, the backslash and
    the control characters with a short escape get that escape; every
    other character below U+10000 gets [\u] and the four lower-case
    hexadecimal digits of its code; a character from U+10000 on gets
    the two such escapes of its surrogate pair. *)
Definition is_lower_hex (k : N) : bool :=
  (48 <=? k)%N && (k <=? 57)%N || (97 <=? k)%N && (k <=? 102)%N.

Inductive json_escape : N -> str -> Prop :=
| escape_none (c : N) :
    (32 <= c)%N -> (c <= 126)%N -> c <> 34%N -> c <> 92%N ->
    json_escape c [c]
| escape_short (c k : N) :
    short_escape k = Some c -> k <> 47%N ->
    json_escape c [92%N; k]
| escape_unicode (c h3 h2 h1 h0 : N) :
    (c < 32 \/ 126 < c)%N -> ~ In c [8; 9; 10; 12; 13]%N ->
    (c < 65536)%N ->
    forallb is_lower_hex [h3; h2; h1; h0] = true ->
    hex4_value h3 h2 h1 h0 = Some c ->
    json_escape c [92%N; 117%N; h3; h2; h1; h0]
| escape_pair (c hi lo h3 h2 h1 h0 l3 l2 l1 l0 : N) :
    (65536 <= c)%N ->
    forallb is_lower_hex [h3; h2; h1; h0; l3; l2; l1; l0] = true ->
    hex4_value h3 h2 h1 h0 = Some hi ->
    hex4_value l3 l2 l1 l0 = Some lo ->
    (55296 <= hi)%N -> (hi <= 56319)%N ->
    (56320 <= lo)%N -> (lo <= 57343)%N ->
    c = (65536 + 1024 * (hi - 55296) + (lo - 56320))%N ->
    json_escape c [92%N; 117%N; h3; h2; h1; h0;
                   92%N; 117%N; l3; l2; l1; l0].





(** What stands at a path, without the contents. *)
Definition kind (n : option node) : option bool :=
  match n with
  | Some Dir => Some true
  | Some (File _) => Some false
  | None => None
  end.

(** From disk [s] to disk [s'] nothing was removed, nothing changed from
    file to directory or back, and the files that changed are at places
    in [W]. *)
Definition keeps (W : path -> Prop) (s s' : store) : Prop :=
  forall p, node_at s p <> None ->
            kind (node_at s' p) = kind (node_at s p)
            /\ (~ W p -> node_at s' p = node_at s p).

(** A statement that, however it ends, keeps the disk in this sense,
    prints nothing, and raises nothing but an [OSError]. *)
Definition careful (W : path -> Prop) {A} (m : M A) : Prop :=
  forall w r w',
    m w = (r, w') ->
    keeps W (disk w) (disk w')
    /\ stdout w' = stdout w
    /\ match r with
       | Raise e => is_OSError e = true
       | Ok _ => True
       end.

(** The places the iteration for [f] writes to. *)
Definition written (f : str) (p : path) : Prop :=
  p = copy_path f \/ p = nested_copy_path f \/ p = descriptor_path f.

(** The places a run over the candidates of [w] writes to. *)
Definition run_written (w : world) (p : path) : Prop :=
  exists f, In f (candidates w) /\ processed f = true /\ written f p.

(** The same disk listed in another order: entries [n] and [n+1] of the
    store change places. *)
Definition swap_at (n : nat) (s : store) : store :=
  firstn n s
  ++ match skipn n s with
     | a :: b :: rest => b :: a :: rest
     | rest => rest
     end.

(** The disk the run over [.png] and [.png.png] leaves, and the same
    disk with the two source files listed the other way round. *)
Definition dotted_icons_relisted : world :=
  World (swap_at 11 (disk dotted_icons_done)) 0 no_faults [] [].

Definition three_icons_relisted : world :=
  World (swap_at 11 (disk three_icons_done)) 0 no_faults [] [].

(** The claim as stated, for a first run from [w] and a second run from
    [v]: when [v] holds what the first run left, the second run leaves
    every descriptor as the first run left it. *)
Definition second_run_same_descriptors_as_stated (w v : world) : Prop :=
  forall w1 w2,
    main w = (Ok tt, w1) ->
    (forall p, node_at (disk v) p = node_at (disk w1) p) ->
    main v = (Ok tt, w2) ->
    forall p, basename p = lit "Contents.json" ->
              node_at (disk w2) p = node_at (disk w1) p.

(** A source directory with one icon whose name is not ASCII: U+00FC,
    then [.png]. *)
Definition accented_icon : world :=
  fresh_world [ ([252; 46; 112; 110; 103]%N, File [137; 80; 78; 71]%N) ]
              no_faults.

(** The two roots are long constants: proofs use the facts proved about
    them, not their components. *)
#[global] Opaque source_dir dest_root.

(* ===================================================================== *)
(** ** Facts about strings and paths *)
(* ===================================================================== *)


Lemma str_eqb_eq (a b : str) : str_eqb a b = true <-> a = b.
Proof.
  unfold str_eqb. destruct (list_eq_dec N.eq_dec a b); split; congruence.
Qed.

Lemma str_eqb_neq (a b : str) : str_eqb a b = false <-> a <> b.
Proof.
  unfold str_eqb. destruct (list_eq_dec N.eq_dec a b); split; congruence.
Qed.

Lemma path_eqb_eq (p q : path) : path_eqb p q = true <-> p = q.
Proof.
  unfold path_eqb.
  destruct (list_eq_dec (list_eq_dec N.eq_dec) p q); split; congruence.
Qed.

Lemma path_eqb_neq (p q : path) : path_eqb p q = false <-> p <> q.
Proof.
  unfold path_eqb.
  destruct (list_eq_dec (list_eq_dec N.eq_dec) p q); split; congruence.
Qed.

Lemma path_eqb_refl (p : path) : path_eqb p p = true.
Proof. now apply path_eqb_eq. Qed.


Lemma dirname_join (p : path) (c : str) : dirname (os_path_join p c) = p.
Proof. apply removelast_last. Qed.

Lemma basename_join (p : path) (c : str) : basename (os_path_join p c) = c.
Proof. apply last_last. Qed.

Lemma join_inj (p q : path) (c d : str) :
  os_path_join p c = os_path_join q d -> p = q /\ c = d.
Proof. unfold os_path_join. intros H. now apply app_inj_tail in H. Qed.

Lemma join_not_nil (p : path) (c : str) : os_path_join p c <> [].
Proof. unfold os_path_join. destruct p; discriminate. Qed.

Lemma is_prefix_refl (p : path) : is_prefix p p.
Proof. exists []. now rewrite app_nil_r. Qed.

Lemma is_prefix_trans (p q r : path) :
  is_prefix p q -> is_prefix q r -> is_prefix p r.
Proof. intros [l ->] [l' ->]. exists (l ++ l'). now rewrite app_assoc. Qed.

Lemma is_prefix_length (p q : path) : is_prefix p q -> length p <= length q.
Proof. intros [l ->]. rewrite length_app. lia. Qed.

Lemma is_prefix_join (p q : path) (c : str) :
  is_prefix p (os_path_join q c) -> p = os_path_join q c \/ is_prefix p q.
Proof.
  intros [l H]. destruct l as [|d l' _] using rev_ind.
  - left. now rewrite app_nil_r in H.
  - right. unfold os_path_join in H. rewrite app_assoc in H.
    apply app_inj_tail in H. destruct H as [-> _]. now exists l'.
Qed.

Lemma app_same_length_inv (A : Type) (a b l l' : list A) :
  length a = length b -> a ++ l = b ++ l' -> a = b /\ l = l'.
Proof.
  revert b. induction a as [|x a IH]; intros [|y b] Hlen H;
    simpl in *; try discriminate.
  - now split.
  - injection H as -> H. destruct (IH b) as [-> ->]; auto.
Qed.

(** *** [rfind] and [splitext] *)

Lemma rfind_from_absent (c : N) (s : str) (i : Z) :
  ~ In c s -> rfind_from c s i = (-1)%Z.
Proof.
  revert i. induction s as [|x s IH]; intros i Hin; simpl; [reflexivity|].
  rewrite IH by (intros H; apply Hin; now right). simpl.
  destruct (N.eqb_spec x c) as [->|]; [|reflexivity].
  exfalso. apply Hin. now left.
Qed.

Lemma rfind_from_last (c : N) (a b : str) (i : Z) :
  (0 <= i)%Z -> ~ In c b ->
  rfind_from c (a ++ c :: b) i = (i + Z.of_nat (length a))%Z.
Proof.
  revert i. induction a as [|x a IH]; intros i Hi Hb.
  - simpl. rewrite rfind_from_absent by assumption. simpl.
    rewrite N.eqb_refl. lia.
  - cbn [app rfind_from length]. rewrite IH by (assumption || lia).
    destruct (Z.leb_spec 0 (i + 1 + Z.of_nat (length a))); lia.
Qed.

Lemma rfind_dot_png (stem : str) :
  rfind (stem ++ lit ".png") extsep = Z.of_nat (length stem).
Proof.
  unfold rfind. change (lit ".png") with (extsep :: lit "png").
  rewrite rfind_from_last; [lia | lia |].
  cbv. intros [H|[H|[H|[]]]]; discriminate.
Qed.

(** The two components of [splitext] always make up the argument. *)
Lemma splitext_app (p : str) : fst (splitext p) ++ snd (splitext p) = p.
Proof.
  unfold splitext.
  destruct (rfind p sep <? rfind p extsep)%Z; [|apply app_nil_r].
  destruct (has_non_dot _ _ _); [|apply app_nil_r].
  apply firstn_skipn.
Qed.


(** The scan of [_splitext] over a middle segment of the path. *)
Lemma has_non_dot_segment (a b c : str) :
  has_non_dot (a ++ b ++ c) (length a) (length b)
  = existsb (fun x => negb (N.eqb x extsep)) b.
Proof.
  revert a. induction b as [|x b IH]; intros a; [reflexivity|].
  cbn [length has_non_dot existsb].
  rewrite nth_error_app2, Nat.sub_diag by lia. cbn [app nth_error].
  destruct (N.eqb x extsep); [|reflexivity]. simpl.
  specialize (IH (a ++ [x])). rewrite length_app in IH. simpl in IH.
  rewrite Nat.add_1_r, <- app_assoc in IH. exact IH.
Qed.

(** A candidate without a separator loses its [.png] exactly when
    something other than dots precedes it. *)
Lemma splitext_png (stem : str) :
  ~ In sep stem ->
  splitext (stem ++ lit ".png")
  = if existsb (fun x => negb (N.eqb x extsep)) stem
    then (stem, lit ".png") else (stem ++ lit ".png", []).
Proof.
  intros Hsep. unfold splitext. rewrite rfind_dot_png.
  assert (Hs : rfind (stem ++ lit ".png") sep = (-1)%Z).
  { apply rfind_from_absent. rewrite in_app_iff. intros [H|H]; [auto|].
    cbv in H. destruct H as [H|[H|[H|[H|[]]]]]; discriminate. }
  rewrite Hs. replace (-1 <? Z.of_nat (length stem))%Z with true
    by (symmetry; apply Z.ltb_lt; lia).
  replace (Z.to_nat (-1 + 1)) with (length (@nil N)) by reflexivity.
  replace (Z.to_nat (Z.of_nat (length stem) - (-1 + 1))) with (length stem)
    by lia.
  pose proof (has_non_dot_segment [] stem (lit ".png")) as Hscan.
  cbn [app] in Hscan. rewrite Hscan.
  destruct (existsb _ stem); [|reflexivity].
  unfold slice_to, slice_from. rewrite Nat2Z.id.
  rewrite firstn_app, firstn_all, Nat.sub_diag.
  rewrite skipn_app, skipn_all, Nat.sub_diag. simpl.
  now rewrite app_nil_r.
Qed.

Lemma name_no_ext_gaming : name_no_ext (lit "gaming.png") = lit "gaming".
Proof. reflexivity. Qed.


(* ===================================================================== *)
(** ** Facts about the disk *)
(* ===================================================================== *)

Lemma assoc_put (p q : path) (v : node) (s : store) :
  assoc p (put q v s) = if path_eqb q p then Some v else assoc p s.
Proof.
  induction s as [|[k u] s IH]; simpl.
  - reflexivity.
  - destruct (path_eqb k q) eqn:Ekq; simpl.
    + apply path_eqb_eq in Ekq. subst k.
      destruct (path_eqb q p); reflexivity.
    + destruct (path_eqb k p) eqn:Ekp.
      * apply path_eqb_eq in Ekp. subst k.
        apply path_eqb_neq in Ekq.
        destruct (path_eqb q p) eqn:Eqp; [|reflexivity].
        apply path_eqb_eq in Eqp. congruence.
      * exact IH.
Qed.

Lemma node_at_put_same (p : path) (v : node) (s : store) :
  p <> [] -> node_at (put p v s) p = Some v.
Proof.
  intros Hp. destruct p; [contradiction|]. unfold node_at.
  now rewrite assoc_put, path_eqb_refl.
Qed.

Lemma node_at_put_other (p q : path) (v : node) (s : store) :
  p <> q -> node_at (put q v s) p = node_at s p.
Proof.
  intros Hpq. destruct p as [|c p]; [reflexivity|]. unfold node_at.
  rewrite assoc_put.
  destruct (path_eqb q (c :: p)) eqn:E; [|reflexivity].
  apply path_eqb_eq in E. congruence.
Qed.

Lemma children_put_other (q d : path) (v : node) (s : store) :
  dirname q <> d -> children (put q v s) d = children s d.
Proof.
  intros Hq. induction s as [|[k u] s IH]; simpl.
  - destruct q as [|c q]; [reflexivity|].
    destruct (path_eqb (dirname (c :: q)) d) eqn:E; [|reflexivity].
    apply path_eqb_eq in E. contradiction.
  - destruct (path_eqb k q) eqn:Ekq; simpl.
    + apply path_eqb_eq in Ekq. subst k. reflexivity.
    + now rewrite IH.
Qed.

Lemma node_at_apply_other (s : store) (e : event) (p : path) :
  event_path e <> p -> node_at (apply_event s e) p = node_at s p.
Proof.
  intros Hp. destruct e as [q|q|q data]; simpl in *.
  - apply node_at_put_other. congruence.
  - apply node_at_put_other. congruence.
  - destruct (node_at s q) as [[old|]|]; try reflexivity.
    apply node_at_put_other. congruence.
Qed.

Lemma node_at_replay_other (evs : list event) (s : store) (p : path) :
  Forall (fun e => event_path e <> p) evs ->
  node_at (replay evs s) p = node_at s p.
Proof.
  unfold replay. revert s.
  induction evs as [|e evs IH]; intros s H; [reflexivity|].
  inversion H; subst. simpl. rewrite IH by assumption.
  now apply node_at_apply_other.
Qed.

Lemma children_apply_other (s : store) (e : event) (d : path) :
  dirname (event_path e) <> d -> children (apply_event s e) d = children s d.
Proof.
  intros Hd. destruct e as [q|q|q data]; simpl in *.
  - now apply children_put_other.
  - now apply children_put_other.
  - destruct (node_at s q) as [[old|]|]; try reflexivity.
    now apply children_put_other.
Qed.

Lemma children_replay_other (evs : list event) (s : store) (d : path) :
  Forall (fun e => dirname (event_path e) <> d) evs ->
  children (replay evs s) d = children s d.
Proof.
  unfold replay. revert s.
  induction evs as [|e evs IH]; intros s H; [reflexivity|].
  inversion H; subst. simpl. rewrite IH by assumption.
  now apply children_apply_other.
Qed.

(** A directory stays one as long as no file is opened or written at its
    path. *)
Lemma dir_apply (s : store) (e : event) (p : path) :
  node_at s p = Some Dir ->
  (is_file_event e = true -> event_path e <> p) ->
  node_at (apply_event s e) p = Some Dir.
Proof.
  intros Hdir Hfile.
  destruct (list_eq_dec (list_eq_dec N.eq_dec) (event_path e) p) as [E|E].
  - destruct e as [q|q|q data]; simpl in *;
      try (exfalso; now apply Hfile).
    subst q. destruct p; [reflexivity|]. now apply node_at_put_same.
  - now rewrite node_at_apply_other.
Qed.

Lemma dir_replay (evs : list event) (s : store) (p : path) :
  node_at s p = Some Dir ->
  Forall (fun e => is_file_event e = true -> event_path e <> p) evs ->
  node_at (replay evs s) p = Some Dir.
Proof.
  unfold replay. revert s.
  induction evs as [|e evs IH]; intros s Hdir H; [assumption|].
  inversion H; subst. simpl. apply IH; [|assumption].
  now apply dir_apply.
Qed.

(** A path that is not a directory becomes one only through [Mkdir]. *)
Lemma not_dir_apply (s : store) (e : event) (p : path) :
  node_at s p <> Some Dir ->
  e <> Mkdir p ->
  node_at (apply_event s e) p <> Some Dir.
Proof.
  intros Hnd Hne.
  destruct (list_eq_dec (list_eq_dec N.eq_dec) (event_path e) p) as [E|E].
  - destruct e as [q|q|q data]; simpl in *; subst q.
    + congruence.
    + destruct p; [assumption|]. rewrite node_at_put_same; discriminate.
    + destruct (node_at s p) as [[old|]|] eqn:En; try congruence.
      destruct p; [simpl in En; discriminate|].
      rewrite node_at_put_same; discriminate.
  - now rewrite node_at_apply_other.
Qed.

Lemma not_dir_replay (evs : list event) (s : store) (p : path) :
  node_at s p <> Some Dir ->
  Forall (fun e => e <> Mkdir p) evs ->
  node_at (replay evs s) p <> Some Dir.
Proof.
  unfold replay. revert s.
  induction evs as [|e evs IH]; intros s Hnd H; [assumption|].
  inversion H; subst. simpl. apply IH; [|assumption].
  now apply not_dir_apply.
Qed.

Lemma replay_app (e1 e2 : list event) (s : store) :
  replay (e1 ++ e2) s = replay e2 (replay e1 s).
Proof. apply fold_left_app. Qed.

(* ===================================================================== *)
(** ** Reasoning about statements *)
(* ===================================================================== *)

Lemma steps_nil (w : world) : steps w [] w.
Proof. unfold steps. now rewrite app_nil_r. Qed.

Lemma steps_app (w w1 w2 : world) (e1 e2 : list event) :
  steps w e1 w1 -> steps w1 e2 w2 -> steps w (e1 ++ e2) w2.
Proof.
  intros (J1 & D1 & F1 & O1) (J2 & D2 & F2 & O2). unfold steps.
  rewrite J2, J1, D2, D1, F2, F1, O2, O1, replay_app, app_assoc. auto.
Qed.

Lemma grows_refl (P : event -> Prop) (w : world) : grows P w w.
Proof. exists []. split; [apply steps_nil | constructor]. Qed.

Lemma grows_trans (P : event -> Prop) (w w1 w2 : world) :
  grows P w w1 -> grows P w1 w2 -> grows P w w2.
Proof.
  intros (e1 & S1 & F1) (e2 & S2 & F2). exists (e1 ++ e2). split.
  - eapply steps_app; eassumption.
  - apply Forall_app. now split.
Qed.

Lemma grows_weaken (P Q : event -> Prop) (w w' : world) :
  (forall e, P e -> Q e) -> grows P w w' -> grows Q w w'.
Proof.
  intros HPQ (evs & S & F). exists evs. split; [assumption|].
  eapply Forall_impl; eassumption.
Qed.

Lemma confined_weaken (P Q : event -> Prop) A (m : M A) :
  (forall e, P e -> Q e) -> confined P m -> confined Q m.
Proof.
  intros HPQ Hm w r w' E. eapply grows_weaken; [exact HPQ|]. eapply Hm, E.
Qed.

Lemma confined_ret (P : event -> Prop) A (a : A) : confined P (ret a).
Proof. intros w r w' E. injection E as _ <-. apply grows_refl. Qed.

Lemma confined_raise (P : event -> Prop) A (e : exn) :
  confined P (@raise A e).
Proof. intros w r w' E. injection E as _ <-. apply grows_refl. Qed.

Lemma confined_bind (P : event -> Prop) A B (m : M A) (k : A -> M B) :
  confined P m -> (forall a, confined P (k a)) -> confined P (bind m k).
Proof.
  intros Hm Hk w r w' E. unfold bind in E.
  destruct (m w) as [[a|e] w1] eqn:Em.
  - eapply grows_trans; [eapply Hm, Em | eapply Hk, E].
  - injection E as _ <-. eapply Hm, Em.
Qed.

Lemma confined_catch (P : event -> Prop) A (m : M A) (h : exn -> M A) :
  confined P m -> (forall e, confined P (h e)) -> confined P (catch m h).
Proof.
  intros Hm Hh w r w' E. unfold catch in E.
  destruct (m w) as [[a|e] w1] eqn:Em.
  - injection E as _ <-. eapply Hm, Em.
  - eapply grows_trans; [eapply Hm, Em | eapply Hh, E].
Qed.

Lemma confined_for_each (P : event -> Prop) A (xs : list A)
      (body : A -> M unit) :
  (forall x, In x xs -> confined P (body x)) ->
  confined P (for_each xs body).
Proof.
  induction xs as [|x xs IH]; intros Hb; simpl.
  - apply confined_ret.
  - apply confined_bind.
    + apply Hb. now left.
    + intros _. apply IH. intros y Hy. apply Hb. now right.
Qed.

Lemma confined_get_disk (P : event -> Prop) : confined P get_disk.
Proof. intros w r w' E. injection E as _ <-. apply grows_refl. Qed.

Lemma confined_syscall (P : event -> Prop) : confined P syscall.
Proof.
  intros w r w' E. injection E as _ <-. exists []. split; [|constructor].
  unfold steps. simpl. now rewrite app_nil_r.
Qed.

Lemma confined_emit (P : event -> Prop) (e : event) :
  P e -> confined P (emit e).
Proof.
  intros He w r w' E. injection E as _ <-. exists [e].
  split; [|now repeat constructor]. unfold steps. simpl. auto.
Qed.

Lemma confined_fallible (P : event -> Prop) : confined P fallible.
Proof.
  unfold fallible. apply confined_bind; [apply confined_syscall|].
  intros [k|]; [apply confined_raise | apply confined_ret].
Qed.

Lemma confined_exists (P : event -> Prop) (p : path) :
  confined P (os_path_exists p).
Proof.
  unfold os_path_exists. apply confined_bind; [apply confined_get_disk|].
  intros s. apply confined_ret.
Qed.

Lemma confined_isdir (P : event -> Prop) (p : path) :
  confined P (os_path_isdir p).
Proof.
  unfold os_path_isdir. apply confined_bind; [apply confined_get_disk|].
  intros s. apply confined_ret.
Qed.

(** Statements that end normally, step by step. *)
Lemma bind_ok A B (m : M A) (k : A -> M B) (w w' : world) (b : B) :
  bind m k w = (Ok b, w') ->
  exists a w1, m w = (Ok a, w1) /\ k a w1 = (Ok b, w').
Proof.
  unfold bind. destruct (m w) as [[a|e] w1]; [|discriminate].
  intros E. now exists a, w1.
Qed.

Lemma bind_cases A B (m : M A) (k : A -> M B) (w w' : world)
      (r : result B) :
  bind m k w = (r, w') ->
  (exists a w1, m w = (Ok a, w1) /\ k a w1 = (r, w'))
  \/ (exists e, m w = (Raise e, w') /\ r = Raise e).
Proof.
  unfold bind. destruct (m w) as [[a|e] w1].
  - intros E. left. now exists a, w1.
  - intros E. injection E as <- <-. right. now exists e.
Qed.

Lemma for_each_app A (l1 l2 : list A) (body : A -> M unit) (w : world) :
  for_each (l1 ++ l2) body w
  = match for_each l1 body w with
    | (Ok _, w1) => for_each l2 body w1
    | (Raise e, w1) => (Raise e, w1)
    end.
Proof.
  revert w. induction l1 as [|x l1 IH]; intros w; simpl; [reflexivity|].
  unfold bind. destruct (body x w) as [[[]|e] w1]; [apply IH | reflexivity].
Qed.

(* ===================================================================== *)
(** ** The runtime calls *)
(* ===================================================================== *)

(** *** What each call may do to the disk, however it ends *)

Lemma confined_mkdir (P : event -> Prop) (p : path) :
  (p <> [] -> P (Mkdir p)) -> confined P (os_mkdir p).
Proof.
  intros HP. unfold os_mkdir.
  apply confined_bind; [apply confined_fallible | intros _].
  apply confined_bind; [apply confined_get_disk | intros s].
  destruct (node_at s p) as [n|] eqn:Ep; [apply confined_raise|].
  destruct (node_at s (dirname p)) as [[d|]|];
    try apply confined_raise.
  apply confined_emit, HP. intros ->. discriminate Ep.
Qed.

Lemma confined_makedirs_rev (P : event -> Prop) (rname : list str) :
  (forall q, q <> [] -> is_prefix q (rev rname) -> P (Mkdir q)) ->
  confined P (os_makedirs_rev rname).
Proof.
  induction rname as [|tail rhead IH]; intros HP.
  - simpl. apply confined_bind; [apply confined_ret | intros _].
    apply confined_catch.
    + apply confined_mkdir. intros H. now elim H.
    + intros e. destruct (is_OSError e); [|apply confined_raise].
      apply confined_bind; [apply confined_isdir | intros b].
      destruct (negb b); [apply confined_raise | apply confined_ret].
  - cbn [os_makedirs_rev]. apply confined_bind.
    + apply confined_bind; [apply confined_exists | intros b].
      destruct (negb b); [|apply confined_ret].
      apply confined_catch.
      * apply IH. intros q Hq Hpre. apply HP; [assumption|].
        eapply is_prefix_trans; [exact Hpre|]. exists [tail]. reflexivity.
      * intros e. destruct e; try apply confined_raise. apply confined_ret.
    + intros _. apply confined_catch.
      * apply confined_mkdir. intros Hne. apply HP; [assumption|].
        apply is_prefix_refl.
      * intros e. destruct (is_OSError e); [|apply confined_raise].
        apply confined_bind; [apply confined_isdir | intros b].
        destruct (negb b); [apply confined_raise | apply confined_ret].
Qed.

Lemma confined_makedirs (P : event -> Prop) (name : path) :
  (forall q, q <> [] -> is_prefix q name -> P (Mkdir q)) ->
  confined P (os_makedirs name).
Proof.
  intros HP. unfold os_makedirs. apply confined_makedirs_rev.
  now rewrite rev_involutive.
Qed.

Lemma confined_listdir (P : event -> Prop) (p : path) :
  confined P (os_listdir p).
Proof.
  unfold os_listdir.
  apply confined_bind; [apply confined_fallible | intros _].
  apply confined_bind; [apply confined_get_disk | intros s].
  destruct (node_at s p) as [[d|]|];
    (apply confined_raise || apply confined_ret).
Qed.

Lemma confined_read_bytes (P : event -> Prop) (p : path) :
  confined P (read_bytes p).
Proof.
  unfold read_bytes.
  apply confined_bind; [apply confined_fallible | intros _].
  apply confined_bind; [apply confined_get_disk | intros s].
  destruct (node_at s p) as [[d|]|];
    (apply confined_raise || apply confined_ret).
Qed.

Lemma confined_open_w (P : event -> Prop) (p : path) :
  (p <> [] -> P (Truncate p)) -> confined P (open_w p).
Proof.
  intros HP. unfold open_w.
  apply confined_bind; [apply confined_fallible | intros _].
  apply confined_bind; [apply confined_get_disk | intros s].
  destruct (node_at s p) as [[d|]|] eqn:Ep.
  - apply confined_emit, HP. intros ->. discriminate Ep.
  - apply confined_raise.
  - destruct (node_at s (dirname p)) as [[d|]|];
      try apply confined_raise.
    apply confined_emit, HP. intros ->. discriminate Ep.
Qed.

Lemma confined_write (P : event -> Prop) (p : path) (data : bytes) :
  (forall d, P (Append p d)) -> confined P (write p data).
Proof.
  intros HP. unfold write.
  apply confined_bind; [apply confined_syscall | intros [n|]].
  - apply confined_bind; [apply confined_emit, HP | intros _].
    apply confined_raise.
  - apply confined_emit, HP.
Qed.

Lemma confined_copyfile (P : event -> Prop) (src dst : path) :
  (dst <> [] -> P (Truncate dst)) -> (forall d, P (Append dst d)) ->
  confined P (shutil_copyfile src dst).
Proof.
  intros HT HA. unfold shutil_copyfile.
  destruct (path_eqb src dst); [apply confined_raise|].
  apply confined_bind; [apply confined_read_bytes | intros data].
  apply confined_bind; [now apply confined_open_w | intros _].
  now apply confined_write.
Qed.

Lemma confined_copy (P : event -> Prop) (src dst : path) :
  (forall t, t = dst \/ t = os_path_join dst (basename src) ->
             P (Truncate t) /\ forall d, P (Append t d)) ->
  confined P (shutil_copy src dst).
Proof.
  intros HP. unfold shutil_copy.
  apply confined_bind; [apply confined_isdir | intros b].
  apply confined_bind.
  - destruct b; apply confined_copyfile; intros; apply HP; auto.
  - intros _. apply confined_bind; [apply confined_fallible | intros _].
    apply confined_ret.
Qed.

Lemma confined_json_dump (P : event -> Prop) (obj : value) (fp : path)
      (indent : nat) :
  (forall d, P (Append fp d)) -> confined P (json_dump obj fp indent).
Proof.
  intros HP. unfold json_dump.
  destruct (Codec.utf8 _); [now apply confined_write | apply confined_raise].
Qed.

(** *** What each call has done when it ends normally *)

Lemma fallible_ok (w w' : world) :
  fallible w = (Ok tt, w') -> steps w [] w'.
Proof.
  unfold fallible, bind, syscall. destruct (faults w (clock w)).
  - discriminate.
  - intros E. injection E as <-. unfold steps. simpl.
    now rewrite app_nil_r.
Qed.

Lemma emit_ok (e : event) (w w' : world) (r : result unit) :
  emit e w = (r, w') -> r = Ok tt /\ steps w [e] w'.
Proof.
  unfold emit. intros E. injection E as <- <-. unfold steps. simpl. auto.
Qed.

Lemma isdir_run (p : path) (w : world) :
  os_path_isdir p w
  = (Ok (match node_at (disk w) p with Some Dir => true | _ => false end), w).
Proof. reflexivity. Qed.

Lemma steps_disk_nil (w w' : world) : steps w [] w' -> disk w' = disk w.
Proof. intros (_ & D & _). exact D. Qed.

Lemma mkdir_ok (p : path) (w w' : world) :
  os_mkdir p w = (Ok tt, w') ->
  steps w [Mkdir p] w' /\ p <> [] /\ node_at (disk w) p = None.
Proof.
  unfold os_mkdir. intros E.
  apply bind_ok in E. destruct E as ([] & w1 & Ef & E).
  apply fallible_ok in Ef.
  apply bind_ok in E. destruct E as (s & w2 & Eg & E).
  injection Eg as <- <-.
  rewrite (steps_disk_nil Ef) in E.
  destruct (node_at (disk w) p) as [n|] eqn:Ep; [discriminate|].
  destruct (node_at (disk w) (dirname p)) as [[d|]|]; try discriminate.
  apply emit_ok in E. destruct E as [_ E]. split; [|split].
  - apply (steps_app Ef E).
  - intros ->. discriminate Ep.
  - reflexivity.
Qed.

(** When [os.makedirs] returns, the directory is there. *)
Lemma makedirs_ok (name : path) (w w' : world) :
  os_makedirs name w = (Ok tt, w') -> node_at (disk w') name = Some Dir.
Proof.
  unfold os_makedirs.
  destruct (rev name) as [|tail rhead] eqn:Er.
  - intros _. apply (f_equal (@rev str)) in Er.
    rewrite rev_involutive in Er. now subst name.
  - assert (En : rev (tail :: rhead) = name)
      by (rewrite <- Er; apply rev_involutive).
    cbn [os_makedirs_rev]. rewrite En. intros E.
    apply bind_ok in E. destruct E as ([] & w1 & _ & E).
    unfold catch in E.
    destruct (os_mkdir name w1) as [[[]|e] w2] eqn:Em.
    + injection E as <-. apply mkdir_ok in Em.
      destruct Em as ((_ & D & _) & Hne & _). rewrite D. simpl.
      now apply node_at_put_same.
    + destruct (is_OSError e); [|discriminate].
      unfold bind in E. rewrite isdir_run in E.
      destruct (node_at (disk w2) name) as [[d|]|] eqn:Ed;
        try discriminate.
      simpl in E. injection E as <-. exact Ed.
Qed.

Lemma listdir_ok (p : path) (w w' : world) (l : list str) :
  os_listdir p w = (Ok l, w') ->
  steps w [] w' /\ l = children (disk w) p /\ node_at (disk w) p = Some Dir.
Proof.
  unfold os_listdir. intros E.
  apply bind_ok in E. destruct E as ([] & w1 & Ef & E).
  apply fallible_ok in Ef.
  apply bind_ok in E. destruct E as (s & w2 & Eg & E).
  injection Eg as <- <-. rewrite (steps_disk_nil Ef) in E.
  destruct (node_at (disk w) p) as [[d|]|]; try discriminate.
  injection E as <- <-. auto.
Qed.

Lemma read_bytes_ok (p : path) (w w' : world) (data : bytes) :
  read_bytes p w = (Ok data, w') ->
  steps w [] w' /\ node_at (disk w) p = Some (File data).
Proof.
  unfold read_bytes. intros E.
  apply bind_ok in E. destruct E as ([] & w1 & Ef & E).
  apply fallible_ok in Ef.
  apply bind_ok in E. destruct E as (s & w2 & Eg & E).
  injection Eg as <- <-. rewrite (steps_disk_nil Ef) in E.
  destruct (node_at (disk w) p) as [[d|]|]; try discriminate.
  injection E as <- <-. auto.
Qed.

Lemma open_w_ok (p : path) (w w' : world) :
  open_w p w = (Ok tt, w') ->
  steps w [Truncate p] w' /\ p <> [] /\ node_at (disk w) p <> Some Dir.
Proof.
  unfold open_w. intros E.
  apply bind_ok in E. destruct E as ([] & w1 & Ef & E).
  apply fallible_ok in Ef.
  apply bind_ok in E. destruct E as (s & w2 & Eg & E).
  injection Eg as <- <-. rewrite (steps_disk_nil Ef) in E.
  assert (Hne : node_at (disk w) p <> Some Dir -> p <> [])
    by (intros H ->; now apply H).
  destruct (node_at (disk w) p) as [[d|]|] eqn:Ep; try discriminate.
  - apply emit_ok in E. destruct E as [_ E].
    split; [apply (steps_app Ef E) | split; [apply Hne|]; discriminate].
  - destruct (node_at (disk w) (dirname p)) as [[d|]|]; try discriminate.
    apply emit_ok in E. destruct E as [_ E].
    split; [apply (steps_app Ef E) | split; [apply Hne|]; discriminate].
Qed.

Lemma write_ok (p : path) (data : bytes) (w w' : world) :
  write p data w = (Ok tt, w') -> steps w [Append p data] w'.
Proof.
  unfold write, bind, syscall. destruct (faults w (clock w)) as [n|].
  - simpl. discriminate.
  - intros E. apply emit_ok in E. destruct E as [_ (J & D & F & O)].
    unfold steps. simpl in *. auto.
Qed.

Lemma copy_ok (src dst d : path) (w w' : world) :
  shutil_copy src dst w = (Ok d, w') ->
  d = copy_target (disk w) src dst
  /\ exists data,
       node_at (disk w) src = Some (File data)
       /\ steps w [Truncate d; Append d data] w'.
Proof.
  unfold shutil_copy. intros E.
  apply bind_ok in E. destruct E as (b & w1 & Ei & E).
  rewrite isdir_run in Ei. injection Ei as <- <-.
  apply bind_ok in E. destruct E as ([] & w2 & Ec & E).
  apply bind_ok in E. destruct E as ([] & w3 & Em & E).
  injection E as <- <-. apply fallible_ok in Em.
  assert (Ht : (if match node_at (disk w) dst with
                   | Some Dir => true
                   | _ => false
                   end
                then os_path_join dst (basename src) else dst)
               = copy_target (disk w) src dst).
  { unfold copy_target. now destruct (node_at (disk w) dst) as [[?|]|]. }
  rewrite Ht in *. split; [reflexivity|].
  unfold shutil_copyfile in Ec.
  destruct (path_eqb src (copy_target (disk w) src dst)); [discriminate|].
  apply bind_ok in Ec. destruct Ec as (data & w4 & Er & Ec).
  apply read_bytes_ok in Er. destruct Er as [Sr Hdata].
  apply bind_ok in Ec. destruct Ec as ([] & w5 & Eo & Ec).
  apply open_w_ok in Eo. destruct Eo as [So _].
  apply write_ok in Ec. exists data. split; [assumption|].
  pose proof (steps_app (steps_app (steps_app Sr So) Ec) Em) as S.
  simpl in S. exact S.
Qed.

Lemma json_dump_ok (obj : value) (fp : path) (indent : nat) (w w' : world) :
  json_dump obj fp indent w = (Ok tt, w') ->
  exists data,
    Codec.utf8 (dumps obj indent) = Some data /\ steps w [Append fp data] w'.
Proof.
  unfold json_dump. destruct (Codec.utf8 _) as [data|]; [|discriminate].
  intros E. exists data. split; [reflexivity | now apply write_ok].
Qed.

(* ===================================================================== *)
(** ** The descriptor *)
(* ===================================================================== *)

Lemma dumps_get_1x (f : str) :
  dumps (get_1x_contents_json f) 2 = descriptor f.
Proof.
  unfold descriptor, descriptor_lines, dumps, get_1x_contents_json.
  cbn. rewrite <- !app_assoc. reflexivity.
Qed.

(** *** The descriptor is plain ASCII *)

Lemma hex_digit_ascii (n : N) : is_ascii (hex_digit (N.land n 15)).
Proof.
  unfold is_ascii, hex_digit. change 15%N with (N.ones 4).
  rewrite N.land_ones.
  assert (n mod 2 ^ 4 < 16)%N by (apply N.mod_lt; discriminate).
  destruct (N.ltb_spec (n mod 2 ^ 4) 10); lia.
Qed.

Lemma lit_ascii (s : string) : Forall is_ascii (lit s) <->
  forallb (fun c => (c <? 128)%N) (lit s) = true.
Proof.
  rewrite forallb_forall, Forall_forall. unfold is_ascii.
  split; intros H c Hc; apply N.ltb_lt; now apply H.
Qed.

Lemma backslash_u_ascii (n : N) : Forall is_ascii (backslash_u n).
Proof.
  unfold backslash_u, hex4. apply Forall_app. split.
  - now apply lit_ascii.
  - repeat constructor; apply hex_digit_ascii.
Qed.

Lemma escape_char_ascii (c : N) : Forall is_ascii (escape_char c).
Proof.
  unfold escape_char.
  destruct (N.eqb c 92); [now apply lit_ascii|].
  destruct (N.eqb c 34); [repeat constructor|].
  destruct (N.eqb c 8); [now apply lit_ascii|].
  destruct (N.eqb c 12); [now apply lit_ascii|].
  destruct (N.eqb c 10); [now apply lit_ascii|].
  destruct (N.eqb c 13); [now apply lit_ascii|].
  destruct (N.eqb c 9); [now apply lit_ascii|].
  destruct (c <? 65536)%N; [apply backslash_u_ascii|].
  apply Forall_app. split; apply backslash_u_ascii.
Qed.

Lemma encode_basestring_ascii_ascii (s : str) :
  Forall is_ascii (encode_basestring_ascii s).
Proof.
  unfold encode_basestring_ascii. apply Forall_app. split.
  - repeat constructor.
  - apply Forall_app. split; [|repeat constructor].
    apply Forall_flat_map. apply Forall_forall. intros c _.
    destruct (needs_escape c) eqn:E; [apply escape_char_ascii|].
    repeat constructor. unfold needs_escape in E.
    repeat (apply orb_false_iff in E; destruct E as [E ?]).
    unfold is_ascii. destruct (N.ltb_spec 126 c); [discriminate | lia].
Qed.

Lemma descriptor_ascii (f : str) : Forall is_ascii (descriptor f).
Proof.
  unfold descriptor, descriptor_lines.
  pose proof (encode_basestring_ascii_ascii f) as H.
  revert H. generalize (encode_basestring_ascii f). intros token H.
  cbn.
  repeat first
    [ exact H
    | apply Forall_nil
    | apply Forall_cons; [unfold is_ascii; simpl; lia|]
    | apply Forall_app; split ].
Qed.

Lemma utf8_ascii (s : str) : Forall is_ascii s -> Codec.utf8 s = Some s.
Proof.
  induction 1 as [|c s Hc _ IH]; simpl; [reflexivity|].
  rewrite IH. unfold Codec.utf8_char.
  apply N.ltb_lt in Hc. now rewrite Hc.
Qed.

(** The bytes [json.dump] sends to the file. *)
Lemma descriptor_bytes (f : str) :
  Codec.utf8 (dumps (get_1x_contents_json f) 2) = Some (descriptor f).
Proof. rewrite dumps_get_1x. apply utf8_ascii, descriptor_ascii. Qed.

(** A name made of printable ASCII characters other than the double quote
    and the backslash appears in the descriptor as it is, between
    quotes. *)
Lemma encode_plain (s : str) :
  Forall (fun c => needs_escape c = false) s ->
  encode_basestring_ascii s = quoted s.
Proof.
  intros H. unfold encode_basestring_ascii, quoted. do 2 f_equal.
  induction H as [|c s Hc _ IH]; simpl; [reflexivity|].
  now rewrite Hc, IH.
Qed.

(* --------------------------------------------------------------------- *)
(** *** The encoded name, read back *)

Lemma hex_digit_value (a : N) :
  (a < 16)%N ->
  hex_value (hex_digit a) = Some a /\ is_lower_hex (hex_digit a) = true.
Proof.
  intros H. unfold hex_value, is_lower_hex, hex_digit.
  destruct (N.ltb_spec a 10).
  - assert (E1 : (48 <=? 48 + a)%N = true) by (apply N.leb_le; lia).
    assert (E2 : (48 + a <=? 57)%N = true) by (apply N.leb_le; lia).
    rewrite E1, E2. cbn [andb orb]. split; [f_equal; lia | reflexivity].
  - assert (E1 : (48 <=? 87 + a)%N = true) by (apply N.leb_le; lia).
    assert (E2 : (87 + a <=? 57)%N = false) by (apply N.leb_gt; lia).
    assert (E3 : (97 <=? 87 + a)%N = true) by (apply N.leb_le; lia).
    assert (E4 : (87 + a <=? 102)%N = true) by (apply N.leb_le; lia).
    rewrite E1, E2, E3, E4. cbn [andb orb].
    split; [f_equal; lia | reflexivity].
Qed.

Lemma nibble (x : N) : N.land x 15 = (x mod 16)%N.
Proof. change 15%N with (N.ones 4). apply N.land_ones. Qed.

(** The four digits [hex4] writes are lower-case hexadecimal digits, and
    their value is the number written. *)
Lemma hex4_spec (c : N) :
  (c < 65536)%N ->
  exists h3 h2 h1 h0,
    hex4 c = [h3; h2; h1; h0]
    /\ forallb is_lower_hex [h3; h2; h1; h0] = true
    /\ hex4_value h3 h2 h1 h0 = Some c.
Proof.
  intros H. unfold hex4. rewrite !nibble, !N.shiftr_div_pow2.
  change (2 ^ 12)%N with 4096%N. change (2 ^ 8)%N with 256%N.
  change (2 ^ 4)%N with 16%N.
  destruct (@hex_digit_value ((c / 4096) mod 16))
    as [V3 L3]; [apply N.mod_lt; discriminate|].
  destruct (@hex_digit_value ((c / 256) mod 16))
    as [V2 L2]; [apply N.mod_lt; discriminate|].
  destruct (@hex_digit_value ((c / 16) mod 16))
    as [V1 L1]; [apply N.mod_lt; discriminate|].
  destruct (@hex_digit_value (c mod 16))
    as [V0 L0]; [apply N.mod_lt; discriminate|].
  eexists _, _, _, _. split; [reflexivity|]. split.
  - cbn [forallb]. now rewrite L3, L2, L1, L0.
  - unfold hex4_value. rewrite V3, V2, V1, V0. f_equal.
    pose proof (N.div_mod c 16 ltac:(discriminate)) as E0.
    pose proof (N.div_mod (c / 16) 16 ltac:(discriminate)) as E1.
    pose proof (N.div_mod (c / 256) 16 ltac:(discriminate)) as E2.
    assert (D2 : (c / 256 = c / 16 / 16)%N)
      by (rewrite N.Div0.div_div; reflexivity).
    assert (D3 : (c / 4096 = c / 256 / 16)%N)
      by (rewrite N.Div0.div_div; reflexivity).
    assert (Q3 : (c / 4096 < 16)%N)
      by (apply N.Div0.div_lt_upper_bound; lia).
    rewrite (N.mod_small (c / 4096)) by exact Q3.
    rewrite <- D2 in E1. rewrite <- D3 in E2.
    remember (c mod 16)%N as m0. remember ((c / 16) mod 16)%N as m1.
    remember ((c / 256) mod 16)%N as m2.
    remember (c / 16)%N as q1. remember (c / 256)%N as q2.
    remember (c / 4096)%N as q3. lia.
Qed.

(** The two halves of a surrogate pair, as numbers. *)
Lemma lor_low_bits (a x : N) :
  N.land a 1023 = 0%N -> N.lor a (N.land x 1023) = (a + x mod 1024)%N.
Proof.
  intros Ha. change 1023%N with (N.ones 10) in *.
  assert (Hd : N.land a (N.land x (N.ones 10)) = 0%N).
  { rewrite (N.land_comm x), N.land_assoc, Ha. apply N.land_0_l. }
  rewrite <- (N.lxor_lor _ _ Hd), <- (N.add_nocarry_lxor _ _ Hd).
  now rewrite N.land_ones.
Qed.

Lemma surrogate_pair (n : N) :
  (n < 1048576)%N ->
  let hi := N.lor 55296 (N.land (N.shiftr n 10) 1023) in
  let lo := N.lor 56320 (N.land n 1023) in
  (55296 <= hi)%N /\ (hi <= 56319)%N /\ (56320 <= lo)%N /\ (lo <= 57343)%N
  /\ (1024 * (hi - 55296) + (lo - 56320))%N = n.
Proof.
  intros H hi lo. unfold hi, lo.
  rewrite !lor_low_bits by reflexivity.
  rewrite N.shiftr_div_pow2. change (2 ^ 10)%N with 1024%N.
  assert (Q : (n / 1024 < 1024)%N)
    by (apply N.Div0.div_lt_upper_bound; lia).
  rewrite (N.mod_small (n / 1024)) by exact Q.
  pose proof (N.div_mod n 1024 ltac:(discriminate)) as D.
  pose proof (N.mod_lt n 1024 ltac:(discriminate)) as L.
  remember (n mod 1024)%N as m. remember (n / 1024)%N as q. lia.
Qed.

(** What the encoder writes for a character is its spelling under
    [ensure_ascii]. *)
Lemma json_escape_encode (c : N) :
  (c < 1114112)%N -> json_escape c (encode_char c).
Proof.
  intros Hc. unfold encode_char.
  destruct (needs_escape c) eqn:Hn.
  - unfold escape_char.
    destruct (N.eqb_spec c 92) as [-> | N92];
      [now apply (@escape_short 92 92)|].
    destruct (N.eqb_spec c 34) as [-> | N34];
      [now apply (@escape_short 34 34)|].
    destruct (N.eqb_spec c 8) as [-> | N8];
      [now apply (@escape_short 8 98)|].
    destruct (N.eqb_spec c 12) as [-> | N12];
      [now apply (@escape_short 12 102)|].
    destruct (N.eqb_spec c 10) as [-> | N10];
      [now apply (@escape_short 10 110)|].
    destruct (N.eqb_spec c 13) as [-> | N13];
      [now apply (@escape_short 13 114)|].
    destruct (N.eqb_spec c 9) as [-> | N9];
      [now apply (@escape_short 9 116)|].
    assert (Hout : (c < 32 \/ 126 < c)%N).
    { unfold needs_escape in Hn.
      apply N.eqb_neq in N92, N34. rewrite N92, N34 in Hn. cbn [orb] in Hn.
      apply orb_true_iff in Hn. destruct Hn as [Hn | Hn];
        apply N.ltb_lt in Hn; auto. }
    destruct (N.ltb_spec c 65536) as [Hlt | Hge].
    + destruct (hex4_spec Hlt) as (h3 & h2 & h1 & h0 & E & L & V).
      unfold backslash_u. rewrite E.
      change (lit "\u" ++ [h3; h2; h1; h0])
        with [92%N; 117%N; h3; h2; h1; h0].
      apply escape_unicode; try assumption.
      intros [<- | [<- | [<- | [<- | [<- | []]]]]]; congruence.
    + set (n := (c - 65536)%N).
      assert (Hn20 : (n < 1048576)%N) by (unfold n; lia).
      destruct (surrogate_pair Hn20) as (H1 & H2 & H3 & H4 & Hv).
      cbv zeta. fold n.
      set (hi := N.lor 55296 (N.land (N.shiftr n 10) 1023)) in *.
      set (lo := N.lor 56320 (N.land n 1023)) in *.
      destruct (@hex4_spec hi ltac:(lia))
        as (h3 & h2 & h1 & h0 & E & L & V).
      destruct (@hex4_spec lo ltac:(lia))
        as (l3 & l2 & l1 & l0 & E' & L' & V').
      unfold backslash_u. rewrite E, E'.
      change ((lit "\u" ++ [h3; h2; h1; h0]) ++ lit "\u" ++ [l3; l2; l1; l0])
        with [92%N; 117%N; h3; h2; h1; h0; 92%N; 117%N; l3; l2; l1; l0].
      apply (@escape_pair c hi lo); try assumption.
      * cbn [forallb] in *.
        repeat (apply andb_true_iff in L; destruct L as [? L]).
        repeat (apply andb_true_iff in L'; destruct L' as [? L']).
        repeat (apply andb_true_iff; split); assumption.
      * unfold n in Hv. lia.
  - unfold needs_escape in Hn.
    repeat (apply orb_false_iff in Hn; destruct Hn as [Hn ?]).
    apply escape_none.
    + apply N.ltb_ge. assumption.
    + apply N.ltb_ge. assumption.
    + now apply N.eqb_neq.
    + now apply N.eqb_neq.
Qed.

Lemma name_char_bounds (c : N) :
  is_name_char c = true ->
  (c < 1114112)%N /\ ((55296 <=? c)%N && (c <=? 56319)%N = false).
Proof.
  unfold is_name_char. rewrite andb_true_iff, negb_true_iff.
  intros [H1 H2]. split; [now apply N.ltb_lt | exact H2].
Qed.

(** The reader gives back the character that was spelled. *)
Lemma read_escaped (c : N) (piece rest : str) :
  json_escape c piece ->
  is_name_char c = true ->
  read_char (piece ++ rest) = Some (c, rest).
Proof.
  intros He Hc. destruct (@name_char_bounds c Hc) as [_ Hhigh].
  destruct He as [c H32 H126 N34 N92 | c k Hk N47
                 | c h3 h2 h1 h0 Hout Hshort Hlt Hlow Hv
                 | c hi lo h3 h2 h1 h0 l3 l2 l1 l0 Hge Hlow Hh Hl
                     H1 H2 H3 H4 ->].
  - cbn [app read_char].
    apply N.eqb_neq in N34, N92. rewrite N34, N92.
    assert (E : (c <? 32)%N = false) by (apply N.ltb_ge; exact H32).
    now rewrite E.
  - cbn [app read_char N.eqb Pos.eqb].
    assert (E : N.eqb k 117 = false).
    { apply N.eqb_neq. intros ->. discriminate Hk. }
    now rewrite E, Hk.
  - cbn [app read_char N.eqb Pos.eqb]. now rewrite Hv, Hhigh.
  - cbn [app read_char N.eqb Pos.eqb]. rewrite Hh.
    assert (E1 : (55296 <=? hi)%N && (hi <=? 56319)%N = true).
    { apply andb_true_iff. split; now apply N.leb_le. }
    assert (E2 : (56320 <=? lo)%N && (lo <=? 57343)%N = true).
    { apply andb_true_iff. split; now apply N.leb_le. }
    apply andb_true_iff in E2. destruct E2 as [E2 E3].
    rewrite E1, Hl, E2, E3. reflexivity.
Qed.

Lemma json_escape_head (c : N) (piece : str) :
  json_escape c piece ->
  exists h t, piece = h :: t /\ N.eqb h 34 = false.
Proof.
  intros [c' _ _ N34 _ | | |]; eexists _, _; split;
    try reflexivity.
  now apply N.eqb_neq.
Qed.

(** The reader gives back the string whose characters were spelled, and
    stops after the closing quotation mark. *)
Lemma read_chars_escaped (f : str) (pieces : list str) (rest : str) :
  Forall2 json_escape f pieces ->
  Forall (fun c => is_name_char c = true) f ->
  forall fuel, length f < fuel ->
    read_chars fuel (concat pieces ++ 34%N :: rest) = Some (f, rest).
Proof.
  induction 1 as [|c piece f pieces Hc _ IH]; intros Hf fuel Hfuel.
  - destruct fuel as [|fuel]; [inversion Hfuel | reflexivity].
  - inversion Hf as [|c' f' Hname Hf']; subst.
    destruct fuel as [|fuel]; [inversion Hfuel|].
    cbn [concat]. rewrite <- app_assoc.
    destruct (@json_escape_head c piece Hc) as (h & t & -> & Hh).
    cbn [read_chars app]. rewrite Hh.
    change (h :: t ++ concat pieces ++ 34%N :: rest)
      with ((h :: t) ++ concat pieces ++ 34%N :: rest).
    rewrite (@read_escaped c (h :: t) _ Hc Hname).
    rewrite (IH Hf' fuel); [reflexivity|]. cbn [length] in Hfuel. lia.
Qed.

Lemma json_escape_length (f : str) (pieces : list str) :
  Forall2 json_escape f pieces -> length f <= length (concat pieces).
Proof.
  induction 1 as [|c piece f pieces Hc _ IH]; [reflexivity|].
  cbn [concat length]. rewrite length_app.
  destruct (@json_escape_head c piece Hc) as (h & t & -> & _). cbn [length]. lia.
Qed.

(** A token spelled character by character reads back as the string. *)
Lemma json_string_value_escaped (f : str) (pieces : list str) :
  Forall2 json_escape f pieces ->
  Forall (fun c => is_name_char c = true) f ->
  json_string_value (quoted (concat pieces)) = Some f.
Proof.
  intros He Hf. unfold quoted, json_string_value. cbn [app N.eqb Pos.eqb].
  rewrite (@read_chars_escaped f pieces [] He Hf); [reflexivity|].
  rewrite length_app. cbn [length].
  pose proof (@json_escape_length f pieces He). lia.
Qed.

(** The token the encoder writes, character by character. *)
Lemma encode_pieces (f : str) :
  encode_basestring_ascii f = quoted (concat (map encode_char f)).
Proof.
  unfold encode_basestring_ascii, quoted. now rewrite flat_map_concat_map.
Qed.

Lemma encode_escaped (f : str) :
  Forall (fun c => (c < 1114112)%N) f ->
  Forall2 json_escape f (map encode_char f).
Proof.
  induction 1 as [|c f Hc _ IH]; cbn [map]; constructor;
    [now apply json_escape_encode | exact IH].
Qed.

Lemma name_chars_in_range (f : str) :
  Forall (fun c => is_name_char c = true) f ->
  Forall (fun c => (c < 1114112)%N) f.
Proof.
  intros H. eapply Forall_impl; [|exact H].
  intros c Hc. apply (@name_char_bounds c Hc).
Qed.

(** Reading back the front of an encoded text gives the character that
    was encoded and the rest. *)
Lemma read_encode_char (c : N) (rest : str) :
  is_name_char c = true ->
  read_char (encode_char c ++ rest) = Some (c, rest).
Proof.
  intros Hc. apply read_escaped; [|exact Hc].
  apply json_escape_encode. apply (@name_char_bounds c Hc).
Qed.

(* ===================================================================== *)
(** ** The paths of one iteration *)
(* ===================================================================== *)

Lemma basename_source_path (f : str) : basename (source_path f) = f.
Proof. apply basename_join. Qed.

Lemma loop_body_skip (f : str) :
  processed f = false -> loop_body f = ret tt.
Proof.
  unfold processed, loop_body. intros H. apply negb_false_iff in H.
  now rewrite H.
Qed.

Lemma loop_body_confined (f : str) : confined (body_event f) (loop_body f).
Proof.
  unfold loop_body.
  destruct (str_eqb (name_no_ext f) (lit "gaming")); [apply confined_ret|].
  apply confined_bind.
  { apply confined_makedirs. intros q Hq Hpre. left. now exists q. }
  intros _. apply confined_bind.
  { apply confined_copy. intros t Ht. rewrite basename_source_path in Ht.
    split; [|intros d]; right; (split; [reflexivity|]);
      cbn [event_path]; destruct Ht as [-> | ->]; auto. }
  intros _. apply confined_bind.
  { apply confined_open_w. intros _. right. split; [reflexivity|].
    cbn [event_path]. auto. }
  intros _. apply confined_json_dump. intros d. right.
  split; [reflexivity|]. cbn [event_path]. auto.
Qed.

(** An iteration that is not skipped and ends normally has done exactly
    this: made sure the container exists, copied the file, written the
    descriptor. *)
Lemma loop_body_ok (f : str) (w w' : world) :
  processed f = true ->
  loop_body f w = (Ok tt, w') ->
  exists w1 mk data,
    os_makedirs (imageset_dir f) w = (Ok tt, w1)
    /\ steps w mk w1
    /\ Forall (fun e => exists q, e = Mkdir q /\ q <> []
                                  /\ is_prefix q (imageset_dir f)) mk
    /\ node_at (disk w1) (imageset_dir f) = Some Dir
    /\ node_at (disk w1) (source_path f) = Some (File data)
    /\ let dst := copy_target (disk w1) (source_path f) (copy_path f) in
       steps w1 [Truncate dst; Append dst data;
                 Truncate (descriptor_path f);
                 Append (descriptor_path f) (descriptor f)] w'.
Proof.
  unfold processed, loop_body. intros Hp E.
  apply negb_true_iff in Hp. rewrite Hp in E.
  apply bind_ok in E. destruct E as ([] & w1 & Em & E).
  apply bind_ok in E. destruct E as (d & w2 & Ec & E).
  apply bind_ok in E. destruct E as ([] & w3 & Eo & E).
  apply json_dump_ok in E. destruct E as (bs & Hbs & Sd).
  rewrite descriptor_bytes in Hbs. injection Hbs as <-.
  apply open_w_ok in Eo. destruct Eo as (So & _ & _).
  apply copy_ok in Ec. destruct Ec as (-> & data & Hdata & Sc).
  pose proof (makedirs_ok _ _ Em) as Hdir.
  assert (Hc : confined
                 (fun e => exists q, e = Mkdir q /\ q <> []
                                     /\ is_prefix q (imageset_dir f))
                 (os_makedirs (imageset_dir f))).
  { apply confined_makedirs. intros q Hq Hpre. now exists q. }
  destruct (Hc _ _ _ Em) as (mk & Sm & Fm).
  exists w1, mk, data.
  split; [exact Em|]. split; [exact Sm|]. split; [exact Fm|].
  split; [exact Hdir|]. split; [exact Hdata|].
  exact (steps_app (steps_app Sc So) Sd).
Qed.

(* ===================================================================== *)
(** ** Where the script writes *)
(* ===================================================================== *)

Lemma length_source_dir : length source_dir = 11.
Proof. vm_compute. reflexivity. Qed.

Lemma length_dest_root : length dest_root = 11.
Proof. vm_compute. reflexivity. Qed.

Lemma source_dir_neq_dest_root : source_dir <> dest_root.
Proof. vm_compute. discriminate. Qed.

Lemma dest_side_not_source (p : path) :
  dest_side p -> ~ is_prefix source_dir p.
Proof.
  intros [[l Hl] | [l Hl]] [l' ->].
  - rewrite <- app_assoc in Hl.
    assert (E : dest_root ++ [] = source_dir ++ l' ++ l)
      by now rewrite app_nil_r.
    apply app_same_length_inv in E.
    + destruct E as [E _]. apply source_dir_neq_dest_root. symmetry.
      exact E.
    + rewrite length_source_dir, length_dest_root. reflexivity.
  - apply app_same_length_inv in Hl.
    + destruct Hl as [E _]. apply source_dir_neq_dest_root. exact E.
    + rewrite length_source_dir, length_dest_root. reflexivity.
Qed.

Lemma dest_side_dirname (p : path) :
  dest_side p -> dirname p <> source_dir.
Proof.
  intros Hd E. destruct p as [|c p].
  - simpl in E. pose proof length_source_dir as L. rewrite <- E in L.
    discriminate L.
  - apply (dest_side_not_source Hd). exists [last (c :: p) []].
    rewrite <- E. apply app_removelast_last. discriminate.
Qed.

Lemma dest_side_source_path (p : path) (l : path) :
  dest_side p -> p <> source_dir ++ l.
Proof. intros Hd ->. apply (dest_side_not_source Hd). now exists l. Qed.

Lemma length_imageset_dir (f : str) : length (imageset_dir f) = 12.
Proof.
  unfold imageset_dir, os_path_join.
  rewrite length_app, length_dest_root. reflexivity.
Qed.

Lemma length_copy_path (f : str) : length (copy_path f) = 13.
Proof.
  unfold copy_path, os_path_join.
  rewrite length_app, length_imageset_dir. reflexivity.
Qed.

Lemma length_nested_copy_path (f : str) : length (nested_copy_path f) = 14.
Proof.
  unfold nested_copy_path, os_path_join.
  rewrite length_app, length_copy_path. reflexivity.
Qed.

Lemma length_descriptor_path (f : str) : length (descriptor_path f) = 13.
Proof.
  unfold descriptor_path, os_path_join.
  rewrite length_app, length_imageset_dir. reflexivity.
Qed.

Lemma dest_root_prefix_imageset_dir (f : str) :
  is_prefix dest_root (imageset_dir f).
Proof. now exists [name_no_ext f ++ lit ".imageset"]. Qed.

Lemma root_event_dest_side (e : event) :
  root_event e -> dest_side (event_path e).
Proof. intros (q & -> & _ & Hq). now left. Qed.

Lemma body_event_dest_side (f : str) (e : event) :
  body_event f e -> dest_side (event_path e).
Proof.
  intros [(q & -> & _ & Hq) | (_ & [E | [E | E]])].
  - simpl. apply is_prefix_join in Hq. destruct Hq as [-> | Hq].
    + right. apply dest_root_prefix_imageset_dir.
    + now left.
  - rewrite E. right. eapply is_prefix_trans.
    + apply dest_root_prefix_imageset_dir.
    + now exists [f].
  - rewrite E. right. eapply is_prefix_trans.
    + apply dest_root_prefix_imageset_dir.
    + exists [f; f]. unfold nested_copy_path, copy_path, os_path_join.
      now rewrite <- app_assoc.
  - rewrite E. right. eapply is_prefix_trans.
    + apply dest_root_prefix_imageset_dir.
    + now exists [lit "Contents.json"].
Qed.

(** Directories are made at depth twelve at most; files are written
    deeper. *)
Lemma root_event_shape (e : event) :
  root_event e -> is_file_event e = false /\ length (event_path e) <= 11.
Proof.
  intros (q & -> & _ & Hq). split; [reflexivity|].
  simpl. rewrite <- length_dest_root. now apply is_prefix_length.
Qed.

Lemma body_event_shape (f : str) (e : event) :
  body_event f e ->
  (is_file_event e = false /\ length (event_path e) <= 12)
  \/ (is_file_event e = true /\ 13 <= length (event_path e)).
Proof.
  intros [(q & -> & _ & Hq) | (Hf & [E | [E | E]])].
  - left. split; [reflexivity|]. simpl.
    rewrite <- (length_imageset_dir f). now apply is_prefix_length.
  - right. split; [assumption|]. rewrite E, length_copy_path. lia.
  - right. split; [assumption|]. rewrite E, length_nested_copy_path. lia.
  - right. split; [assumption|]. rewrite E, length_descriptor_path. lia.
Qed.

(** Whatever the effects were, if all lie on the destination side, the
    source directory and everything in it are as before. *)
Lemma grows_source_kept (P : event -> Prop) (w w' : world) :
  (forall e, P e -> dest_side (event_path e)) ->
  grows P w w' ->
  children (disk w') source_dir = children (disk w) source_dir
  /\ forall l, node_at (disk w') (source_dir ++ l)
             = node_at (disk w) (source_dir ++ l).
Proof.
  intros HP (evs & (_ & D & _) & F). rewrite D. split.
  - apply children_replay_other. eapply Forall_impl; [|exact F].
    intros e He. now apply dest_side_dirname, HP.
  - intros l. apply node_at_replay_other. eapply Forall_impl; [|exact F].
    intros e He. now apply dest_side_source_path, HP.
Qed.

(* ===================================================================== *)
(** ** The loop and the whole run *)
(* ===================================================================== *)

Lemma loop_event_dest_side (l : list str) (e : event) :
  loop_event l e -> dest_side (event_path e).
Proof. intros (g & _ & _ & H). eapply body_event_dest_side, H. Qed.

Lemma main_event_dest_side (l : list str) (e : event) :
  main_event l e -> dest_side (event_path e).
Proof.
  intros [H | H];
    [now apply root_event_dest_side | eapply loop_event_dest_side, H].
Qed.

Lemma loop_confined (l : list str) :
  confined (loop_event l) (for_each l loop_body).
Proof.
  apply confined_for_each. intros g Hg.
  destruct (processed g) eqn:Hp.
  - eapply confined_weaken; [|apply loop_body_confined].
    intros e He. now exists g.
  - rewrite (loop_body_skip _ Hp). apply confined_ret.
Qed.

Lemma root_confined : confined root_event (os_makedirs dest_root).
Proof. apply confined_makedirs. intros q Hq Hpre. now exists q. Qed.

Lemma for_each_ok_split A (l1 l2 : list A) (x : A) (body : A -> M unit)
      (w w' : world) :
  for_each (l1 ++ x :: l2) body w = (Ok tt, w') ->
  exists w1 w2,
    for_each l1 body w = (Ok tt, w1)
    /\ body x w1 = (Ok tt, w2)
    /\ for_each l2 body w2 = (Ok tt, w').
Proof.
  rewrite for_each_app.
  destruct (for_each l1 body w) as [[[]|e] w1]; [|discriminate].
  simpl. intros E. apply bind_ok in E. destruct E as ([] & w2 & Eb & E).
  now exists w1, w2.
Qed.

Lemma in_last_split A (x : A) (l : list A) :
  (forall a b : A, {a = b} + {a <> b}) ->
  In x l -> exists l1 l2, l = l1 ++ x :: l2 /\ ~ In x l2.
Proof.
  intros dec. induction l as [|y l IH]; intros Hin; [contradiction|].
  destruct (in_dec dec x l) as [Hl | Hl].
  - destruct (IH Hl) as (l1 & l2 & -> & Hn). now exists (y :: l1), l2.
  - destruct Hin as [-> | Hin]; [|contradiction]. now exists [], l.
Qed.

Lemma entries_after_root (w wa : world) (r : result unit) :
  os_makedirs dest_root w = (r, wa) -> entries wa = entries w.
Proof.
  intros E. apply root_confined in E.
  eapply grows_source_kept in E; [apply E|].
  intros e. apply root_event_dest_side.
Qed.

Lemma main_outcome (w w' : world) (r : result unit) :
  main w = (r, w') -> outcome w r w'.
Proof.
  unfold main. intros E.
  apply bind_cases in E.
  destruct E as [([] & wa & Em & E) | (e & Em & ->)];
    [|eapply root_failed; [exact Em | reflexivity]].
  apply bind_cases in E.
  destruct E as [(l & wb & El & E) | (e & El & ->)];
    [|eapply listing_failed; [exact Em | exact El | reflexivity]].
  destruct (listdir_ok _ _ El) as (Sl & -> & _).
  fold (entries wa) in *. rewrite (entries_after_root _ Em) in *.
  fold (candidates w) in E.
  apply bind_cases in E.
  destruct E as [([] & wc & Ef & E) | (e & Ef & ->)];
    [|eapply loop_failed; [exact Em | exact El | exact Ef | reflexivity]].
  assert (r = Ok tt) by (unfold print in E; now injection E as <- _).
  subst r. eapply completed; [exact Em | exact El | exact Ef | exact E | reflexivity].
Qed.

(** A run that completed went through all four stages. *)
Ltac completed_run H wa wb wc Em El Ef Ep :=
  let Hr := fresh "Hr" in
  apply main_outcome in H;
  destruct H as [? _ Hr | ? ? _ _ Hr | ? ? ? _ _ _ Hr
                | wa wb wc Em El Ef Ep _];
  [discriminate Hr | discriminate Hr | discriminate Hr | ].

(** The disk effects of a run, however it ends. *)
Lemma main_effects (w w' : world) (r : result unit) :
  main w = (r, w') ->
  exists evs,
    journal w' = journal w ++ evs
    /\ disk w' = replay evs (disk w)
    /\ Forall (main_event (candidates w)) evs.
Proof.
  intros E. apply main_outcome in E.
  assert (Hroot : forall ra wa, os_makedirs dest_root w = (ra, wa) ->
                    grows (main_event (candidates w)) w wa).
  { intros ra wa Em. apply root_confined in Em.
    eapply grows_weaken; [|exact Em]. intros e He. now left. }
  assert (Hlist : forall rl wa wb,
             os_listdir source_dir wa = (rl, wb) ->
             grows (main_event (candidates w)) wa wb).
  { intros rl wa wb El.
    exact (@confined_listdir (main_event (candidates w)) source_dir
             _ _ _ El). }
  assert (Hloop : forall rf wb wc,
             for_each (candidates w) loop_body wb = (rf, wc) ->
             grows (main_event (candidates w)) wb wc).
  { intros rf wb wc Ef. apply loop_confined in Ef.
    eapply grows_weaken; [|exact Ef]. intros e He. now right. }
  assert (Hout : forall wz, grows (main_event (candidates w)) w wz ->
            exists evs, journal wz = journal w ++ evs
                        /\ disk wz = replay evs (disk w)
                        /\ Forall (main_event (candidates w)) evs).
  { intros wz (evs & (J & D & _) & F). now exists evs. }
  destruct E as [e Em _ | wa e Em El _ | wa wb e Em El Ef _
                | wa wb wc Em El Ef Ep _].
  - eapply Hout, Hroot, Em.
  - eapply Hout, grows_trans; [eapply Hroot, Em | eapply Hlist, El].
  - eapply Hout, grows_trans; [eapply Hroot, Em|].
    eapply grows_trans; [eapply Hlist, El | eapply Hloop, Ef].
  - assert (G : grows (main_event (candidates w)) w wc).
    { eapply grows_trans; [eapply Hroot, Em|].
      eapply grows_trans; [eapply Hlist, El | eapply Hloop, Ef]. }
    unfold print in Ep. injection Ep as <-. simpl.
    now apply Hout.
Qed.

(** *** One iteration, on the disk *)

Lemma node_at_written (p : path) (data : bytes) (s : store) :
  p <> [] ->
  node_at (replay [Truncate p; Append p data] s) p = Some (File data).
Proof.
  intros Hp. unfold replay. simpl.
  rewrite node_at_put_same by assumption.
  now apply node_at_put_same.
Qed.

Lemma copy_target_cases (s : store) (f : str) :
  copy_target s (source_path f) (copy_path f) = copy_path f
  \/ copy_target s (source_path f) (copy_path f) = nested_copy_path f.
Proof.
  unfold copy_target. rewrite basename_source_path.
  destruct (node_at s (copy_path f)) as [[d|]|]; auto.
Qed.

Lemma path_length_neq (p q : path) : length p <> length q -> p <> q.
Proof. intros H ->. now apply H. Qed.

Lemma copy_target_not_descriptor (s : store) (f : str) :
  f <> lit "Contents.json" ->
  copy_target s (source_path f) (copy_path f) <> descriptor_path f.
Proof.
  intros Hf. destruct (copy_target_cases s f) as [-> | ->].
  - unfold copy_path, descriptor_path. intros E.
    apply join_inj in E. now destruct E.
  - apply path_length_neq.
    rewrite length_nested_copy_path, length_descriptor_path. lia.
Qed.

Lemma copy_target_not_nil (s : store) (f : str) :
  copy_target s (source_path f) (copy_path f) <> [].
Proof.
  destruct (copy_target_cases s f) as [-> | ->]; apply join_not_nil.
Qed.

Lemma copy_target_length (s : store) (f : str) :
  13 <= length (copy_target s (source_path f) (copy_path f)).
Proof.
  destruct (copy_target_cases s f) as [-> | ->];
    rewrite ?length_copy_path, ?length_nested_copy_path; lia.
Qed.

(** Everything an iteration that ends normally has done, stated on the
    world it started from. *)
Lemma iteration_ok (f : str) (w w' : world) :
  processed f = true ->
  loop_body f w = (Ok tt, w') ->
  exists mk data,
    let dst := copy_target (disk w) (source_path f) (copy_path f) in
    steps w (mk ++ [Truncate dst; Append dst data;
                    Truncate (descriptor_path f);
                    Append (descriptor_path f) (descriptor f)]) w'
    /\ Forall (fun e => exists q, e = Mkdir q /\ q <> []
                                  /\ is_prefix q (imageset_dir f)) mk
    /\ node_at (disk w) (source_path f) = Some (File data)
    /\ node_at (disk w') (imageset_dir f) = Some Dir
    /\ node_at (disk w') (descriptor_path f) = Some (File (descriptor f))
    /\ (f <> lit "Contents.json" -> node_at (disk w') dst = Some (File data)).
Proof.
  intros Hp E.
  destruct (@loop_body_ok f w w' Hp E)
    as (w1 & mk & data & Em & Sm & Fm & Hdir & Hdata & S).
  exists mk, data. cbv zeta in S |- *.
  assert (Hcp : node_at (disk w1) (copy_path f) = node_at (disk w) (copy_path f)).
  { destruct Sm as (_ & -> & _). apply node_at_replay_other.
    eapply Forall_impl; [|exact Fm]. intros e (q & -> & _ & Hq). simpl.
    apply path_length_neq. apply is_prefix_length in Hq.
    rewrite length_imageset_dir in Hq. rewrite length_copy_path. lia. }
  assert (Hsrc : node_at (disk w1) (source_path f)
                 = node_at (disk w) (source_path f)).
  { assert (G : grows (body_event f) w w1).
    { exists mk. split; [exact Sm|]. eapply Forall_impl; [|exact Fm].
      intros e He. now left. }
    eapply grows_source_kept in G; [apply G|].
    intros e. apply body_event_dest_side. }
  assert (Ht : copy_target (disk w1) (source_path f) (copy_path f)
               = copy_target (disk w) (source_path f) (copy_path f)).
  { unfold copy_target. now rewrite Hcp. }
  rewrite Ht in S. rewrite Hsrc in Hdata.
  set (dst := copy_target (disk w) (source_path f) (copy_path f)) in *.
  split; [exact (steps_app Sm S)|]. split; [exact Fm|].
  split; [exact Hdata|].
  destruct S as (_ & D & _). rewrite D.
  split; [|split].
  - apply dir_replay; [exact Hdir|].
    pose proof (copy_target_length (disk w) f) as L. fold dst in L.
    repeat constructor; intros _; cbn [event_path];
      apply path_length_neq;
      rewrite ?length_descriptor_path, length_imageset_dir; lia.
  - change [Truncate dst; Append dst data; Truncate (descriptor_path f);
            Append (descriptor_path f) (descriptor f)]
      with ([Truncate dst; Append dst data]
              ++ [Truncate (descriptor_path f);
                  Append (descriptor_path f) (descriptor f)]).
    rewrite replay_app. apply node_at_written, join_not_nil.
  - intros Hf.
    change [Truncate dst; Append dst data; Truncate (descriptor_path f);
            Append (descriptor_path f) (descriptor f)]
      with ([Truncate dst; Append dst data]
              ++ [Truncate (descriptor_path f);
                  Append (descriptor_path f) (descriptor f)]).
    rewrite replay_app, node_at_replay_other.
    + apply node_at_written, copy_target_not_nil.
    + pose proof (@copy_target_not_descriptor (disk w) f Hf) as Hn.
      fold dst in Hn. repeat constructor; cbn [event_path]; congruence.
Qed.

Lemma candidate_not_contents (f : str) :
  endswith f (lit ".png") = true -> f <> lit "Contents.json".
Proof. intros H ->. vm_compute in H. discriminate H. Qed.

Lemma candidates_png (w : world) (f : str) :
  In f (candidates w) -> endswith f (lit ".png") = true.
Proof. unfold candidates, png_files. intros H. now apply filter_In in H. Qed.

Lemma grows_journal (P : event -> Prop) (w w' : world) :
  grows P w w' -> exists evs, journal w' = journal w ++ evs.
Proof. intros (evs & (J & _) & _). now exists evs. Qed.

(* ===================================================================== *)
(** ** Sample disks *)
(* ===================================================================== *)

Lemma three_icons_run : main three_icons = (Ok tt, three_icons_done).
Proof. vm_compute. reflexivity. Qed.

(* ===================================================================== *)
(** ** The properties of the script *)
(* ===================================================================== *)

(** C1. For every processed candidate [f] of a run that completes, the
    document handed to [json.dump] has the key [images] with one object
    ([filename] is [f], [idiom] is [universal], [scale] is [1x]) and the
    key [info] ([author] is [xcode], [version] is 1); its serialization
    with an indentation of two spaces is the text [descriptor f], plain
    ASCII and therefore its own UTF-8 encoding.  That text is the lines
    of the format with, on the [filename] line, a token that is plain
    ASCII; that spells [f] character by character as [ensure_ascii]
    prescribes, lower-case hexadecimal digits whose value is the code of
    the character; that is [f] between quotation marks when [f] is made
    of printable ASCII characters other than the quotation mark and the
    backslash; and that a reader of JSON strings reads back as [f] when
    [f] holds no high surrogate, as the names of a listing do.  The
    iteration for [f] writes exactly these bytes to [Contents.json] in
    the container of [f], right after emptying that file, so that the
    file holds them when the iteration ends. *)
Theorem descriptor_written (w w' : world) (f : str) :
  main w = (Ok tt, w') ->
  In f (candidates w) ->
  processed f = true ->
  get_1x_contents_json f
  = JDict [ (lit "images",
             JList [ JDict [ (lit "filename", JStr f);
                             (lit "idiom", JStr (lit "universal"));
                             (lit "scale", JStr (lit "1x")) ] ]);
            (lit "info",
             JDict [ (lit "author", JStr (lit "xcode"));
                     (lit "version", JInt 1) ]) ]
  /\ dumps (get_1x_contents_json f) 2 = descriptor f
  /\ Codec.utf8 (descriptor f) = Some (descriptor f)
  /\ (exists tok,
        descriptor f = join_lines (descriptor_lines tok)
        /\ Forall is_ascii tok
        /\ (Forall (fun c => (c < 1114112)%N) f ->
            exists pieces,
              Forall2 json_escape f pieces /\ tok = quoted (concat pieces))
        /\ (Forall (fun c => (32 <= c)%N /\ (c <= 126)%N
                             /\ c <> 34%N /\ c <> 92%N) f ->
            tok = quoted f)
        /\ (Forall (fun c => is_name_char c = true) f ->
            json_string_value tok = Some f))
  /\ exists l1 l2 w1 w2 before after,
       candidates w = l1 ++ f :: l2
       /\ loop_body f w1 = (Ok tt, w2)
       /\ journal w2
          = journal w ++ before
              ++ [Truncate (descriptor_path f);
                  Append (descriptor_path f) (descriptor f)]
       /\ journal w' = journal w2 ++ after
       /\ node_at (disk w2) (descriptor_path f)
          = Some (File (descriptor f)).
Proof.
  intros Hrun Hin Hp.
  split; [reflexivity|]. split; [apply dumps_get_1x|].
  split; [apply utf8_ascii, descriptor_ascii|].
  split.
  { exists (encode_basestring_ascii f). split; [reflexivity|].
    split; [apply encode_basestring_ascii_ascii|]. split; [|split].
    - intros Hf. exists (map encode_char f).
      split; [now apply encode_escaped | apply encode_pieces].
    - intros Hf. apply encode_plain. eapply Forall_impl; [|exact Hf].
      intros c (H32 & H126 & N34 & N92). unfold needs_escape.
      apply N.eqb_neq in N34, N92. rewrite N34, N92. cbn [orb].
      apply orb_false_iff. split; [now apply N.ltb_ge|].
      now apply N.ltb_ge.
    - intros Hf. rewrite encode_pieces.
      apply json_string_value_escaped; [|exact Hf].
      now apply encode_escaped, name_chars_in_range. }
  completed_run Hrun wa wb wc Em El Ef Ep.
  destruct (in_split _ _ Hin) as (l1 & l2 & Hsplit).
  rewrite Hsplit in Ef.
  destruct (for_each_ok_split _ _ _ _ _ Ef) as (w1 & w2 & E1 & Eb & E2).
  destruct (@iteration_ok f w1 w2 Hp Eb)
    as (mk & data & S & _ & _ & _ & Hd & _).
  cbv zeta in S.
  destruct (grows_journal (root_confined _ Em)) as (ja & Ja).
  destruct (grows_journal (@confined_listdir (fun _ => True) source_dir
                             _ _ _ El)) as (jb & Jb).
  destruct (grows_journal (loop_confined _ _ E1)) as (j1 & J1).
  destruct (grows_journal (loop_confined _ _ E2)) as (j2 & J2).
  destruct S as (J & _).
  set (dst := copy_target (disk w1) (source_path f) (copy_path f)) in *.
  exists l1, l2, w1, w2,
    (ja ++ jb ++ j1 ++ mk ++ [Truncate dst; Append dst data]), j2.
  split; [exact Hsplit|]. split; [exact Eb|]. split; [|split].
  - rewrite J, J1, Jb, Ja. rewrite <- !app_assoc. reflexivity.
  - unfold print in Ep. injection Ep as <-. simpl. exact J2.
  - exact Hd.
Qed.

Lemma descriptor_written_witness :
  main accented_icon = (Ok tt, snd (main accented_icon))
  /\ In [252; 46; 112; 110; 103]%N (candidates accented_icon)
  /\ processed [252; 46; 112; 110; 103]%N = true
  /\ node_at (disk (snd (main accented_icon)))
             (descriptor_path [252; 46; 112; 110; 103]%N)
     = Some (File (join_lines (descriptor_lines (quoted (lit "\u00fc.png")))))
  /\ exists tok,
       descriptor [252; 46; 112; 110; 103]%N
       = join_lines (descriptor_lines tok)
       /\ json_string_value tok = Some [252; 46; 112; 110; 103]%N.
Proof.
  assert (Hrun : main accented_icon = (Ok tt, snd (main accented_icon)))
    by (vm_compute; reflexivity).
  assert (Hin : In [252; 46; 112; 110; 103]%N (candidates accented_icon))
    by (vm_compute; auto).
  split; [exact Hrun|]. split; [exact Hin|]. split; [reflexivity|].
  split; [vm_compute; reflexivity|].
  destruct (@descriptor_written accented_icon (snd (main accented_icon))
              [252; 46; 112; 110; 103]%N Hrun Hin eq_refl)
    as (_ & _ & _ & (tok & Hd & _ & _ & _ & Hread) & _).
  exists tok. split; [exact Hd|]. apply Hread. repeat constructor.
Defined.

(** An effect of an iteration at depth thirteen is at the copy or at the
    descriptor. *)
Lemma body_event_at_depth_13 (g : str) (e : event) :
  body_event g e ->
  length (event_path e) = 13 ->
  is_file_event e = true
  /\ (event_path e = copy_path g \/ event_path e = descriptor_path g).
Proof.
  intros [(q & -> & _ & Hq) | (Hf & [E | [E | E]])] L.
  - simpl in L. apply is_prefix_length in Hq.
    rewrite length_imageset_dir in Hq. lia.
  - auto.
  - rewrite E, length_nested_copy_path in L. discriminate L.
  - auto.
Qed.

Lemma copy_path_inj (f g : str) : copy_path g = copy_path f -> g = f.
Proof. unfold copy_path. intros E. now apply join_inj in E. Qed.

Lemma descriptor_path_inj (f g : str) :
  descriptor_path g = descriptor_path f -> imageset_dir g = imageset_dir f.
Proof. unfold descriptor_path. intros E. now apply join_inj in E. Qed.

Lemma copy_path_not_descriptor (f g : str) :
  f <> lit "Contents.json" -> copy_path f <> descriptor_path g.
Proof.
  unfold copy_path, descriptor_path. intros Hf E.
  apply join_inj in E. now destruct E.
Qed.

(** The effects of the whole run leave the copy of [f] alone once no
    iteration for [f] is left. *)
Lemma loop_keeps_copy (l : list str) (f : str) (w w' : world)
      (r : result unit) :
  for_each l loop_body w = (r, w') ->
  ~ In f l ->
  f <> lit "Contents.json" ->
  node_at (disk w') (copy_path f) = node_at (disk w) (copy_path f).
Proof.
  intros E Hnin Hf. apply loop_confined in E.
  destruct E as (evs & (_ & -> & _) & F).
  apply node_at_replay_other. eapply Forall_impl; [|exact F].
  intros e (g & Hg & _ & He) Hpath.
  destruct (body_event_at_depth_13 He) as (_ & [E | E]).
  - now rewrite Hpath, length_copy_path.
  - rewrite Hpath in E. symmetry in E. apply copy_path_inj in E.
    subst g. contradiction.
  - rewrite Hpath in E. exact (@copy_path_not_descriptor f g Hf E).
Qed.

Lemma loop_keeps_descriptor (l : list str) (p : path) (w w' : world)
      (r : result unit) :
  for_each l loop_body w = (r, w') ->
  length p = 13 ->
  (forall g, In g l -> processed g = true ->
             copy_path g <> p /\ descriptor_path g <> p) ->
  node_at (disk w') p = node_at (disk w) p.
Proof.
  intros E L Hl. apply loop_confined in E.
  destruct E as (evs & (_ & -> & _) & F).
  apply node_at_replay_other. eapply Forall_impl; [|exact F].
  intros e (g & Hg & Hp & He) Hpath.
  destruct (body_event_at_depth_13 He) as (_ & [E | E]).
  - now rewrite Hpath.
  - destruct (Hl g Hg Hp) as [H1 _]. congruence.
  - destruct (Hl g Hg Hp) as [_ H2]. congruence.
Qed.

Lemma loop_keeps_dir (l : list str) (p : path) (w w' : world)
      (r : result unit) :
  for_each l loop_body w = (r, w') ->
  length p <= 12 ->
  node_at (disk w) p = Some Dir -> node_at (disk w') p = Some Dir.
Proof.
  intros E L Hdir. apply loop_confined in E.
  destruct E as (evs & (_ & -> & _) & F).
  apply dir_replay; [exact Hdir|]. eapply Forall_impl; [|exact F].
  intros e (g & _ & _ & He) Hfile.
  destruct (body_event_shape He) as [(Hf & _) | (_ & L')].
  - congruence.
  - apply path_length_neq. lia.
Qed.

(** The effects of a run never make a directory at depth thirteen. *)
Lemma main_event_not_deep_mkdir (l : list str) (e : event) (p : path) :
  main_event l e -> 13 <= length p -> e <> Mkdir p.
Proof.
  intros [He | (g & _ & _ & He)] L ->.
  - apply root_event_shape in He. simpl in He. lia.
  - apply body_event_shape in He. simpl in He.
    destruct He as [(_ & He) | (He & _)]; [lia | discriminate].
Qed.

(** The world in which an iteration starts, seen from the start of the
    run. *)
Lemma reach (w wa wb w1 : world) (l l1 : list str) (r1 : result unit) :
  os_makedirs dest_root w = (Ok tt, wa) ->
  os_listdir source_dir wa = (Ok l, wb) ->
  for_each l1 loop_body wb = (r1, w1) ->
  grows (main_event l1) w w1.
Proof.
  intros Em El E1.
  eapply grows_trans.
  { eapply grows_weaken; [|exact (root_confined _ Em)].
    intros e He. now left. }
  eapply grows_trans.
  { exact (@confined_listdir (main_event l1) source_dir _ _ _ El). }
  eapply grows_weaken; [|exact (loop_confined _ _ E1)].
  intros e He. now right.
Qed.

Lemma reach_source (w w1 : world) (l1 : list str) (f : str) :
  grows (main_event l1) w w1 ->
  node_at (disk w1) (source_path f) = node_at (disk w) (source_path f).
Proof.
  intros G. eapply grows_source_kept in G.
  - destruct G as [_ G]. apply (G [f]).
  - intros e. apply main_event_dest_side.
Qed.

Lemma reach_not_dir (w w1 : world) (l1 : list str) (p : path) :
  grows (main_event l1) w w1 ->
  13 <= length p ->
  node_at (disk w) p <> Some Dir -> node_at (disk w1) p <> Some Dir.
Proof.
  intros (evs & (_ & -> & _) & F) L Hnd.
  apply not_dir_replay; [exact Hnd|]. eapply Forall_impl; [|exact F].
  intros e He. eapply main_event_not_deep_mkdir; eassumption.
Qed.

Lemma processed_iff (f : str) :
  processed f = true <-> name_no_ext f <> lit "gaming".
Proof.
  unfold processed. rewrite negb_true_iff. apply str_eqb_neq.
Qed.

Lemma dotted_icons_run : main dotted_icons = (Ok tt, dotted_icons_done).
Proof. vm_compute. reflexivity. Qed.

(** C2 fails as stated: [.png] and [.png.png] have the same base name
    [.png], so they share the container [.png.imageset]; the run
    completes, and the descriptor left there names [.png.png], not
    [.png]. *)
Lemma imported_as_stated_fails : ~ imported_as_stated dotted_icons.
Proof.
  intros H.
  destruct (H (lit ".png") _ _ dotted_icons_run) as (_ & _ & Hd).
  - vm_compute. auto.
  - reflexivity.
  - vm_compute. discriminate.
  - vm_compute in Hd. discriminate Hd.
Qed.

(** In a run that completes, the last iteration for a processed candidate
    [f]: what it found, what it left, and the rest of the loop. *)
Lemma last_iteration (w w' : world) (f : str) :
  main w = (Ok tt, w') ->
  In f (candidates w) ->
  processed f = true ->
  exists l1 l2 w1 w2 wc data,
    candidates w = l1 ++ f :: l2
    /\ ~ In f l2
    /\ loop_body f w1 = (Ok tt, w2)
    /\ for_each l2 loop_body w2 = (Ok tt, wc)
    /\ disk w' = disk wc
    /\ node_at (disk w) (source_path f) = Some (File data)
    /\ node_at (disk w2) (imageset_dir f) = Some Dir
    /\ node_at (disk w2) (descriptor_path f) = Some (File (descriptor f))
    /\ (node_at (disk w) (copy_path f) <> Some Dir ->
        node_at (disk w2) (copy_path f) = Some (File data)).
Proof.
  intros Hrun Hc Hp.
  pose proof (candidate_not_contents (candidates_png _ _ Hc)) as Hnc.
  completed_run Hrun wa wb wc Em El Ef Ep.
  assert (Hdisk : disk w' = disk wc)
    by (unfold print in Ep; now injection Ep as <-).
  destruct (@in_last_split str f (candidates w) (list_eq_dec N.eq_dec) Hc)
    as (l1 & l2 & Hsplit & Hlast).
  rewrite Hsplit in Ef.
  destruct (for_each_ok_split _ _ _ _ _ Ef) as (w1 & w2 & E1 & Eb & E2).
  assert (G : grows (main_event l1) w w1)
    by (eapply reach; eassumption).
  destruct (@iteration_ok f w1 w2 Hp Eb)
    as (mk & data & _ & _ & Hdata & Hdir & Hd & Hcopy).
  cbv zeta in Hcopy. specialize (Hcopy Hnc).
  rewrite (@reach_source w w1 l1 f G) in Hdata.
  exists l1, l2, w1, w2, wc, data.
  repeat (split; [assumption|]).
  intros Hnd.
  assert (Hnd1 : node_at (disk w1) (copy_path f) <> Some Dir).
  { eapply reach_not_dir; [exact G | | exact Hnd].
    rewrite length_copy_path. lia. }
  unfold copy_target in Hcopy.
  destruct (node_at (disk w1) (copy_path f)) as [[d|]|];
    try exact Hcopy.
  now elim Hnd1.
Qed.

(** C2, amended.  When the run completes, every entry [f] that ends with
    [.png] and whose base name is not the excluded one has its container
    [<base-name>.imageset] under the destination root; unless a directory
    stood in the way before the run, the container holds a file named [f]
    with the bytes of the source file; and when no other processed
    candidate has the same base name, the container's [Contents.json] is
    the descriptor of [f]. *)
Theorem imported (w w' : world) (f : str) :
  main w = (Ok tt, w') ->
  In f (entries w) ->
  endswith f (lit ".png") = true ->
  name_no_ext f <> lit "gaming" ->
  node_at (disk w') (imageset_dir f) = Some Dir
  /\ (node_at (disk w) (copy_path f) <> Some Dir ->
      exists data,
        node_at (disk w) (source_path f) = Some (File data)
        /\ node_at (disk w') (copy_path f) = Some (File data))
  /\ ((forall g, In g (candidates w) -> processed g = true ->
                 imageset_dir g = imageset_dir f -> g = f) ->
      node_at (disk w') (descriptor_path f) = Some (File (descriptor f))).
Proof.
  intros Hrun Hin Hpng Hbase.
  assert (Hp : processed f = true) by now apply processed_iff.
  assert (Hc : In f (candidates w)).
  { unfold candidates, png_files. apply filter_In. now split. }
  pose proof (candidate_not_contents Hpng) as Hnc.
  destruct (@last_iteration w w' f Hrun Hc Hp)
    as (l1 & l2 & w1 & w2 & wc & data & Hsplit & Hlast & Eb & E2 & ->
        & Hdata & Hdir & Hd & Hcopy).
  split; [|split].
  - eapply loop_keeps_dir; [exact E2 | | exact Hdir].
    rewrite length_imageset_dir. lia.
  - intros Hnd. exists data. split; [exact Hdata|].
    rewrite (@loop_keeps_copy l2 f w2 wc (Ok tt) E2 Hlast Hnc).
    exact (Hcopy Hnd).
  - intros Huniq.
    rewrite (@loop_keeps_descriptor l2 (descriptor_path f) w2 wc (Ok tt) E2).
    + exact Hd.
    + apply length_descriptor_path.
    + intros g Hg Hpg.
      assert (Hgc : In g (candidates w)).
      { rewrite Hsplit. apply in_or_app. right. now right. }
      split.
      * apply copy_path_not_descriptor.
        apply candidate_not_contents. eapply candidates_png, Hgc.
      * intros E. apply descriptor_path_inj in E.
        apply (Huniq g Hgc Hpg) in E. subst g. contradiction.
Qed.

Lemma imported_witness :
  main three_icons = (Ok tt, three_icons_done)
  /\ In (lit "music.png") (entries three_icons)
  /\ endswith (lit "music.png") (lit ".png") = true
  /\ name_no_ext (lit "music.png") <> lit "gaming"
  /\ node_at (disk three_icons_done) (imageset_dir (lit "music.png"))
     = Some Dir
  /\ node_at (disk three_icons_done) (copy_path (lit "music.png"))
     = Some (File [137; 80; 78; 71; 13]%N)
  /\ node_at (disk three_icons_done) (descriptor_path (lit "music.png"))
     = Some (File (descriptor (lit "music.png"))).
Proof.
  assert (Hin : In (lit "music.png") (entries three_icons))
    by (vm_compute; auto).
  assert (Hbase : name_no_ext (lit "music.png") <> lit "gaming")
    by (vm_compute; discriminate).
  destruct (@imported three_icons three_icons_done (lit "music.png")
              three_icons_run Hin eq_refl Hbase) as (Hdir & Hcopy & Hdesc).
  split; [exact three_icons_run|]. split; [exact Hin|].
  split; [reflexivity|]. split; [exact Hbase|]. split; [exact Hdir|].
  split.
  - destruct Hcopy as (data & Hsrc & Hdst); [vm_compute; discriminate|].
    vm_compute in Hsrc. injection Hsrc as <-. exact Hdst.
  - apply Hdesc. intros g Hg. vm_compute in Hg.
    destruct Hg as [<- | [<- | [<- | []]]]; intros Hp E.
    + vm_compute in E. discriminate E.
    + reflexivity.
    + vm_compute in Hp. discriminate Hp.
Defined.

(* --------------------------------------------------------------------- *)
(** *** The excluded name *)

Lemma length_gaming_imageset : length gaming_imageset = 12.
Proof.
  unfold gaming_imageset, os_path_join.
  rewrite length_app, length_dest_root. reflexivity.
Qed.

Lemma imageset_dir_not_gaming (g : str) (l : path) :
  processed g = true -> ~ is_prefix gaming_imageset (imageset_dir g ++ l).
Proof.
  intros Hp [l' E]. apply app_same_length_inv in E.
  - destruct E as [E _]. unfold imageset_dir, gaming_imageset in E.
    apply join_inj in E. destruct E as [_ E].
    change (lit "gaming.imageset") with (lit "gaming" ++ lit ".imageset") in E.
    apply app_inv_tail in E. now apply processed_iff in Hp.
  - now rewrite length_imageset_dir, length_gaming_imageset.
Qed.

Lemma imageset_name_not_gaming_png (x : str) :
  x ++ lit ".imageset" <> lit "gaming.png".
Proof.
  intros E. apply (f_equal (fun s => last s 0%N)) in E.
  change (lit ".imageset") with (lit ".imagese" ++ [116%N]) in E.
  rewrite app_assoc, last_last in E. vm_compute in E. discriminate E.
Qed.

Lemma basename_in (q p : path) :
  q <> [] -> is_prefix q p -> In (basename q) p.
Proof.
  intros Hq [l ->]. apply in_or_app. left.
  unfold basename. destruct (exists_last Hq) as (q' & c & ->).
  rewrite last_last. apply in_or_app. right. now left.
Qed.

Lemma gaming_png_not_in_dest_root : ~ In (lit "gaming.png") dest_root.
Proof.
  vm_compute. intros H.
  repeat (destruct H as [H | H]; [discriminate H|]). exact H.
Qed.

Lemma root_path_not_gaming (q : path) :
  q <> [] -> is_prefix q dest_root -> ~ gaming_place q.
Proof.
  intros Hq Hpre [H | H].
  - apply is_prefix_length in H, Hpre.
    rewrite length_gaming_imageset in H. rewrite length_dest_root in Hpre.
    lia.
  - apply gaming_png_not_in_dest_root. rewrite <- H.
    now apply basename_in.
Qed.

Lemma processed_not_gaming_png (g : str) :
  processed g = true -> g <> lit "gaming.png".
Proof. intros Hp ->. vm_compute in Hp. discriminate Hp. Qed.

(** No effect of a run is at a place of the excluded icon. *)
Lemma main_event_not_gaming (l : list str) (e : event) :
  main_event l e -> ~ gaming_place (event_path e).
Proof.
  intros [(q & -> & Hq & Hpre) | (g & _ & Hp & He)].
  - now apply root_path_not_gaming.
  - destruct He as [(q & -> & Hq & Hpre) | (_ & [E | [E | E]])].
    + simpl. apply is_prefix_join in Hpre. destruct Hpre as [-> | Hpre].
      * intros [H | H].
        -- apply (@imageset_dir_not_gaming g [] Hp).
           now rewrite app_nil_r.
        -- unfold imageset_dir in H. rewrite basename_join in H.
           now apply imageset_name_not_gaming_png in H.
      * now apply root_path_not_gaming.
    + rewrite E. intros [H | H].
      * now apply (@imageset_dir_not_gaming g [g] Hp).
      * unfold copy_path in H. rewrite basename_join in H.
        now apply (processed_not_gaming_png Hp).
    + rewrite E. intros [H | H].
      * apply (@imageset_dir_not_gaming g [g; g] Hp).
        unfold nested_copy_path, copy_path, os_path_join in H.
        now rewrite <- app_assoc in H.
      * unfold nested_copy_path in H. rewrite basename_join in H.
        now apply (processed_not_gaming_png Hp).
    + rewrite E. intros [H | H].
      * now apply (@imageset_dir_not_gaming g [lit "Contents.json"] Hp).
      * unfold descriptor_path in H. rewrite basename_join in H.
        vm_compute in H. discriminate H.
Qed.

(** The loop does for the candidates what it does for the candidates
    other than [gaming.png]. *)
Lemma loop_without_gaming (l : list str) (w : world) :
  Forall (fun f => endswith f (lit ".png") = true) l ->
  for_each l loop_body w
  = for_each (filter (fun f => negb (str_eqb f (lit "gaming.png"))) l)
             loop_body w.
Proof.
  intros H. revert w. induction H as [|f l Hf _ IH]; intros w.
  - reflexivity.
  - cbn [filter for_each].
    destruct (str_eqb f (lit "gaming.png")) eqn:E; cbn [negb for_each].
    + apply str_eqb_eq in E. subst f. apply IH.
    + unfold bind. destruct (loop_body f w) as [[[]|e] w1];
        [apply IH | reflexivity].
Qed.

(** C3. Whatever the source directory holds and however the run ends,
    the iteration for [gaming.png] does nothing; no effect of the run is
    at [gaming.imageset], inside it, or at a file named [gaming.png], so
    that no such container is created, no copy made and no descriptor
    written, and the disk is at these places as it was; and the loop
    treats the other candidates as it would without [gaming.png]. *)
Theorem gaming_skipped (w w' : world) (r : result unit) :
  main w = (r, w') ->
  loop_body (lit "gaming.png") w = (Ok tt, w)
  /\ (exists evs,
        journal w' = journal w ++ evs
        /\ disk w' = replay evs (disk w)
        /\ Forall (fun e => ~ gaming_place (event_path e)) evs)
  /\ (forall p, gaming_place p -> node_at (disk w') p = node_at (disk w) p)
  /\ (forall w0,
        for_each (candidates w) loop_body w0
        = for_each (filter (fun f => negb (str_eqb f (lit "gaming.png")))
                           (candidates w))
                   loop_body w0).
Proof.
  intros Hrun. split; [reflexivity|].
  destruct (@main_effects w w' r Hrun) as (evs & J & D & F).
  assert (F' : Forall (fun e => ~ gaming_place (event_path e)) evs).
  { eapply Forall_impl; [|exact F]. intros e. apply main_event_not_gaming. }
  split; [now exists evs|]. split.
  - intros p Hp. rewrite D. apply node_at_replay_other.
    eapply Forall_impl; [|exact F']. intros e He E. apply He.
    now rewrite E.
  - intros w0. apply loop_without_gaming. apply Forall_forall.
    intros f. apply candidates_png.
Qed.

Lemma gaming_skipped_witness :
  main three_icons = (Ok tt, three_icons_done)
  /\ In (lit "gaming.png") (candidates three_icons)
  /\ node_at (disk three_icons_done) gaming_imageset = None.
Proof.
  split; [exact three_icons_run|]. split; [vm_compute; auto|].
  destruct (@gaming_skipped three_icons three_icons_done (Ok tt)
              three_icons_run) as (_ & _ & H & _).
  rewrite H.
  - vm_compute. reflexivity.
  - left. apply is_prefix_refl.
Defined.

(* --------------------------------------------------------------------- *)
(** *** The summary *)




(* --------------------------------------------------------------------- *)
(** *** A missing source directory *)

Lemma listdir_missing (p : path) (w : world) :
  node_at (disk w) p = None ->
  exists e w',
    os_listdir p w = (Raise e, w')
    /\ (e = FileNotFoundError \/ e = OSError_)
    /\ steps w [] w'.
Proof.
  intros Hp. unfold os_listdir, bind, fallible, bind, syscall.
  destruct (faults w (clock w)) as [k|]; simpl.
  - eexists _, _. split; [reflexivity|]. split; [now right|].
    unfold steps. simpl. now rewrite app_nil_r.
  - unfold get_disk. simpl. rewrite Hp.
    eexists _, _. split; [reflexivity|]. split; [now left|].
    unfold steps. simpl. now rewrite app_nil_r.
Qed.

(** C5. When the source directory does not exist, the run raises: either
    already while ensuring the destination root, or, once that has
    succeeded, when listing the source directory ([FileNotFoundError], or
    the error of a failed system call).  Nothing is printed, and the only
    effects are directories made on the way to the destination root and
    the root itself: nothing at the depth of a container or below is
    created or changed. *)
Theorem missing_source_aborts (w : world) :
  node_at (disk w) source_dir = None ->
  exists e w',
    main w = (Raise e, w')
    /\ stdout w' = stdout w
    /\ (exists evs,
          journal w' = journal w ++ evs
          /\ disk w' = replay evs (disk w)
          /\ Forall root_event evs)
    /\ (forall p, 12 <= length p ->
                  node_at (disk w') p = node_at (disk w) p)
    /\ (forall wa, os_makedirs dest_root w = (Ok tt, wa) ->
          os_listdir source_dir wa = (Raise e, w')
          /\ (e = FileNotFoundError \/ e = OSError_)).
Proof.
  intros Hmiss.
  assert (Hfinish : forall e w', main w = (Raise e, w') ->
            grows root_event w w' ->
            stdout w' = stdout w
            /\ (exists evs, journal w' = journal w ++ evs
                            /\ disk w' = replay evs (disk w)
                            /\ Forall root_event evs)
            /\ (forall p, 12 <= length p ->
                          node_at (disk w') p = node_at (disk w) p)).
  { intros e w' _ (evs & (J & D & _ & O) & F).
    split; [exact O|]. split; [now exists evs|].
    intros p L. rewrite D. apply node_at_replay_other.
    eapply Forall_impl; [|exact F]. intros ev Hev E.
    apply root_event_shape in Hev. rewrite E in Hev. lia. }
  destruct (os_makedirs dest_root w) as [[[]|e] wa] eqn:Em.
  - assert (Ga : grows root_event w wa) by exact (root_confined _ Em).
    assert (Ha : node_at (disk wa) source_dir = None).
    { destruct (grows_source_kept root_event_dest_side Ga) as [_ H].
      specialize (H []). rewrite app_nil_r in H. now rewrite H. }
    destruct (listdir_missing _ _ Ha) as (e & w' & El & He & Sl).
    assert (Hmain : main w = (Raise e, w')).
    { unfold main, bind. rewrite Em, El. reflexivity. }
    assert (G : grows root_event w w').
    { eapply grows_trans; [exact Ga|]. exists []. now split. }
    exists e, w'. split; [exact Hmain|].
    destruct (Hfinish _ _ Hmain G) as (H1 & H2 & H3).
    repeat (split; [assumption|]).
    intros wa' E. injection E as <-. now split.
  - assert (Hmain : main w = (Raise e, wa)).
    { unfold main, bind. rewrite Em. reflexivity. }
    exists e, wa. split; [exact Hmain|].
    destruct (Hfinish _ _ Hmain (root_confined _ Em)) as (H1 & H2 & H3).
    repeat (split; [assumption|]).
    intros wa' E. discriminate E.
Qed.

Lemma missing_source_aborts_witness :
  node_at (disk no_source) source_dir = None
  /\ exists w',
       main no_source = (Raise FileNotFoundError, w')
       /\ stdout w' = []
       /\ node_at (disk w') dest_root = Some Dir.
Proof.
  assert (H : node_at (disk no_source) source_dir = None)
    by (vm_compute; reflexivity).
  split; [exact H|].
  destruct (@missing_source_aborts no_source H)
    as (e & w' & Hmain & Hout & _).
  exists (snd (main no_source)).
  split; [vm_compute; reflexivity|].
  split; vm_compute; reflexivity.
Defined.

(* --------------------------------------------------------------------- *)
(** *** Running twice *)

Lemma contents_not_in_dest_root : ~ In (lit "Contents.json") dest_root.
Proof.
  vm_compute. intros H.
  repeat (destruct H as [H | H]; [discriminate H|]). exact H.
Qed.

Lemma imageset_name_not_contents (x : str) :
  x ++ lit ".imageset" <> lit "Contents.json".
Proof.
  intros E. apply (f_equal (fun s => last s 0%N)) in E.
  change (lit ".imageset") with (lit ".imagese" ++ [116%N]) in E.
  rewrite app_assoc, last_last in E. vm_compute in E. discriminate E.
Qed.

Lemma root_event_not_contents (e : event) :
  root_event e -> basename (event_path e) <> lit "Contents.json".
Proof.
  intros (q & -> & Hq & Hpre) E. apply contents_not_in_dest_root.
  rewrite <- E. now apply basename_in.
Qed.

(** The only effects of an iteration at a file named [Contents.json] are
    at its descriptor. *)
Lemma body_event_contents (g : str) (e : event) :
  g <> lit "Contents.json" ->
  body_event g e ->
  basename (event_path e) = lit "Contents.json" ->
  event_path e = descriptor_path g.
Proof.
  intros Hg [(q & -> & Hq & Hpre) | (_ & [E | [E | E]])] Hb.
  - exfalso. simpl in Hb. apply is_prefix_join in Hpre.
    destruct Hpre as [-> | Hpre].
    + unfold imageset_dir in Hb. rewrite basename_join in Hb.
      now apply imageset_name_not_contents in Hb.
    + apply contents_not_in_dest_root. rewrite <- Hb.
      now apply basename_in.
  - exfalso. rewrite E in Hb. unfold copy_path in Hb.
    rewrite basename_join in Hb. contradiction.
  - exfalso. rewrite E in Hb. unfold nested_copy_path in Hb.
    rewrite basename_join in Hb. contradiction.
  - exact E.
Qed.

(** What a loop that ends normally leaves in a file named
    [Contents.json]. *)
Lemma loop_descriptor (l : list str) (p : path) (w w' : world) :
  Forall (fun f => endswith f (lit ".png") = true) l ->
  basename p = lit "Contents.json" ->
  for_each l loop_body w = (Ok tt, w') ->
  node_at (disk w') p
  = match last_writer l p with
    | Some g => Some (File (descriptor g))
    | None => node_at (disk w) p
    end.
Proof.
  intros Hl Hb. revert w. induction Hl as [|g l Hg _ IH]; intros w E.
  - injection E as <-. reflexivity.
  - cbn [for_each] in E. apply bind_ok in E.
    destruct E as ([] & w1 & Eb & E). rewrite (IH _ E).
    cbn [last_writer]. destruct (last_writer l p) as [h|]; [reflexivity|].
    destruct (processed g) eqn:Hp; cbn [andb].
    + destruct (path_eqb (descriptor_path g) p) eqn:Ep.
      * apply path_eqb_eq in Ep. subst p.
        now destruct (@iteration_ok g w w1 Hp Eb)
          as (_ & _ & _ & _ & _ & _ & Hd & _).
      * apply path_eqb_neq in Ep.
        destruct (loop_body_confined g _ Eb) as (evs & (_ & -> & _) & F).
        apply node_at_replay_other. eapply Forall_impl; [|exact F].
        intros e He Hpath. apply Ep. rewrite <- Hpath.
        symmetry. apply body_event_contents; try assumption.
        -- now apply candidate_not_contents.
        -- now rewrite Hpath.
    + rewrite (loop_body_skip _ Hp) in Eb. now injection Eb as <-.
Qed.

(* --------------------------------------------------------------------- *)
(** *** The order of a listing *)

Lemma assoc_app (p : path) (a b : store) :
  assoc p (a ++ b)
  = match assoc p a with
    | Some v => Some v
    | None => assoc p b
    end.
Proof.
  induction a as [|[k v] a IH]; cbn [app assoc]; [reflexivity|].
  destruct (path_eqb k p); [reflexivity | exact IH].
Qed.

(** Two neighbours of the store with different paths can change places
    without changing what the disk holds. *)
Lemma node_at_swap_at (n : nat) (s : store) (p : path) :
  match skipn n s with
  | (k1, _) :: (k2, _) :: _ => k1 <> k2
  | _ => True
  end ->
  node_at (swap_at n s) p = node_at s p.
Proof.
  intros Hk. destruct p as [|c p]; [reflexivity|]. unfold node_at, swap_at.
  rewrite <- (firstn_skipn n s) at 3. rewrite !assoc_app.
  destruct (assoc (c :: p) (firstn n s)); [reflexivity|].
  destruct (skipn n s) as [|[k1 v1] [|[k2 v2] rest]]; try reflexivity.
  cbn [assoc].
  destruct (path_eqb k2 (c :: p)) eqn:E2;
    destruct (path_eqb k1 (c :: p)) eqn:E1; try reflexivity.
  apply path_eqb_eq in E1, E2. congruence.
Qed.

(** The names a listing holds are those of the paths the disk holds
    below the directory. *)
Lemma children_in (s : store) (d : path) (f : str) :
  In f (children s d) <-> node_at s (os_path_join d f) <> None.
Proof.
  assert (Hnode : node_at s (os_path_join d f) = assoc (os_path_join d f) s).
  { unfold node_at, os_path_join. destruct (d ++ [f]) eqn:E; [|reflexivity].
    now apply app_eq_nil in E. }
  rewrite Hnode. clear Hnode.
  induction s as [|[k v] s IH]; cbn [children assoc].
  - split; [contradiction | congruence].
  - destruct (path_eqb k (os_path_join d f)) eqn:Ek.
    + apply path_eqb_eq in Ek. subst k. split; [discriminate|]. intros _.
      unfold os_path_join. destruct (d ++ [f]) as [|c q] eqn:E.
      * now apply app_eq_nil in E.
      * rewrite <- E. fold (os_path_join d f).
        rewrite dirname_join, path_eqb_refl, basename_join. now left.
    + apply path_eqb_neq in Ek. destruct k as [|c q]; [exact IH|].
      destruct (path_eqb (dirname (c :: q)) d) eqn:Ed; [|exact IH].
      apply path_eqb_eq in Ed. rewrite <- IH. split.
      * intros [Hb | Hin]; [|exact Hin]. exfalso. apply Ek.
        unfold os_path_join. rewrite <- Ed, <- Hb.
        apply app_removelast_last. discriminate.
      * intros Hin. now right.
Qed.

Lemma last_writer_some (l : list str) (p : path) (g : str) :
  last_writer l p = Some g ->
  In g l /\ processed g = true /\ descriptor_path g = p.
Proof.
  induction l as [|h l IH]; cbn [last_writer]; [discriminate|].
  destruct (last_writer l p) as [k|].
  - intros E. injection E as ->. destruct (IH eq_refl) as (Hin & H).
    split; [now right | exact H].
  - destruct (processed h) eqn:Hp; cbn [andb]; [|discriminate].
    destruct (path_eqb (descriptor_path h) p) eqn:Ep; [|discriminate].
    intros E. injection E as ->. apply path_eqb_eq in Ep.
    split; [now left | now split].
Qed.

Lemma last_writer_none (l : list str) (p : path) (g : str) :
  last_writer l p = None ->
  In g l -> processed g = true -> descriptor_path g <> p.
Proof.
  induction l as [|h l IH]; cbn [last_writer]; [contradiction|].
  destruct (last_writer l p) as [k|]; [discriminate|].
  intros E [-> | Hin] Hp.
  - rewrite Hp in E. cbn [andb] in E.
    destruct (path_eqb (descriptor_path g) p) eqn:Ep; [discriminate|].
    now apply path_eqb_neq.
  - now apply IH.
Qed.

(** The candidate whose descriptor a path holds after a loop does not
    depend on the order of the loop when the path has one writer. *)
Lemma last_writer_order (l1 l2 : list str) (p : path) :
  (forall f, In f l2 <-> In f l1) ->
  (forall f g, In f l1 -> In g l1 ->
               processed f = true -> processed g = true ->
               descriptor_path f = p -> descriptor_path g = p -> f = g) ->
  last_writer l2 p = last_writer l1 p.
Proof.
  intros Hset Huniq.
  destruct (last_writer l1 p) as [g1|] eqn:E1;
    destruct (last_writer l2 p) as [g2|] eqn:E2; try reflexivity.
  - destruct (last_writer_some _ _ E1) as (I1 & P1 & D1).
    destruct (last_writer_some _ _ E2) as (I2 & P2 & D2).
    f_equal. apply Huniq; try assumption. now apply Hset.
  - destruct (last_writer_some _ _ E1) as (I1 & P1 & D1).
    exfalso. apply (@last_writer_none l2 p g1 E2); try assumption.
    now apply Hset.
  - destruct (last_writer_some _ _ E2) as (I2 & P2 & D2).
    exfalso. apply (@last_writer_none l1 p g2 E1); try assumption.
    now apply Hset.
Qed.

(** The descriptors after a second run on a disk that holds what the
    first run left. *)
Lemma rerun_descriptor (w w1 v w2 : world) (p : path) :
  main w = (Ok tt, w1) ->
  (forall q, node_at (disk v) q = node_at (disk w1) q) ->
  main v = (Ok tt, w2) ->
  basename p = lit "Contents.json" ->
  last_writer (candidates v) p = last_writer (candidates w) p ->
  node_at (disk w2) p = node_at (disk w1) p.
Proof.
  intros Hrun1 Hv Hrun2 Hb Hlast.
  assert (Hpng : forall u, Forall (fun f => endswith f (lit ".png") = true)
                                  (candidates u)).
  { intros u. apply Forall_forall. intros f. apply candidates_png. }
  completed_run Hrun2 va vb vc Em2 El2 Ef2 Ep2.
  assert (Hd2 : disk w2 = disk vc)
    by (unfold print in Ep2; now injection Ep2 as <-).
  rewrite Hd2, (@loop_descriptor (candidates v) p vb vc (Hpng v) Hb Ef2).
  assert (Hvb : node_at (disk vb) p = node_at (disk w1) p).
  { destruct (listdir_ok _ _ El2) as ((_ & Db & _) & _). rewrite Db.
    simpl. destruct (root_confined _ Em2) as (evs & (_ & -> & _) & F).
    rewrite <- Hv. apply node_at_replay_other.
    eapply Forall_impl; [|exact F]. intros e He E.
    apply (root_event_not_contents He). now rewrite E. }
  completed_run Hrun1 wa wb wc Em El Ef Ep.
  assert (Hd1 : disk w1 = disk wc)
    by (unfold print in Ep; now injection Ep as <-).
  rewrite Hvb, Hlast, Hd1.
  rewrite (@loop_descriptor (candidates w) p wb wc (Hpng w) Hb Ef).
  destruct (last_writer (candidates w) p); reflexivity.
Qed.

Lemma dotted_icons_relisted_same (p : path) :
  node_at (disk dotted_icons_relisted) p = node_at (disk dotted_icons_done) p.
Proof.
  apply node_at_swap_at. vm_compute. discriminate.
Qed.

Lemma three_icons_relisted_same (p : path) :
  node_at (disk three_icons_relisted) p = node_at (disk three_icons_done) p.
Proof.
  apply node_at_swap_at. vm_compute. discriminate.
Qed.

(** The claim as stated fails: the disk holds the same files, the second
    listing gives them in the other order, and the descriptor of the
    shared container changes. *)
Lemma second_run_same_descriptors_as_stated_fails :
  ~ second_run_same_descriptors_as_stated dotted_icons dotted_icons_relisted.
Proof.
  intros H.
  assert (Hrun2 : main dotted_icons_relisted
                  = (Ok tt, snd (main dotted_icons_relisted)))
    by (vm_compute; reflexivity).
  specialize (H dotted_icons_done (snd (main dotted_icons_relisted))
                dotted_icons_run dotted_icons_relisted_same Hrun2
                (descriptor_path (lit ".png"))
                (basename_join _ _)).
  vm_compute in H. discriminate H.
Qed.

(** C6, amended.  Run the script, and run it again on a disk that holds
    at every path what the first run left, listed in whatever order
    (and whatever the clock and the faults of the second run): if both
    runs complete, the second works from the same candidates, and a file
    named [Contents.json] holds after the second run the very bytes it
    held after the first, provided the second run lists the candidates
    in the same order or the file is the descriptor of at most one
    processed candidate.  The bytes written for a file name are
    [descriptor f], a function of the name alone: a processed candidate
    that shares its container with no other has this descriptor after
    either run. *)
Theorem second_run_same_descriptors (w w1 v w2 : world) :
  main w = (Ok tt, w1) ->
  (forall p, node_at (disk v) p = node_at (disk w1) p) ->
  main v = (Ok tt, w2) ->
  (forall f, In f (candidates v) <-> In f (candidates w))
  /\ (forall p, basename p = lit "Contents.json" ->
        candidates v = candidates w
        \/ (forall f g, In f (candidates w) -> In g (candidates w) ->
                        processed f = true -> processed g = true ->
                        descriptor_path f = p -> descriptor_path g = p ->
                        f = g) ->
        node_at (disk w2) p = node_at (disk w1) p)
  /\ (forall f, In f (candidates w) -> processed f = true ->
        (forall g, In g (candidates w) -> processed g = true ->
                   imageset_dir g = imageset_dir f -> g = f) ->
        node_at (disk w1) (descriptor_path f) = Some (File (descriptor f))
        /\ node_at (disk w2) (descriptor_path f)
           = Some (File (descriptor f))).
Proof.
  intros Hrun1 Hv Hrun2.
  assert (Hsrc : forall p, node_at (disk w1) (source_dir ++ p)
                           = node_at (disk w) (source_dir ++ p)).
  { destruct (@main_effects w w1 (Ok tt) Hrun1) as (evs & _ & D & F).
    intros p. rewrite D. apply node_at_replay_other.
    eapply Forall_impl; [|exact F]. intros e He.
    apply dest_side_source_path. eapply main_event_dest_side, He. }
  assert (Hset : forall f, In f (candidates v) <-> In f (candidates w)).
  { intros f. unfold candidates, png_files, entries.
    rewrite !filter_In, !children_in, Hv.
    unfold os_path_join. now rewrite Hsrc. }
  assert (Hsame : forall p, basename p = lit "Contents.json" ->
            candidates v = candidates w
            \/ (forall f g, In f (candidates w) -> In g (candidates w) ->
                            processed f = true -> processed g = true ->
                            descriptor_path f = p -> descriptor_path g = p ->
                            f = g) ->
            node_at (disk w2) p = node_at (disk w1) p).
  { intros p Hb Hcase.
    apply (@rerun_descriptor w w1 v w2 p Hrun1 Hv Hrun2 Hb).
    destruct Hcase as [-> | Huniq]; [reflexivity|].
    now apply last_writer_order. }
  split; [exact Hset|]. split; [exact Hsame|].
  intros f Hf Hp Hown.
  assert (Hpng : Forall (fun f => endswith f (lit ".png") = true)
                        (candidates w)).
  { apply Forall_forall. intros g. apply candidates_png. }
  assert (H1 : node_at (disk w1) (descriptor_path f)
               = Some (File (descriptor f))).
  { pose proof Hrun1 as Hrun.
    completed_run Hrun wa wb wc Em El Ef Ep.
    assert (Hd1 : disk w1 = disk wc)
      by (unfold print in Ep; now injection Ep as <-).
    rewrite Hd1.
    rewrite (@loop_descriptor (candidates w) (descriptor_path f) wb wc
               Hpng (basename_join _ _) Ef).
    destruct (last_writer (candidates w) (descriptor_path f)) as [g|] eqn:El'.
    - destruct (last_writer_some _ _ El') as (Ig & Pg & Dg).
      apply descriptor_path_inj in Dg.
      now rewrite (Hown g Ig Pg Dg).
    - exfalso. now apply (@last_writer_none _ _ f El' Hf Hp). }
  split; [exact H1|]. rewrite <- H1. apply Hsame; [apply basename_join|].
  right. intros a b Ia Ib Pa Pb Da Db.
  apply descriptor_path_inj in Da, Db.
  rewrite (Hown a Ia Pa Da). symmetry. exact (Hown b Ib Pb Db).
Qed.

Lemma second_run_same_descriptors_witness :
  main three_icons = (Ok tt, three_icons_done)
  /\ candidates three_icons_relisted <> candidates three_icons
  /\ main three_icons_relisted = (Ok tt, snd (main three_icons_relisted))
  /\ node_at (disk (snd (main three_icons_relisted)))
             (descriptor_path (lit "music.png"))
     = Some (File (descriptor (lit "music.png"))).
Proof.
  assert (H2 : main three_icons_relisted
               = (Ok tt, snd (main three_icons_relisted)))
    by (vm_compute; reflexivity).
  split; [exact three_icons_run|].
  split; [vm_compute; discriminate|]. split; [exact H2|].
  destruct (@second_run_same_descriptors three_icons three_icons_done
              three_icons_relisted (snd (main three_icons_relisted))
              three_icons_run three_icons_relisted_same H2) as (_ & _ & H).
  apply (H (lit "music.png")).
  - vm_compute. auto.
  - reflexivity.
  - intros g Hg Hp Hd. vm_compute in Hg.
    destruct Hg as [<- | [<- | [<- | []]]].
    + vm_compute in Hd. discriminate Hd.
    + reflexivity.
    + vm_compute in Hp. discriminate Hp.
Defined.

(* --------------------------------------------------------------------- *)
(** *** One container for each candidate *)

Lemma loop_journal (l : list str) (w w' : world) :
  for_each l loop_body w = (Ok tt, w') ->
  exists chunks,
    journal w' = journal w ++ concat chunks
    /\ Forall2 iteration_journal (filter processed l) chunks.
Proof.
  revert w. induction l as [|g l IH]; intros w E.
  - injection E as <-. exists []. simpl. rewrite app_nil_r. now split.
  - cbn [for_each] in E. apply bind_ok in E.
    destruct E as ([] & w1 & Eb & E).
    destruct (IH _ E) as (chunks & J & F). cbn [filter].
    destruct (processed g) eqn:Hp.
    + destruct (@iteration_ok g w w1 Hp Eb)
        as (mk & data & S & Fm & _).
      cbv zeta in S. destruct S as (J1 & _).
      eexists (_ :: chunks). split.
      * rewrite J, J1. cbn [concat]. rewrite <- app_assoc. reflexivity.
      * constructor; [|exact F].
        exists mk, (copy_target (disk w) (source_path g) (copy_path g)), data.
        split; [reflexivity|]. split; [exact Fm|].
        apply copy_target_cases.
    + rewrite (loop_body_skip _ Hp) in Eb. injection Eb as <-.
      now exists chunks.
Qed.

(** C7 fails as stated: the run over [.png] and [.png.png] completes, and
    both go to the container [.png.imageset]. *)
Lemma distinct_containers_as_stated_fails :
  ~ distinct_containers_as_stated dotted_icons.
Proof.
  intros H.
  apply (H _ dotted_icons_run (lit ".png") (lit ".png.png")).
  - vm_compute. auto.
  - reflexivity.
  - vm_compute. auto.
  - reflexivity.
  - vm_compute. discriminate.
  - vm_compute. reflexivity.
Qed.

(** C7, amended.  Every candidate has one container, named after its base
    name.  In a run that completes, the journal is the directories made
    for the destination root followed, for each processed candidate in
    listing order, by the directories made for its container, exactly one
    copy (into the container, or below the directory that stood at the
    copy's place) and exactly one descriptor written into the container.
    Two candidates from which [splitext] strips the extension [.png]
    have the same container only if they are the same name; that is the
    case of every name without separator that has a character other than
    the dot before its final [.png]. *)
Theorem one_container_each (w w' : world) :
  main w = (Ok tt, w') ->
  (exists mk0 chunks,
     journal w' = journal w ++ mk0 ++ concat chunks
     /\ Forall root_event mk0
     /\ Forall2 iteration_journal (filter processed (candidates w)) chunks)
  /\ (forall f g,
        snd (splitext f) = lit ".png" -> snd (splitext g) = lit ".png" ->
        imageset_dir f = imageset_dir g -> f = g)
  /\ (forall stem,
        ~ In sep stem ->
        existsb (fun c => negb (N.eqb c extsep)) stem = true ->
        splitext (stem ++ lit ".png") = (stem, lit ".png")).
Proof.
  intros Hrun. split; [|split].
  - completed_run Hrun wa wb wc Em El Ef Ep.
    destruct (root_confined _ Em) as (mk0 & (Ja & _) & F0).
    destruct (listdir_ok _ _ El) as ((Jb & _) & _).
    destruct (@loop_journal (candidates w) wb wc Ef) as (chunks & Jc & Fc).
    exists mk0, chunks. split; [|now split].
    unfold print in Ep. injection Ep as <-. simpl.
    rewrite Jc, Jb, Ja, app_nil_r, <- app_assoc. reflexivity.
  - intros f g Hf Hg E. unfold imageset_dir, name_no_ext in E.
    apply join_inj in E. destruct E as [_ E]. apply app_inv_tail in E.
    rewrite <- (splitext_app f), <- (splitext_app g). congruence.
  - intros stem Hsep Hdot. rewrite splitext_png by assumption.
    now rewrite Hdot.
Qed.

Lemma one_container_each_witness :
  main three_icons = (Ok tt, three_icons_done)
  /\ exists mk0 chunks,
       journal three_icons_done = mk0 ++ concat chunks
       /\ Forall2 iteration_journal
            [lit "sports.png"; lit "music.png"] chunks.
Proof.
  split; [exact three_icons_run|].
  destruct (@one_container_each three_icons three_icons_done
              three_icons_run) as ((mk0 & chunks & J & _ & F) & _).
  exists mk0, chunks. split; [exact J | exact F].
Defined.

(* --------------------------------------------------------------------- *)
(** *** A failure in the middle of the loop *)

(** However an iteration ends, below the containers it touches nothing
    but its copy and its descriptor. *)
Lemma body_keeps (f : str) (p : path) (w w' : world) (r : result unit) :
  loop_body f w = (r, w') ->
  13 <= length p ->
  p <> copy_path f -> p <> nested_copy_path f -> p <> descriptor_path f ->
  node_at (disk w') p = node_at (disk w) p.
Proof.
  intros E L H1 H2 H3.
  destruct (loop_body_confined f _ E) as (evs & (_ & -> & _) & F).
  apply node_at_replay_other. eapply Forall_impl; [|exact F].
  intros e [(q & -> & _ & Hq) | (_ & [Ep | [Ep | Ep]])] Hpath.
  - simpl in Hpath. subst q. apply is_prefix_length in Hq.
    rewrite length_imageset_dir in Hq. lia.
  - congruence.
  - congruence.
  - congruence.
Qed.

Lemma body_keeps_dir (f : str) (p : path) (w w' : world) (r : result unit) :
  loop_body f w = (r, w') ->
  length p <= 12 ->
  node_at (disk w) p = Some Dir -> node_at (disk w') p = Some Dir.
Proof.
  intros E L Hdir.
  destruct (loop_body_confined f _ E) as (evs & (_ & -> & _) & F).
  apply dir_replay; [exact Hdir|]. eapply Forall_impl; [|exact F].
  intros e He Hfile.
  destruct (body_event_shape He) as [(Hf & _) | (_ & L')].
  - congruence.
  - apply path_length_neq. lia.
Qed.

(** After a loop that ends normally, the container of each processed
    candidate is there. *)
Lemma loop_containers (l : list str) (g : str) (w w' : world) :
  for_each l loop_body w = (Ok tt, w') ->
  In g l -> processed g = true ->
  node_at (disk w') (imageset_dir g) = Some Dir.
Proof.
  intros E Hg Hp. destruct (in_split _ _ Hg) as (a & b & ->).
  destruct (for_each_ok_split _ _ _ _ _ E) as (wg & wg' & _ & Eb & E2).
  destruct (@iteration_ok g wg wg' Hp Eb) as (_ & _ & _ & _ & _ & Hd & _).
  eapply loop_keeps_dir; [exact E2 | | exact Hd].
  rewrite length_imageset_dir. lia.
Qed.

Lemma nested_copy_path_inj (f g : str) :
  nested_copy_path g = nested_copy_path f -> g = f.
Proof. unfold nested_copy_path. intros E. now apply join_inj in E. Qed.

(** C8 fails as stated: the iteration for [.png.png] empties the
    descriptor that the iteration for [.png] wrote, and raises with three
    bytes of its own in the file. *)
Lemma failure_keeps_earlier_as_stated_fails :
  ~ failure_keeps_earlier_as_stated dotted_icons_disk_full.
Proof.
  intros H.
  set (w := dotted_icons_disk_full) in *.
  set (wa := snd (os_makedirs dest_root w)).
  set (wb := snd (os_listdir source_dir wa)).
  set (w1 := snd (loop_body (lit ".png") wb)).
  set (w2 := snd (loop_body (lit ".png.png") w1)).
  destruct (H wa wb w1 w2 [lit ".png"] [] (lit ".png.png") OSError_)
    as (_ & Hkept); try (vm_compute; reflexivity).
  destruct (Hkept (lit ".png")) as (_ & _ & Hd).
  - now left.
  - reflexivity.
  - vm_compute in Hd. discriminate Hd.
Qed.

(** C8, amended.  When the iteration for candidate [f] raises, the run
    ends at once with that error: the final world is the world of that
    moment, nothing is printed, and after the iterations before it the
    journal holds effects of the iteration for [f] only, none of a later
    candidate.  Nothing is rolled back: for every candidate [g] processed
    before, the container is still there, the copy is unchanged, and the
    descriptor is unchanged unless [g] and [f] share their container, in
    which case the failed iteration may have emptied or partly rewritten
    it. *)
Theorem failure_keeps_earlier (w wa wb w1 w2 : world) (l l1 l2 : list str)
        (f : str) (e : exn) :
  os_makedirs dest_root w = (Ok tt, wa) ->
  os_listdir source_dir wa = (Ok l, wb) ->
  png_files l = l1 ++ f :: l2 ->
  for_each l1 loop_body wb = (Ok tt, w1) ->
  loop_body f w1 = (Raise e, w2) ->
  main w = (Raise e, w2)
  /\ stdout w2 = stdout w
  /\ (exists evs,
        journal w2 = journal w1 ++ evs
        /\ disk w2 = replay evs (disk w1)
        /\ Forall (body_event f) evs)
  /\ forall g, In g l1 -> processed g = true ->
       node_at (disk w2) (imageset_dir g) = Some Dir
       /\ (g <> f ->
           node_at (disk w2) (copy_path g) = node_at (disk w1) (copy_path g)
           /\ node_at (disk w2) (nested_copy_path g)
              = node_at (disk w1) (nested_copy_path g))
       /\ (imageset_dir g <> imageset_dir f ->
           node_at (disk w2) (descriptor_path g)
           = node_at (disk w1) (descriptor_path g)).
Proof.
  intros Em El Hsplit E1 Eb.
  assert (Hmain : main w = (Raise e, w2)).
  { unfold main, bind. rewrite Em, El, Hsplit, for_each_app, E1.
    cbn [for_each]. unfold bind. rewrite Eb. reflexivity. }
  split; [exact Hmain|].
  assert (G : grows (main_event l1) w w1) by (eapply reach; eassumption).
  pose proof (loop_body_confined f _ Eb) as Gb.
  split; [|split].
  - destruct G as (? & (_ & _ & _ & O1) & _).
    destruct Gb as (? & (_ & _ & _ & O2) & _). congruence.
  - destruct Gb as (evs & (J & D & _) & F). now exists evs.
  - intros g Hg Hp.
    assert (Hgpng : endswith g (lit ".png") = true).
    { assert (Hin : In g (png_files l))
        by (rewrite Hsplit; apply in_or_app; now left).
      unfold png_files in Hin. now apply filter_In in Hin. }
    assert (Hfpng : endswith f (lit ".png") = true).
    { assert (Hin : In f (png_files l))
        by (rewrite Hsplit; apply in_or_app; right; now left).
      unfold png_files in Hin. now apply filter_In in Hin. }
    pose proof (candidate_not_contents Hgpng) as Hgc.
    pose proof (candidate_not_contents Hfpng) as Hfc.
    split; [|split].
    + eapply body_keeps_dir; [exact Eb | |].
      * rewrite length_imageset_dir. lia.
      * eapply loop_containers; eassumption.
    + intros Hne. split.
      * eapply body_keeps; [exact Eb | | | |].
        -- rewrite length_copy_path. lia.
        -- intros E. now apply copy_path_inj in E.
        -- apply path_length_neq.
           rewrite length_copy_path, length_nested_copy_path. lia.
        -- now apply copy_path_not_descriptor.
      * eapply body_keeps; [exact Eb | | | |].
        -- rewrite length_nested_copy_path. lia.
        -- apply path_length_neq.
           rewrite length_copy_path, length_nested_copy_path. lia.
        -- intros E. now apply nested_copy_path_inj in E.
        -- apply path_length_neq.
           rewrite length_descriptor_path, length_nested_copy_path. lia.
    + intros Hne. eapply body_keeps; [exact Eb | | | |].
      * rewrite length_descriptor_path. lia.
      * intros E. symmetry in E.
        now apply (@copy_path_not_descriptor f g Hfc).
      * apply path_length_neq.
        rewrite length_descriptor_path, length_nested_copy_path. lia.
      * intros E. now apply descriptor_path_inj in E.
Qed.

Lemma failure_keeps_earlier_witness :
  let w := icon_and_directory in
  let wa := snd (os_makedirs dest_root w) in
  let wb := snd (os_listdir source_dir wa) in
  let w1 := snd (loop_body (lit "a.png") wb) in
  let w2 := snd (loop_body (lit "d.png") w1) in
  loop_body (lit "d.png") w1 = (Raise IsADirectoryError, w2)
  /\ main w = (Raise IsADirectoryError, w2)
  /\ node_at (disk w2) (descriptor_path (lit "a.png"))
     = node_at (disk w1) (descriptor_path (lit "a.png")).
Proof.
  intros w wa wb w1 w2.
  assert (Eb : loop_body (lit "d.png") w1 = (Raise IsADirectoryError, w2))
    by (vm_compute; reflexivity).
  destruct (@failure_keeps_earlier w wa wb w1 w2
              [lit "a.png"; lit "d.png"] [lit "a.png"] [] (lit "d.png")
              IsADirectoryError)
    as (Hmain & _ & _ & Hkept);
    try (vm_compute; reflexivity).
  split; [exact Eb|]. split; [exact Hmain|].
  destruct (Hkept (lit "a.png")) as (_ & _ & Hd).
  - now left.
  - reflexivity.
  - apply Hd. vm_compute. discriminate.
Defined.

(* --------------------------------------------------------------------- *)
(** *** The entry named [.png] *)

(** C9. An entry named exactly [.png] ends with [.png], so it is a
    candidate; [splitext] strips nothing from it, so its base name is
    [.png], which is not the excluded name, and it is processed; its
    container is [.png.imageset]; and when the run completes, that
    container exists and, unless a directory stood at that place before
    the run, holds a file named [.png] with the bytes of the source
    file. *)
Theorem dot_png_entry (w w' : world) :
  main w = (Ok tt, w') ->
  In (lit ".png") (entries w) ->
  node_at (disk w) (copy_path (lit ".png")) <> Some Dir ->
  In (lit ".png") (candidates w)
  /\ splitext (lit ".png") = (lit ".png", [])
  /\ processed (lit ".png") = true
  /\ imageset_dir (lit ".png") = os_path_join dest_root (lit ".png.imageset")
  /\ copy_path (lit ".png")
     = os_path_join (os_path_join dest_root (lit ".png.imageset"))
                    (lit ".png")
  /\ node_at (disk w') (os_path_join dest_root (lit ".png.imageset"))
     = Some Dir
  /\ exists data,
       node_at (disk w) (source_path (lit ".png")) = Some (File data)
       /\ node_at (disk w')
                  (os_path_join (os_path_join dest_root (lit ".png.imageset"))
                                (lit ".png"))
          = Some (File data).
Proof.
  intros Hrun Hin Hnd.
  assert (Hc : In (lit ".png") (candidates w)).
  { unfold candidates, png_files. apply filter_In. now split. }
  destruct (@last_iteration w w' (lit ".png") Hrun Hc eq_refl)
    as (l1 & l2 & w1 & w2 & wc & data & _ & Hlast & _ & E2 & ->
        & Hdata & Hdir & _ & Hcopy).
  split; [exact Hc|].
  split; [reflexivity|]. split; [reflexivity|].
  split; [reflexivity|]. split; [reflexivity|].
  split.
  - change (node_at (disk wc) (imageset_dir (lit ".png")) = Some Dir).
    eapply loop_keeps_dir; [exact E2 | | exact Hdir].
    rewrite length_imageset_dir. lia.
  - exists data. split; [exact Hdata|].
    change (node_at (disk wc) (copy_path (lit ".png")) = Some (File data)).
    rewrite (@loop_keeps_copy l2 (lit ".png") w2 wc (Ok tt) E2 Hlast).
    + exact (Hcopy Hnd).
    + vm_compute. discriminate.
Qed.

Lemma dot_png_entry_witness :
  main only_dot_png = (Ok tt, snd (main only_dot_png))
  /\ In (lit ".png") (entries only_dot_png)
  /\ node_at (disk (snd (main only_dot_png)))
             (os_path_join dest_root (lit ".png.imageset"))
     = Some Dir.
Proof.
  assert (Hrun : main only_dot_png = (Ok tt, snd (main only_dot_png)))
    by (vm_compute; reflexivity).
  assert (Hin : In (lit ".png") (entries only_dot_png))
    by (vm_compute; auto).
  split; [exact Hrun|]. split; [exact Hin|].
  destruct (@dot_png_entry only_dot_png (snd (main only_dot_png)) Hrun Hin)
    as (_ & _ & _ & _ & _ & Hdir & _).
  - vm_compute. discriminate.
  - exact Hdir.
Defined.

(* --------------------------------------------------------------------- *)
(** *** A directory whose name ends with [.png] *)

(** The copy of a directory raises before anything is written. *)
Lemma copy_of_directory (d : str) (w : world) :
  node_at (disk w) (source_path d) = Some Dir ->
  exists e w',
    shutil_copy (source_path d) (copy_path d) w = (Raise e, w')
    /\ (e = IsADirectoryError \/ e = OSError_)
    /\ disk w' = disk w
    /\ journal w' = journal w.
Proof.
  intros Hdir.
  assert (Hne : path_eqb (source_path d)
                  (copy_target (disk w) (source_path d) (copy_path d))
                = false).
  { apply path_eqb_neq. intros E.
    assert (Hd : dest_side (copy_target (disk w) (source_path d)
                                        (copy_path d))).
    { right. eapply is_prefix_trans.
      - apply dest_root_prefix_imageset_dir.
      - destruct (copy_target_cases (disk w) d) as [-> | ->].
        + now exists [d].
        + exists [d; d]. unfold nested_copy_path, copy_path, os_path_join.
          now rewrite <- app_assoc. }
    rewrite <- E in Hd. apply (dest_side_not_source Hd). now exists [d]. }
  unfold shutil_copy, bind. rewrite isdir_run.
  replace (if match node_at (disk w) (copy_path d) with
              | Some Dir => true
              | _ => false
              end
           then os_path_join (copy_path d) (basename (source_path d))
           else copy_path d)
    with (copy_target (disk w) (source_path d) (copy_path d))
    by (unfold copy_target; now destruct (node_at (disk w) (copy_path d))
                                  as [[?|]|]).
  unfold shutil_copyfile. rewrite Hne.
  unfold bind, read_bytes, bind, fallible, bind, syscall.
  destruct (faults w (clock w)) as [k|]; simpl.
  - eexists _, _. split; [reflexivity|]. split; [now right|]. now split.
  - unfold get_disk. simpl. rewrite Hdir.
    eexists _, _. split; [reflexivity|]. split; [now left|]. now split.
Qed.

(** C10 fails as stated: a subdirectory named [gaming.png] is a
    candidate, but the loop skips it, and the run completes. *)
Lemma png_directory_aborts_as_stated_fails :
  ~ png_directory_aborts_as_stated gaming_directory.
Proof.
  intros H. destruct (H (lit "gaming.png")) as (_ & e & w' & Hrun).
  - vm_compute. auto.
  - reflexivity.
  - vm_compute. reflexivity.
  - vm_compute in Hrun. discriminate Hrun.
Qed.

(** C10, amended.  No check for a regular file is made: a subdirectory
    of the source directory whose name ends with [.png] is a candidate.
    Unless its base name is the excluded one, the run raises; and in its
    iteration, once the container has been ensured, the copy step raises
    ([IsADirectoryError], or the error of a failed system call) without
    having written anything, which ends the iteration and the run. *)
Theorem png_directory_aborts (w : world) (d : str) :
  In d (entries w) ->
  endswith d (lit ".png") = true ->
  node_at (disk w) (source_path d) = Some Dir ->
  name_no_ext d <> lit "gaming" ->
  In d (candidates w)
  /\ (exists e w', main w = (Raise e, w'))
  /\ forall w1 w2,
       node_at (disk w1) (source_path d) = Some Dir ->
       os_makedirs (imageset_dir d) w1 = (Ok tt, w2) ->
       exists e w3,
         shutil_copy (source_path d) (copy_path d) w2 = (Raise e, w3)
         /\ (e = IsADirectoryError \/ e = OSError_)
         /\ disk w3 = disk w2
         /\ journal w3 = journal w2
         /\ loop_body d w1 = (Raise e, w3).
Proof.
  intros Hin Hpng Hdir Hbase.
  assert (Hp : processed d = true) by now apply processed_iff.
  assert (Hc : In d (candidates w)).
  { unfold candidates, png_files. apply filter_In. now split. }
  split; [exact Hc|]. split.
  - destruct (main w) as [[[]|e] w'] eqn:Hrun; [|now exists e, w'].
    exfalso. completed_run Hrun wa wb wc Em El Ef Ep.
    destruct (in_split _ _ Hc) as (l1 & l2 & Hsplit).
    rewrite Hsplit in Ef.
    destruct (for_each_ok_split _ _ _ _ _ Ef) as (w1 & w2 & E1 & Eb & _).
    assert (G : grows (main_event l1) w w1) by (eapply reach; eassumption).
    destruct (@iteration_ok d w1 w2 Hp Eb) as (_ & data & _ & _ & Hdata & _).
    rewrite (@reach_source w w1 l1 d G), Hdir in Hdata. discriminate Hdata.
  - intros w1 w2 Hdir1 Em.
    assert (Hdir2 : node_at (disk w2) (source_path d) = Some Dir).
    { assert (G : grows (body_event d) w1 w2).
      { eapply confined_makedirs; [|exact Em].
        intros q Hq Hpre. left. now exists q. }
      destruct (grows_source_kept (@body_event_dest_side d) G) as [_ H].
      unfold source_path, os_path_join in *. now rewrite H. }
    destruct (copy_of_directory _ _ Hdir2) as (e & w3 & Ec & He & D & J).
    exists e, w3. repeat (split; [assumption|]).
    unfold loop_body. apply processed_iff, str_eqb_neq in Hp.
    rewrite Hp. unfold bind. rewrite Em.
    change (shutil_copy (os_path_join source_dir d)
                        (os_path_join (imageset_dir d) d) w2)
      with (shutil_copy (source_path d) (copy_path d) w2).
    rewrite Ec. reflexivity.
Qed.

Lemma png_directory_aborts_witness :
  In (lit "d.png") (candidates icon_and_directory)
  /\ exists e w', main icon_and_directory = (Raise e, w').
Proof.
  destruct (@png_directory_aborts icon_and_directory (lit "d.png"))
    as (Hc & Hraise & _).
  - vm_compute. auto.
  - reflexivity.
  - vm_compute. reflexivity.
  - vm_compute. discriminate.
  - split; [exact Hc | exact Hraise].
Defined.

(* ===================================================================== *)
(** ** Further properties of the script and of the calls it makes *)
(* ===================================================================== *)

(* --------------------------------------------------------------------- *)
(** *** Where a run writes *)

(** X1. However a run ends, it changes the disk only on the way to the
    destination root and below it: every other path holds what it held
    before.  In particular the source directory lists the same entries in
    the same order, and every path in it holds what it held. *)
Theorem run_leaves_source_alone (w w' : world) (r : result unit) :
  main w = (r, w') ->
  (forall p, ~ dest_side p -> node_at (disk w') p = node_at (disk w) p)
  /\ entries w' = entries w
  /\ forall l, node_at (disk w') (source_dir ++ l)
               = node_at (disk w) (source_dir ++ l).
Proof.
  intros Hrun.
  destruct (@main_effects w w' r Hrun) as (evs & J & D & F).
  assert (G : grows (main_event (candidates w))
                    w (World (disk w') (clock w) (faults w) (stdout w)
                             (journal w'))).
  { exists evs. split; [|exact F]. unfold steps. simpl. auto. }
  split; [|split].
  - intros p Hp. rewrite D. apply node_at_replay_other.
    eapply Forall_impl; [|exact F]. intros e He E. apply Hp.
    rewrite <- E. eapply main_event_dest_side, He.
  - destruct (grows_source_kept (@main_event_dest_side (candidates w)) G)
      as [H _]. exact H.
  - destruct (grows_source_kept (@main_event_dest_side (candidates w)) G)
      as [_ H]. exact H.
Qed.

Lemma run_leaves_source_alone_witness :
  main three_icons = (Ok tt, three_icons_done)
  /\ entries three_icons_done
     = [lit "sports.png"; lit "music.png"; lit "gaming.png"]
  /\ node_at (disk three_icons_done) (source_path (lit "gaming.png"))
     = Some (File [137; 80; 78; 71; 10]%N).
Proof.
  destruct (@run_leaves_source_alone three_icons three_icons_done (Ok tt)
              three_icons_run) as (_ & He & Hs).
  split; [exact three_icons_run|]. split.
  - rewrite He. vm_compute. reflexivity.
  - unfold source_path, os_path_join. rewrite Hs. vm_compute. reflexivity.
Defined.

(* --------------------------------------------------------------------- *)
(** *** [os.path.splitext] *)

Lemma rfind_cases (s : str) (c : N) :
  (~ In c s /\ rfind s c = (-1)%Z)
  \/ (exists a b, s = a ++ c :: b /\ ~ In c b
                  /\ rfind s c = Z.of_nat (length a)).
Proof.
  destruct (in_dec N.eq_dec c s) as [Hin | Hnin].
  - right. destruct (@in_last_split N c s N.eq_dec Hin)
      as (a & b & -> & Hb).
    exists a, b. split; [reflexivity|]. split; [exact Hb|].
    unfold rfind. rewrite rfind_from_last; [lia | lia | exact Hb].
  - left. split; [exact Hnin|]. now apply rfind_from_absent.
Qed.

Lemma rfind_not_below (s : str) (c : N) : (rfind s c <? -1)%Z = false.
Proof.
  apply Z.ltb_ge.
  destruct (rfind_cases s c) as [(_ & ->) | (a & b & _ & _ & ->)]; lia.
Qed.

(** X2. The two parts [os.path.splitext] returns always make up its
    argument.  The extension is empty, or it is the last dot of the path
    with what follows it, and then contains no other dot and no
    separator.  A path without a dot is returned whole. *)
Theorem splitext_parts (p : str) :
  fst (splitext p) ++ snd (splitext p) = p
  /\ (snd (splitext p) = []
      \/ exists rest,
           snd (splitext p) = extsep :: rest
           /\ ~ In extsep rest /\ ~ In sep rest)
  /\ (~ In extsep p -> splitext p = (p, [])).
Proof.
  split; [apply splitext_app|]. split.
  - unfold splitext.
    destruct (rfind_cases p extsep) as [(_ & ->) | (a & b & Hp & Hb & ->)].
    + left. now rewrite rfind_not_below.
    + destruct (rfind p sep <? Z.of_nat (length a))%Z eqn:Hlt;
        [|now left].
      destruct (has_non_dot _ _ _); [|now left].
      right. exists b. cbn [snd]. unfold slice_from. rewrite Nat2Z.id.
      split; [|split; [exact Hb|]].
      * rewrite Hp, skipn_app, skipn_all, Nat.sub_diag. reflexivity.
      * intros Hsep. apply Z.ltb_lt in Hlt.
        destruct (@in_last_split N sep b N.eq_dec Hsep)
          as (b1 & b2 & Hb12 & Hb2).
        assert (E : p = (a ++ extsep :: b1) ++ sep :: b2).
        { rewrite Hp, Hb12, <- app_assoc. reflexivity. }
        rewrite E in Hlt. unfold rfind in Hlt.
        rewrite rfind_from_last in Hlt; [|lia | exact Hb2].
        rewrite length_app in Hlt. simpl in Hlt. lia.
  - intros Hdot. unfold splitext.
    unfold rfind at 2. rewrite rfind_from_absent by exact Hdot.
    now rewrite rfind_not_below.
Qed.

(* --------------------------------------------------------------------- *)
(** *** When two candidates share a container *)

Lemma existsb_non_dot_png (s : str) :
  existsb (fun c => negb (N.eqb c extsep)) (s ++ lit ".png") = true.
Proof.
  rewrite existsb_app. apply orb_true_iff. right. reflexivity.
Qed.

Lemma name_no_ext_png (s : str) :
  ~ In sep s ->
  name_no_ext (s ++ lit ".png")
  = if all_dots s then s ++ lit ".png" else s.
Proof.
  intros Hs. unfold name_no_ext, all_dots. rewrite splitext_png by exact Hs.
  now destruct (existsb _ s).
Qed.

Lemma app_png_neq (s : str) : s ++ lit ".png" <> s.
Proof.
  intros E. apply (f_equal (@length N)) in E. rewrite length_app in E.
  simpl in E. lia.
Qed.

Lemma imageset_dir_eq (f g : str) :
  imageset_dir f = imageset_dir g <-> name_no_ext f = name_no_ext g.
Proof.
  unfold imageset_dir. split.
  - intros E. apply join_inj in E. destruct E as [_ E].
    now apply app_inv_tail in E.
  - intros ->. reflexivity.
Qed.

(** X3. Two distinct candidates without a separator, [s.png] and
    [t.png], get the same container exactly when one of [s], [t] consists
    of dots only (or is empty) and the other is that whole name: the
    pairs that collide are [<dots>.png] and [<dots>.png.png]. *)
Theorem container_collision (s t : str) :
  ~ In sep s -> ~ In sep t ->
  (imageset_dir (s ++ lit ".png") = imageset_dir (t ++ lit ".png")
   /\ s ++ lit ".png" <> t ++ lit ".png")
  <-> ((all_dots s = true /\ t = s ++ lit ".png")
       \/ (all_dots t = true /\ s = t ++ lit ".png")).
Proof.
  intros Hs Ht. rewrite imageset_dir_eq, !name_no_ext_png by assumption.
  split.
  - intros [E Hne].
    destruct (all_dots s) eqn:Ds, (all_dots t) eqn:Dt.
    + contradiction.
    + left. split; [reflexivity | now symmetry].
    + right. split; [reflexivity | exact E].
    + subst t. contradiction.
  - intros [[Ds ->] | [Dt ->]].
    + rewrite Ds. unfold all_dots at 1. rewrite existsb_non_dot_png.
      cbn [negb]. split; [reflexivity|].
      intros E. symmetry in E. now apply app_png_neq in E.
    + rewrite Dt. unfold all_dots at 1. rewrite existsb_non_dot_png.
      cbn [negb]. split; [reflexivity|]. apply app_png_neq.
Qed.

Lemma container_collision_witness :
  imageset_dir (lit "..png") = imageset_dir (lit "..png.png")
  /\ lit "..png" <> lit "..png.png".
Proof.
  apply (proj2 (@container_collision (lit ".") (lit "..png")
                  ltac:(vm_compute; intuition discriminate)
                  ltac:(vm_compute; intuition discriminate))).
  left. split; reflexivity.
Defined.

(* --------------------------------------------------------------------- *)
(** *** [os.makedirs] with [exist_ok=True] *)

Lemma fallible_run (w : world) :
  fallible w
  = match faults w (clock w) with
    | Some _ => (Raise OSError_, tick w)
    | None => (Ok tt, tick w)
    end.
Proof.
  unfold fallible, bind, syscall, tick.
  now destruct (faults w (clock w)).
Qed.

Lemma path_exists_run (p : path) (w : world) :
  os_path_exists p w
  = (Ok (match node_at (disk w) p with Some _ => true | None => false end),
     w).
Proof. reflexivity. Qed.


(** On an existing directory, [os.mkdir] raises and the [except] clause
    of [os.makedirs] lets it pass. *)
Lemma mkdir_exist_ok (p : path) (w : world) :
  node_at (disk w) p = Some Dir ->
  catch (os_mkdir p) (exist_ok_handler p) w = (Ok tt, tick w).
Proof.
  intros Hdir. unfold catch, os_mkdir, bind. rewrite fallible_run.
  destruct (faults w (clock w)) as [k|].
  - unfold exist_ok_handler. cbn [is_OSError]. unfold bind.
    rewrite isdir_run. cbn [disk tick]. now rewrite Hdir.
  - unfold get_disk. cbn [disk tick]. rewrite Hdir.
    unfold raise, exist_ok_handler. cbn [is_OSError]. unfold bind.
    rewrite isdir_run. cbn [disk tick]. now rewrite Hdir.
Qed.

Lemma makedirs_rev_unfold (tail : str) (rhead : list str) :
  os_makedirs_rev (tail :: rhead)
  = ((head_exists <- os_path_exists (rev rhead) ;;
      if negb head_exists then
        catch (os_makedirs_rev rhead)
              (fun e => match e with
                        | FileExistsError => ret tt
                        | _ => raise e
                        end)
      else ret tt) ;;
     catch (os_mkdir (rev (tail :: rhead)))
           (exist_ok_handler (rev (tail :: rhead))))%stmt.
Proof. reflexivity. Qed.

Lemma makedirs_rev_nil :
  os_makedirs_rev [] = (ret tt ;; catch (os_mkdir []) (exist_ok_handler []))%stmt.
Proof. reflexivity. Qed.

(** X4. [os.makedirs(name, exist_ok=True)] on a directory that is already
    there, under an existing parent, returns normally and leaves the disk
    as it is, even when the system call fails: the error of [os.mkdir]
    is dropped because the directory exists. *)
Theorem makedirs_existing (name : path) (w : world) :
  node_at (disk w) name = Some Dir ->
  node_at (disk w) (dirname name) <> None ->
  os_makedirs name w = (Ok tt, tick w).
Proof.
  intros Hdir Hparent. unfold os_makedirs.
  destruct (rev name) as [|tail rhead] eqn:Er.
  - assert (name = []) as ->.
    { apply (f_equal (@rev str)) in Er. now rewrite rev_involutive in Er. }
    rewrite makedirs_rev_nil. unfold bind at 1. cbn [ret].
    now apply mkdir_exist_ok.
  - assert (En : rev (tail :: rhead) = name)
      by (rewrite <- Er; apply rev_involutive).
    assert (Eh : rev rhead = dirname name).
    { rewrite <- En. cbn [rev]. unfold dirname.
      now rewrite removelast_last. }
    rewrite makedirs_rev_unfold, En, Eh. unfold bind at 1.
    unfold bind at 1. rewrite path_exists_run.
    destruct (node_at (disk w) (dirname name)); [|contradiction].
    cbn [negb ret]. now apply mkdir_exist_ok.
Qed.

Lemma makedirs_existing_witness :
  os_makedirs dest_root three_icons_done = (Ok tt, tick three_icons_done)
  /\ os_makedirs dest_root
       (World (disk three_icons_done) 0 (fun _ => Some 0) [] [])
     = (Ok tt, tick (World (disk three_icons_done) 0 (fun _ => Some 0) [] [])).
Proof.
  split; apply makedirs_existing; vm_compute; (reflexivity || discriminate).
Defined.

(** [os.makedirs] builds the whole chain when nothing but directories is
    in the way and no system call fails. *)
Lemma makedirs_rev_succeeds (rname : list str) (w : world) :
  (forall n, faults w n = None) ->
  (forall q, q <> [] -> is_prefix q (rev rname) ->
             node_at (disk w) q = None \/ node_at (disk w) q = Some Dir) ->
  exists w',
    os_makedirs_rev rname w = (Ok tt, w')
    /\ faults w' = faults w
    /\ node_at (disk w') (rev rname) = Some Dir
    /\ forall p, node_at (disk w) p <> None ->
                 node_at (disk w') p = node_at (disk w) p.
Proof.
  revert w. induction rname as [|tail rhead IH]; intros w Hf Hq.
  - rewrite makedirs_rev_nil. unfold bind at 1. cbn [ret].
    rewrite mkdir_exist_ok by reflexivity.
    exists (tick w). repeat split; auto.
  - set (name := rev (tail :: rhead)).
    assert (Hhead : is_prefix (rev rhead) name) by (now exists [tail]).
    assert (Hlen : length (rev rhead) < length name).
    { unfold name. cbn [rev]. rewrite length_app. simpl. lia. }
    (* the part before the final [mkdir] *)
    assert (Hfirst : exists w1,
               (head_exists <- os_path_exists (rev rhead) ;;
                if negb head_exists then
                  catch (os_makedirs_rev rhead)
                        (fun e => match e with
                                  | FileExistsError => ret tt
                                  | _ => raise e
                                  end)
                else ret tt)%stmt w = (Ok tt, w1)
               /\ faults w1 = faults w
               /\ node_at (disk w1) (rev rhead) = Some Dir
               /\ node_at (disk w1) name = node_at (disk w) name
               /\ forall p, node_at (disk w) p <> None ->
                            node_at (disk w1) p = node_at (disk w) p).
    { unfold bind at 1. rewrite path_exists_run.
      destruct (node_at (disk w) (rev rhead)) as [n|] eqn:Eh; cbn [negb].
      - exists w. split; [reflexivity|]. split; [reflexivity|].
        split; [|split; [reflexivity | auto]].
        destruct (list_eq_dec str_dec (rev rhead) []) as [E0 | Hne].
        + rewrite E0. reflexivity.
        + destruct (Hq (rev rhead) Hne Hhead) as [H | H]; congruence.
      - destruct (IH w Hf) as (w1 & E1 & F1 & D1 & K1).
        { intros q Hne Hpre. apply Hq; [exact Hne|].
          eapply is_prefix_trans; eassumption. }
        exists w1. unfold catch. rewrite E1.
        split; [reflexivity|]. split; [exact F1|]. split; [exact D1|].
        split; [|exact K1].
        assert (C : confined (fun e => length (event_path e) < length name)
                             (os_makedirs_rev rhead)).
        { apply confined_makedirs_rev. intros q _ Hpre. cbn [event_path].
          apply is_prefix_length in Hpre. lia. }
        destruct (C _ _ _ E1) as (evs & (_ & -> & _) & F).
        apply node_at_replay_other. eapply Forall_impl; [|exact F].
        intros e He E. cbv beta in He. rewrite E in He. lia. }
    destruct Hfirst as (w1 & E1 & F1 & Dh & Dn & K1).
    rewrite makedirs_rev_unfold. fold name. unfold bind at 1. rewrite E1.
    assert (Hname : node_at (disk w1) name = None
                    \/ node_at (disk w1) name = Some Dir).
    { rewrite Dn. apply Hq; [|apply is_prefix_refl].
      unfold name. cbn [rev]. destruct (rev rhead); discriminate. }
    destruct Hname as [Hn | Hn].
    + assert (Em : os_mkdir name w1
                   = emit (Mkdir name) (tick w1)).
      { unfold os_mkdir, bind. rewrite fallible_run, F1, Hf.
        unfold get_disk. cbn [disk tick]. rewrite Hn.
        assert (Ed : dirname name = rev rhead).
        { unfold name. cbn [rev]. unfold dirname.
          now rewrite removelast_last. }
        now rewrite Ed, Dh. }
      unfold catch. rewrite Em. unfold emit. cbn [disk tick faults].
      eexists. split; [reflexivity|]. cbn [disk faults apply_event].
      assert (Hne : name <> []).
      { intros E. rewrite E in Hn. discriminate Hn. }
      split; [exact F1|]. split; [now apply node_at_put_same|].
      intros p Hp. rewrite node_at_put_other.
      * now apply K1.
      * intros ->. apply Hp. now rewrite <- Dn.
    + rewrite mkdir_exist_ok by exact Hn.
      exists (tick w1). cbn [disk tick faults].
      split; [reflexivity|]. auto.
Qed.

(** X5. When no system call fails and every path on the way to [name] is
    absent or a directory, [os.makedirs(name, exist_ok=True)] returns
    normally, [name] is a directory afterwards, and nothing that existed
    before has changed. *)
Theorem makedirs_creates (name : path) (w : world) :
  (forall n, faults w n = None) ->
  (forall q, q <> [] -> is_prefix q name ->
             node_at (disk w) q = None \/ node_at (disk w) q = Some Dir) ->
  exists w',
    os_makedirs name w = (Ok tt, w')
    /\ node_at (disk w') name = Some Dir
    /\ forall p, node_at (disk w) p <> None ->
                 node_at (disk w') p = node_at (disk w) p.
Proof.
  intros Hf Hq. unfold os_makedirs.
  destruct (@makedirs_rev_succeeds (rev name) w Hf) as (w' & E & _ & D & K).
  - now rewrite rev_involutive.
  - rewrite rev_involutive in D. now exists w'.
Qed.

Lemma prefix_in_ancestors (p q : path) :
  q <> [] -> is_prefix q p -> In q (ancestors p).
Proof.
  revert q. induction p as [|c p IH]; intros q Hq [l Hl].
  - destruct q; [contradiction | discriminate].
  - destruct q as [|c' q]; [contradiction|]. injection Hl as <- Hl.
    cbn [ancestors]. destruct q as [|c'' q]; [now left|].
    right. apply in_map. apply IH; [discriminate | now exists l].
Qed.

Lemma makedirs_creates_witness :
  exists w',
    os_makedirs dest_root three_icons = (Ok tt, w')
    /\ node_at (disk w') dest_root = Some Dir
    /\ node_at (disk w') source_dir = Some Dir.
Proof.
  assert (F : Forall (fun q => node_at (disk three_icons) q = None
                               \/ node_at (disk three_icons) q = Some Dir)
                     (ancestors dest_root)).
  { apply Forall_forall. intros q Hin. vm_compute in Hin.
    repeat (destruct Hin as [<- | Hin]; [vm_compute; auto|]).
    contradiction. }
  destruct (@makedirs_creates dest_root three_icons) as (w' & E & D & K).
  - reflexivity.
  - intros q Hq Hpre. rewrite Forall_forall in F. apply F.
    now apply prefix_in_ancestors.
  - exists w'. split; [exact E|]. split; [exact D|].
    rewrite K; vm_compute; (reflexivity || discriminate).
Defined.

(* --------------------------------------------------------------------- *)
(** *** Something already stands where the iteration writes *)

Lemma makedirs_imageset_dir (f : str) (w : world) :
  node_at (disk w) dest_root <> None ->
  os_makedirs (imageset_dir f) w
  = catch (os_mkdir (imageset_dir f)) (exist_ok_handler (imageset_dir f)) w.
Proof.
  intros Hroot. unfold os_makedirs, imageset_dir, os_path_join.
  rewrite rev_app_distr. cbn [rev app]. rewrite makedirs_rev_unfold.
  cbn [rev]. rewrite rev_involutive. unfold bind at 1. unfold bind at 1.
  rewrite path_exists_run.
  destruct (node_at (disk w) dest_root); [reflexivity | contradiction].
Qed.

Lemma loop_body_unfold (f : str) :
  processed f = true ->
  loop_body f
  = (os_makedirs (imageset_dir f) ;;
     _ <- shutil_copy (source_path f) (copy_path f) ;;
     open_w (descriptor_path f) ;;
     json_dump (get_1x_contents_json f) (descriptor_path f) 2)%stmt.
Proof.
  intros Hp. unfold loop_body. apply processed_iff, str_eqb_neq in Hp.
  now rewrite Hp.
Qed.

(** X6. When the destination root exists and the path of the container
    of a processed candidate is taken by a regular file, the iteration
    raises at once, [FileExistsError] or the error of the failed system
    call, and the disk is as it was: nothing is copied, nothing
    written. *)
Theorem container_is_a_file (f : str) (w : world) (d : bytes) :
  processed f = true ->
  node_at (disk w) dest_root <> None ->
  node_at (disk w) (imageset_dir f) = Some (File d) ->
  exists e,
    loop_body f w = (Raise e, tick w)
    /\ (e = FileExistsError \/ e = OSError_).
Proof.
  intros Hp Hroot Hfile. rewrite (@loop_body_unfold f Hp). unfold bind at 1.
  rewrite (@makedirs_imageset_dir f w Hroot).
  unfold catch, os_mkdir, bind. rewrite fallible_run.
  destruct (faults w (clock w)) as [k|].
  - exists OSError_. unfold exist_ok_handler. cbn [is_OSError].
    unfold bind. rewrite isdir_run. cbn [disk tick]. rewrite Hfile.
    cbn [negb]. split; [reflexivity | now right].
  - exists FileExistsError. unfold get_disk. cbn [disk tick].
    rewrite Hfile. unfold raise, exist_ok_handler. cbn [is_OSError].
    unfold bind. rewrite isdir_run. cbn [disk tick]. rewrite Hfile.
    cbn [negb]. split; [reflexivity | now left].
Qed.

Lemma container_is_a_file_witness :
  loop_body (lit "sports.png") container_taken
  = (Raise FileExistsError, tick container_taken)
  /\ fst (main container_taken) = Raise FileExistsError.
Proof.
  destruct (@container_is_a_file (lit "sports.png") container_taken [])
    as (e & He & _).
  - reflexivity.
  - vm_compute. discriminate.
  - vm_compute. reflexivity.
  - split; vm_compute; reflexivity.
Defined.

(** X7. When [Contents.json] in the container of a candidate is a
    directory, the iteration cannot end normally: once the container has
    been ensured and the file copied, opening the descriptor raises
    [IsADirectoryError] (or the error of the failed system call).  The
    copy stays where it was made and the directory stays a directory: the
    container is left with the image and without a descriptor. *)
Theorem descriptor_is_a_directory (f : str) (w w1 w2 : world) (dst : path) :
  processed f = true ->
  endswith f (lit ".png") = true ->
  node_at (disk w) (descriptor_path f) = Some Dir ->
  os_makedirs (imageset_dir f) w = (Ok tt, w1) ->
  shutil_copy (source_path f) (copy_path f) w1 = (Ok dst, w2) ->
  exists e data,
    loop_body f w = (Raise e, tick w2)
    /\ (e = IsADirectoryError \/ e = OSError_)
    /\ node_at (disk w) (source_path f) = Some (File data)
    /\ node_at (disk w2) dst = Some (File data)
    /\ node_at (disk w2) (descriptor_path f) = Some Dir.
Proof.
  intros Hp Hpng Hdir Em Ec.
  pose proof (candidate_not_contents Hpng) as Hnc.
  assert (Gm : grows (body_event f) w w1).
  { eapply confined_makedirs; [|exact Em].
    intros q Hq Hpre. left. now exists q. }
  assert (Hdir1 : node_at (disk w1) (descriptor_path f) = Some Dir).
  { assert (Cm : confined (fun e => is_file_event e = false)
                          (os_makedirs (imageset_dir f))).
    { apply confined_makedirs. reflexivity. }
    destruct (Cm _ _ _ Em) as (evs & (_ & -> & _) & F).
    apply dir_replay; [exact Hdir|]. eapply Forall_impl; [|exact F].
    intros e He Hfile. cbv beta in He. congruence. }
  destruct (@copy_ok (source_path f) (copy_path f) dst w1 w2 Ec)
    as (-> & data & Hdata & Sc).
  assert (Hsrc : node_at (disk w1) (source_path f)
                 = node_at (disk w) (source_path f)).
  { destruct (grows_source_kept (@body_event_dest_side f) Gm) as [_ H].
    apply (H [f]). }
  rewrite Hsrc in Hdata.
  set (dst := copy_target (disk w1) (source_path f) (copy_path f)) in *.
  assert (Hne : dst <> descriptor_path f)
    by (apply copy_target_not_descriptor; exact Hnc).
  assert (Hdir2 : node_at (disk w2) (descriptor_path f) = Some Dir).
  { destruct Sc as (_ & -> & _). rewrite node_at_replay_other; [exact Hdir1|].
    repeat constructor; cbn [event_path]; exact Hne. }
  assert (Hcopy : node_at (disk w2) dst = Some (File data)).
  { destruct Sc as (_ & -> & _). apply node_at_written.
    apply copy_target_not_nil. }
  assert (Eo : exists e,
             open_w (descriptor_path f) w2 = (Raise e, tick w2)
             /\ (e = IsADirectoryError \/ e = OSError_)).
  { unfold open_w, bind. rewrite fallible_run.
    destruct (faults w2 (clock w2)) as [k|].
    - exists OSError_. split; [reflexivity | now right].
    - exists IsADirectoryError. unfold get_disk. cbn [disk tick].
      rewrite Hdir2. split; [reflexivity | now left]. }
  destruct Eo as (e & Eo & He).
  exists e, data. split; [|auto].
  rewrite (@loop_body_unfold f Hp). unfold bind. rewrite Em, Ec, Eo.
  reflexivity.
Qed.

Lemma descriptor_is_a_directory_witness :
  let f := lit "sports.png" in
  let w1 := snd (os_makedirs (imageset_dir f) descriptor_taken) in
  let w2 := snd (shutil_copy (source_path f) (copy_path f) w1) in
  loop_body f descriptor_taken = (Raise IsADirectoryError, tick w2)
  /\ node_at (disk w2) (copy_path f) = Some (File [137; 80; 78; 71]%N)
  /\ node_at (disk w2) (descriptor_path f) = Some Dir.
Proof.
  intros f w1 w2.
  destruct (@descriptor_is_a_directory f descriptor_taken w1 w2 (copy_path f))
    as (e & data & Hrun & _ & Hsrc & Hcopy & Hdir).
  - reflexivity.
  - reflexivity.
  - vm_compute. reflexivity.
  - vm_compute. reflexivity.
  - vm_compute. reflexivity.
  - split; [vm_compute; reflexivity|]. split; [|exact Hdir].
    vm_compute in Hsrc. injection Hsrc as <-. exact Hcopy.
Defined.

(* --------------------------------------------------------------------- *)
(** *** A directory where the copy should go *)

Lemma body_event_at_depth_14 (g : str) (e : event) :
  body_event g e ->
  length (event_path e) = 14 ->
  event_path e = nested_copy_path g.
Proof.
  intros [(q & -> & _ & Hq) | (Hf & [E | [E | E]])] L.
  - simpl in L. apply is_prefix_length in Hq.
    rewrite length_imageset_dir in Hq. lia.
  - rewrite E, length_copy_path in L. discriminate L.
  - exact E.
  - rewrite E, length_descriptor_path in L. discriminate L.
Qed.

Lemma loop_keeps_nested (l : list str) (f : str) (w w' : world)
      (r : result unit) :
  for_each l loop_body w = (r, w') ->
  ~ In f l ->
  node_at (disk w') (nested_copy_path f) = node_at (disk w) (nested_copy_path f).
Proof.
  intros E Hnin. apply loop_confined in E.
  destruct E as (evs & (_ & -> & _) & F).
  apply node_at_replay_other. eapply Forall_impl; [|exact F].
  intros e (g & Hg & _ & He) Hpath.
  assert (L : length (event_path e) = 14)
    by now rewrite Hpath, length_nested_copy_path.
  rewrite (body_event_at_depth_14 He L) in Hpath.
  apply nested_copy_path_inj in Hpath. subst g. contradiction.
Qed.

(** An iteration that ends normally leaves a directory at the place of a
    copy a directory: the copy goes below it. *)
Lemma iteration_keeps_copy_dir (f g : str) (w w' : world) :
  loop_body g w = (Ok tt, w') ->
  f <> lit "Contents.json" ->
  node_at (disk w) (copy_path f) = Some Dir ->
  node_at (disk w') (copy_path f) = Some Dir.
Proof.
  intros E Hf Hdir. destruct (processed g) eqn:Hp.
  - destruct (@iteration_ok g w w' Hp E) as (mk & data & S & Fm & _).
    cbv zeta in S. destruct S as (_ & -> & _).
    rewrite node_at_replay_other; [exact Hdir|].
    apply Forall_app. split.
    + eapply Forall_impl; [|exact Fm]. intros e (q & -> & _ & Hq).
      cbn [event_path]. apply path_length_neq.
      apply is_prefix_length in Hq. rewrite length_imageset_dir in Hq.
      rewrite length_copy_path. lia.
    + assert (Hdst : copy_target (disk w) (source_path g) (copy_path g)
                     <> copy_path f).
      { unfold copy_target. rewrite basename_source_path.
        destruct (list_eq_dec N.eq_dec g f) as [-> | Hne].
        - rewrite Hdir. apply path_length_neq.
          fold (nested_copy_path f).
          rewrite length_nested_copy_path, length_copy_path. lia.
        - destruct (node_at (disk w) (copy_path g)) as [[?|]|];
            try (intros H; now apply copy_path_inj in H).
          apply path_length_neq. fold (nested_copy_path g).
          rewrite length_nested_copy_path, length_copy_path. lia. }
      assert (Hdp : descriptor_path g <> copy_path f).
      { intros H. symmetry in H.
        exact (@copy_path_not_descriptor f g Hf H). }
      repeat constructor; cbn [event_path]; assumption.
  - rewrite (loop_body_skip _ Hp) in E. now injection E as <-.
Qed.

Lemma loop_keeps_copy_dir (l : list str) (f : str) (w w' : world) :
  for_each l loop_body w = (Ok tt, w') ->
  f <> lit "Contents.json" ->
  node_at (disk w) (copy_path f) = Some Dir ->
  node_at (disk w') (copy_path f) = Some Dir.
Proof.
  revert w. induction l as [|g l IH]; intros w E Hf Hdir.
  - now injection E as <-.
  - cbn [for_each] in E. apply bind_ok in E.
    destruct E as ([] & w1 & Eb & E). eapply IH; [exact E | exact Hf|].
    eapply iteration_keeps_copy_dir; eassumption.
Qed.

(** X8. When the run completes and, before it, a directory stood in the
    container of a processed candidate [f] under the very name [f], the
    directory is still there afterwards and the copy is below it, at
    [<base-name>.imageset/f/f], with the bytes of the source file. *)
Theorem copy_below_directory (w w' : world) (f : str) :
  main w = (Ok tt, w') ->
  In f (candidates w) ->
  processed f = true ->
  node_at (disk w) (copy_path f) = Some Dir ->
  exists data,
    node_at (disk w) (source_path f) = Some (File data)
    /\ node_at (disk w') (copy_path f) = Some Dir
    /\ node_at (disk w') (nested_copy_path f) = Some (File data).
Proof.
  intros Hrun Hc Hp Hdir.
  pose proof (candidate_not_contents (candidates_png _ _ Hc)) as Hnc.
  completed_run Hrun wa wb wc Em El Ef Ep.
  assert (Hdisk : disk w' = disk wc)
    by (unfold print in Ep; now injection Ep as <-).
  rewrite Hdisk. clear Hdisk Ep.
  destruct (@in_last_split str f (candidates w) (list_eq_dec N.eq_dec) Hc)
    as (l1 & l2 & Hsplit & Hlast).
  rewrite Hsplit in Ef.
  destruct (for_each_ok_split _ _ _ _ _ Ef) as (w1 & w2 & E1 & Eb & E2).
  assert (Hdirb : node_at (disk wb) (copy_path f) = Some Dir).
  { destruct (listdir_ok _ _ El) as ((_ & -> & _) & _). cbn [replay fold_left].
    destruct (root_confined _ Em) as (evs & (_ & -> & _) & F).
    apply dir_replay; [exact Hdir|]. eapply Forall_impl; [|exact F].
    intros e He Hfile. apply root_event_shape in He. destruct He as [He _].
    congruence. }
  pose proof (@loop_keeps_copy_dir l1 f wb w1 E1 Hnc Hdirb) as Hdir1.
  assert (G : grows (main_event l1) w w1) by (eapply reach; eassumption).
  destruct (@iteration_ok f w1 w2 Hp Eb)
    as (mk & data & _ & _ & Hdata & _ & _ & Hcopy).
  cbv zeta in Hcopy. specialize (Hcopy Hnc).
  rewrite (@reach_source w w1 l1 f G) in Hdata.
  unfold copy_target in Hcopy. rewrite Hdir1, basename_source_path in Hcopy.
  fold (nested_copy_path f) in Hcopy.
  exists data. split; [exact Hdata|]. split.
  - eapply loop_keeps_copy_dir; [exact E2 | exact Hnc|].
    eapply iteration_keeps_copy_dir; eassumption.
  - rewrite (@loop_keeps_nested l2 f w2 wc (Ok tt) E2 Hlast). exact Hcopy.
Qed.

Lemma copy_below_directory_witness :
  main copy_place_taken = (Ok tt, snd (main copy_place_taken))
  /\ node_at (disk (snd (main copy_place_taken)))
             (copy_path (lit "sports.png")) = Some Dir
  /\ node_at (disk (snd (main copy_place_taken)))
             (nested_copy_path (lit "sports.png"))
     = Some (File [137; 80; 78; 71]%N).
Proof.
  assert (Hrun : main copy_place_taken = (Ok tt, snd (main copy_place_taken)))
    by (vm_compute; reflexivity).
  destruct (@copy_below_directory copy_place_taken
              (snd (main copy_place_taken)) (lit "sports.png") Hrun)
    as (data & Hsrc & Hdir & Hcopy).
  - vm_compute. auto.
  - reflexivity.
  - vm_compute. reflexivity.
  - split; [exact Hrun|]. split; [exact Hdir|].
    vm_compute in Hsrc. injection Hsrc as <-. exact Hcopy.
Defined.

(* --------------------------------------------------------------------- *)
(** *** What [json.dump] writes *)

Lemma digits_ascii (d : Decimal.uint) : Forall is_ascii (digits_of_uint d).
Proof.
  induction d; cbn [digits_of_uint]; constructor; try assumption;
    unfold is_ascii; lia.
Qed.

Lemma str_of_int_ascii (z : Z) : Forall is_ascii (str_of_int z).
Proof.
  unfold str_of_int. destruct (Z.to_int z) as [d | d].
  - apply digits_ascii.
  - constructor; [unfold is_ascii; lia | apply digits_ascii].
Qed.

Lemma newline_indent_ascii (indent level : nat) :
  Forall is_ascii (newline_indent indent level).
Proof.
  unfold newline_indent. constructor; [unfold is_ascii; lia|].
  apply Forall_forall. intros x Hx. apply repeat_spec in Hx. subst x.
  unfold is_ascii. lia.
Qed.

Lemma iterencode_ascii (indent : nat) :
  forall (v : value) (level : nat),
    Forall is_ascii (iterencode indent v level).
Proof.
  fix IH 1. intros [s | z | items | items] level; cbn [iterencode].
  - apply encode_basestring_ascii_ascii.
  - apply str_of_int_ascii.
  - destruct items as [|first rest]; [now apply lit_ascii|].
    apply Forall_app. split; [now apply lit_ascii|].
    apply Forall_app. split; [apply newline_indent_ascii|].
    apply Forall_app. split; [apply IH|].
    apply Forall_app. split.
    + induction rest as [|x rest IHr]; [constructor|].
      constructor; [unfold is_ascii; lia|].
      apply Forall_app. split; [apply newline_indent_ascii|].
      apply Forall_app. split; [apply IH | exact IHr].
    + apply Forall_app. split;
        [apply newline_indent_ascii | now apply lit_ascii].
  - destruct items as [|[k first] rest]; [now apply lit_ascii|].
    apply Forall_app. split; [now apply lit_ascii|].
    apply Forall_app. split; [apply newline_indent_ascii|].
    apply Forall_app. split; [apply encode_basestring_ascii_ascii|].
    apply Forall_app. split; [now apply lit_ascii|].
    apply Forall_app. split; [apply IH|].
    apply Forall_app. split.
    + induction rest as [|[k' x] rest IHr]; [constructor|].
      constructor; [unfold is_ascii; lia|].
      apply Forall_app. split; [apply newline_indent_ascii|].
      apply Forall_app. split; [apply encode_basestring_ascii_ascii|].
      apply Forall_app. split; [now apply lit_ascii|].
      apply Forall_app. split; [apply IH | exact IHr].
    + apply Forall_app. split;
        [apply newline_indent_ascii | now apply lit_ascii].
Qed.

(** X9. Whatever the document and the indentation, the text [json.dump]
    produces is plain ASCII (every character that is not is escaped), so
    it is its own UTF-8 encoding and [json.dump] never raises
    [UnicodeEncodeError]. *)
Theorem json_dump_is_ascii (obj : value) (indent : nat) :
  Forall is_ascii (dumps obj indent)
  /\ Codec.utf8 (dumps obj indent) = Some (dumps obj indent)
  /\ forall fp w,
       json_dump obj fp indent w = write fp (dumps obj indent) w
       /\ fst (json_dump obj fp indent w) <> Raise UnicodeEncodeError.
Proof.
  assert (H : Forall is_ascii (dumps obj indent))
    by apply iterencode_ascii.
  split; [exact H|]. split; [now apply utf8_ascii|].
  intros fp w. unfold json_dump. rewrite (utf8_ascii H).
  split; [reflexivity|].
  unfold write, bind, syscall. destruct (faults w (clock w)); discriminate.
Qed.

(* --------------------------------------------------------------------- *)
(** *** The descriptor determines the file name *)

Lemma encode_flat_map (s : str) :
  encode_basestring_ascii s = 34%N :: flat_map encode_char s ++ [34%N].
Proof. reflexivity. Qed.

Lemma flat_map_encode_inj (s t rest : str) :
  Forall (fun c => is_name_char c = true) s ->
  Forall (fun c => is_name_char c = true) t ->
  length (flat_map encode_char s) = length (flat_map encode_char t) ->
  flat_map encode_char s ++ rest = flat_map encode_char t ++ rest ->
  s = t.
Proof.
  intros Hs Ht L E. apply app_same_length_inv in E; [|exact L].
  destruct E as [E _]. clear L rest. revert t Ht E.
  induction Hs as [|c s Hc _ IH]; intros t Ht E.
  - destruct Ht as [|d t Hd _]; [reflexivity|].
    cbn [flat_map] in E. apply (f_equal read_char) in E.
    rewrite (@read_encode_char d _ Hd) in E. discriminate E.
  - destruct Ht as [|d t Hd Ht].
    + cbn [flat_map] in E. apply (f_equal read_char) in E.
      rewrite (@read_encode_char c _ Hc) in E. discriminate E.
    + cbn [flat_map] in E. apply (f_equal read_char) in E.
      rewrite (@read_encode_char c _ Hc), (@read_encode_char d _ Hd) in E.
      injection E as -> E. f_equal. now apply IH.
Qed.

(** A text that starts with the encoded name determines the name. *)
Lemma encoding_inj (after f g : str) :
  Forall (fun c => is_name_char c = true) f ->
  Forall (fun c => is_name_char c = true) g ->
  encode_basestring_ascii f ++ after = encode_basestring_ascii g ++ after ->
  f = g.
Proof.
  intros Hf Hg E.
  assert (L : length (flat_map encode_char f)
              = length (flat_map encode_char g)).
  { apply (f_equal (@length N)) in E.
    rewrite !encode_flat_map in E.
    repeat (rewrite ?length_app in E; cbn [app length] in E). lia. }
  rewrite !encode_flat_map in E. cbn [app] in E. injection E as E.
  rewrite <- !app_assoc in E.
  eapply flat_map_encode_inj; eassumption.
Qed.

Ltac same_document E :=
  unfold dumps in E; cbn [iterencode] in E;
  rewrite <- !app_assoc in E;
  repeat (apply app_inv_head in E).

(** The hypothesis on the characters cannot be dropped: a high surrogate
    followed by a low one is escaped like the character the pair stands
    for. *)
Lemma surrogate_pair_same_document :
  [55357%N; 56832%N] <> [128512%N]
  /\ dumps (get_1x_contents_json [55357%N; 56832%N]) 2
     = dumps (get_1x_contents_json [128512%N]) 2.
Proof. split; [discriminate | reflexivity]. Qed.

(** X10.  The document names the file: for two different names made of
    the characters a directory listing can hold, each of the four
    builders gives documents that [json.dump] serializes to different
    texts, at every indentation. *)
Theorem distinct_names_distinct_documents (f g : str) (indent : nat) :
  Forall (fun c => is_name_char c = true) f ->
  Forall (fun c => is_name_char c = true) g ->
  f <> g ->
  dumps (get_1x_contents_json f) indent
    <> dumps (get_1x_contents_json g) indent
  /\ dumps (get_contents_json f) indent
       <> dumps (get_contents_json g) indent
  /\ dumps (get_simple_contents_json f) indent
       <> dumps (get_simple_contents_json g) indent
  /\ dumps (get_single_scale_contents_json f) indent
       <> dumps (get_single_scale_contents_json g) indent.
Proof.
  intros Hf Hg Hne.
  split; [|split; [|split]]; intros E; apply Hne.
  - unfold get_1x_contents_json in E. same_document E.
    eapply encoding_inj; eassumption.
  - unfold get_contents_json in E. same_document E.
    eapply encoding_inj; eassumption.
  - unfold get_simple_contents_json in E. same_document E.
    eapply encoding_inj; eassumption.
  - unfold get_single_scale_contents_json in E. same_document E.
    eapply encoding_inj; eassumption.
Qed.

Lemma distinct_names_distinct_documents_witness :
  Forall (fun c => is_name_char c = true) (lit "run.png")
  /\ Forall (fun c => is_name_char c = true)
            [114; 252; 110; 46; 112; 110; 103]%N
  /\ lit "run.png" <> [114; 252; 110; 46; 112; 110; 103]%N
  /\ dumps (get_1x_contents_json (lit "run.png")) 2
     <> dumps (get_1x_contents_json [114; 252; 110; 46; 112; 110; 103]%N) 2.
Proof.
  assert (Hf : Forall (fun c => is_name_char c = true) (lit "run.png"))
    by (repeat constructor).
  assert (Hg : Forall (fun c => is_name_char c = true)
                      [114; 252; 110; 46; 112; 110; 103]%N)
    by (repeat constructor).
  assert (Hne : lit "run.png" <> [114; 252; 110; 46; 112; 110; 103]%N)
    by discriminate.
  split; [exact Hf|]. split; [exact Hg|]. split; [exact Hne|].
  exact (proj1 (@distinct_names_distinct_documents
                  (lit "run.png") [114; 252; 110; 46; 112; 110; 103]%N 2
                  Hf Hg Hne)).
Defined.

(* --------------------------------------------------------------------- *)
(** *** When nothing is in the way, the run completes *)






























(* --------------------------------------------------------------------- *)
(** *** What a run leaves as it is *)

Lemma keeps_refl (W : path -> Prop) (s : store) : keeps W s s.
Proof. intros p _. split; reflexivity. Qed.

Lemma kind_none (n : option node) : kind n = None <-> n = None.
Proof. destruct n as [[d|]|]; split; (reflexivity || discriminate). Qed.

Lemma keeps_trans (W : path -> Prop) (s s1 s2 : store) :
  keeps W s s1 -> keeps W s1 s2 -> keeps W s s2.
Proof.
  intros H1 H2 p Hp. destruct (H1 p Hp) as [K1 E1].
  assert (Hp1 : node_at s1 p <> None).
  { intros E. apply Hp. apply kind_none. rewrite <- K1. now apply kind_none. }
  destruct (H2 p Hp1) as [K2 E2]. split.
  - now rewrite K2.
  - intros Hn. now rewrite E2, E1.
Qed.

Lemma keeps_weaken (W V : path -> Prop) (s s' : store) :
  (forall p, W p -> V p) -> keeps W s s' -> keeps V s s'.
Proof.
  intros HW H p Hp. destruct (H p Hp) as [K E]. split; [exact K|].
  intros Hn. apply E. intros Hw. now apply Hn, HW.
Qed.

Lemma keeps_put_new (W : path -> Prop) (s : store) (q : path) (v : node) :
  node_at s q = None -> keeps W s (put q v s).
Proof.
  intros Hq p Hp.
  assert (Hne : p <> q) by congruence.
  rewrite (node_at_put_other v s Hne). split; reflexivity.
Qed.

Lemma keeps_put_file (W : path -> Prop) (s : store) (q : path)
      (old new : bytes) :
  W q -> node_at s q = Some (File old) -> keeps W s (put q (File new) s).
Proof.
  intros Hw Hq p Hp.
  destruct (list_eq_dec (list_eq_dec N.eq_dec) p q) as [-> | Hne].
  - split; [|contradiction].
    destruct q as [|c q]; [discriminate Hq|].
    rewrite node_at_put_same by discriminate. now rewrite Hq.
  - rewrite (node_at_put_other (File new) s Hne). split; reflexivity.
Qed.

Lemma careful_weaken (W V : path -> Prop) A (m : M A) :
  (forall p, W p -> V p) -> careful W m -> careful V m.
Proof.
  intros HW H w r w' E. destruct (H w r w' E) as (K & O & X).
  split; [|split]; [eapply keeps_weaken; eassumption | exact O | exact X].
Qed.

Lemma careful_ret (W : path -> Prop) A (a : A) : careful W (ret a).
Proof.
  intros w r w' E. injection E as <- <-.
  split; [apply keeps_refl|]. split; [reflexivity | exact I].
Qed.

Lemma careful_raise (W : path -> Prop) A (e : exn) :
  is_OSError e = true -> careful W (@raise A e).
Proof.
  intros He w r w' E. injection E as <- <-.
  split; [apply keeps_refl|]. split; [reflexivity | exact He].
Qed.

Lemma careful_bind (W : path -> Prop) A B (m : M A) (k : A -> M B) :
  careful W m -> (forall a, careful W (k a)) -> careful W (bind m k).
Proof.
  intros Hm Hk w r w' E. unfold bind in E.
  destruct (m w) as [[a|e] w1] eqn:Em.
  - destruct (Hm _ _ _ Em) as (K1 & O1 & _).
    destruct (Hk a _ _ _ E) as (K2 & O2 & X2).
    split; [eapply keeps_trans; eassumption|].
    split; [now rewrite O2 | exact X2].
  - injection E as <- <-. destruct (Hm _ _ _ Em) as (K1 & O1 & X1).
    split; [exact K1|]. split; [exact O1 | exact X1].
Qed.

Lemma careful_catch (W : path -> Prop) A (m : M A) (h : exn -> M A) :
  careful W m ->
  (forall e, is_OSError e = true -> careful W (h e)) ->
  careful W (catch m h).
Proof.
  intros Hm Hh w r w' E. unfold catch in E.
  destruct (m w) as [[a|e] w1] eqn:Em.
  - injection E as <- <-. exact (Hm _ _ _ Em).
  - destruct (Hm _ _ _ Em) as (K1 & O1 & X1).
    destruct (Hh e X1 _ _ _ E) as (K2 & O2 & X2).
    split; [eapply keeps_trans; eassumption|].
    split; [now rewrite O2 | exact X2].
Qed.

Lemma careful_for_each (W : path -> Prop) A (xs : list A)
      (body : A -> M unit) :
  (forall x, In x xs -> careful W (body x)) -> careful W (for_each xs body).
Proof.
  induction xs as [|x xs IH]; intros H; cbn [for_each].
  - apply careful_ret.
  - apply careful_bind; [apply H; now left|].
    intros _. apply IH. intros y Hy. apply H. now right.
Qed.

Lemma careful_fallible (W : path -> Prop) : careful W fallible.
Proof.
  intros w r w' E. rewrite fallible_run in E.
  destruct (faults w (clock w)); injection E as <- <-;
    (split; [apply keeps_refl|]; split; [reflexivity|]).
  - reflexivity.
  - exact I.
Qed.

Lemma careful_isdir (W : path -> Prop) (p : path) :
  careful W (os_path_isdir p).
Proof.
  intros w r w' E. rewrite isdir_run in E. injection E as <- <-.
  split; [apply keeps_refl|]. split; [reflexivity | exact I].
Qed.

Lemma careful_exists (W : path -> Prop) (p : path) :
  careful W (os_path_exists p).
Proof.
  intros w r w' E. rewrite path_exists_run in E. injection E as <- <-.
  split; [apply keeps_refl|]. split; [reflexivity | exact I].
Qed.

Lemma careful_mkdir (W : path -> Prop) (p : path) : careful W (os_mkdir p).
Proof.
  unfold os_mkdir. apply careful_bind; [apply careful_fallible|].
  intros _ w r w' E. unfold bind, get_disk in E.
  destruct (node_at (disk w) p) as [n|] eqn:Hp.
  - revert E. now apply careful_raise.
  - destruct (node_at (disk w) (dirname p)) as [[d|]|].
    + revert E. now apply careful_raise.
    + injection E as <- <-. cbn [disk stdout apply_event].
      split; [now apply keeps_put_new|]. split; [reflexivity | exact I].
    + revert E. now apply careful_raise.
Qed.

Lemma careful_mkdir_exist_ok (W : path -> Prop) (name : path) :
  careful W (catch (os_mkdir name) (exist_ok_handler name)).
Proof.
  apply careful_catch; [apply careful_mkdir|].
  intros e He. unfold exist_ok_handler. rewrite He.
  apply careful_bind; [apply careful_isdir|].
  intros [|]; cbn [negb]; [apply careful_ret | now apply careful_raise].
Qed.

Lemma careful_makedirs_rev (W : path -> Prop) (rname : list str) :
  careful W (os_makedirs_rev rname).
Proof.
  induction rname as [|tail rhead IH].
  - rewrite makedirs_rev_nil. apply careful_bind; [apply careful_ret|].
    intros _. apply careful_mkdir_exist_ok.
  - rewrite makedirs_rev_unfold.
    apply careful_bind; [|intros _; apply careful_mkdir_exist_ok].
    apply careful_bind; [apply careful_exists|].
    intros [|]; cbn [negb]; [apply careful_ret|].
    apply careful_catch; [exact IH|].
    intros e He. destruct e; try (now apply careful_raise).
    apply careful_ret.
Qed.

Lemma careful_makedirs (W : path -> Prop) (name : path) :
  careful W (os_makedirs name).
Proof. apply careful_makedirs_rev. Qed.

Lemma careful_listdir (W : path -> Prop) (p : path) :
  careful W (os_listdir p).
Proof.
  unfold os_listdir. apply careful_bind; [apply careful_fallible|].
  intros _ w r w' E. unfold bind, get_disk in E.
  destruct (node_at (disk w) p) as [[d|]|]; revert E;
    (apply careful_ret || now apply careful_raise).
Qed.

Lemma careful_read_bytes (W : path -> Prop) (p : path) :
  careful W (read_bytes p).
Proof.
  unfold read_bytes. apply careful_bind; [apply careful_fallible|].
  intros _ w r w' E. unfold bind, get_disk in E.
  destruct (node_at (disk w) p) as [[d|]|]; revert E;
    (apply careful_ret || now apply careful_raise).
Qed.

Lemma careful_open_w (W : path -> Prop) (p : path) :
  W p -> careful W (open_w p).
Proof.
  intros Hw. unfold open_w. apply careful_bind; [apply careful_fallible|].
  intros _ w r w' E. unfold bind, get_disk in E.
  destruct (node_at (disk w) p) as [[old|]|] eqn:Hp.
  - injection E as <- <-. cbn [disk stdout apply_event].
    split; [exact (@keeps_put_file W (disk w) p old [] Hw Hp)|].
    split; [reflexivity | exact I].
  - revert E. now apply careful_raise.
  - destruct (node_at (disk w) (dirname p)) as [[d|]|].
    + revert E. now apply careful_raise.
    + injection E as <- <-. cbn [disk stdout apply_event].
      split; [now apply keeps_put_new|]. split; [reflexivity | exact I].
    + revert E. now apply careful_raise.
Qed.

Lemma keeps_append (W : path -> Prop) (s : store) (p : path) (data : bytes) :
  W p -> keeps W s (apply_event s (Append p data)).
Proof.
  intros Hw. cbn [apply_event].
  destruct (node_at s p) as [[old|]|] eqn:Hp; try apply keeps_refl.
  exact (@keeps_put_file W s p old (old ++ data) Hw Hp).
Qed.

Lemma careful_write (W : path -> Prop) (p : path) (data : bytes) :
  W p -> careful W (write p data).
Proof.
  intros Hw w r w' E. unfold write, bind, syscall in E.
  destruct (faults w (clock w)) as [k|]; injection E as <- <-;
    cbn [disk stdout]; (split; [now apply keeps_append|]);
    (split; [reflexivity|]).
  - reflexivity.
  - exact I.
Qed.

Lemma careful_copyfile (W : path -> Prop) (src dst : path) :
  W dst -> careful W (shutil_copyfile src dst).
Proof.
  intros Hw. unfold shutil_copyfile.
  destruct (path_eqb src dst); [now apply careful_raise|].
  apply careful_bind; [apply careful_read_bytes|]. intros data.
  apply careful_bind; [now apply careful_open_w|]. intros _.
  now apply careful_write.
Qed.

Lemma careful_copy (W : path -> Prop) (src dst : path) :
  W dst -> W (os_path_join dst (basename src)) ->
  careful W (shutil_copy src dst).
Proof.
  intros Hw Hn. unfold shutil_copy.
  apply careful_bind; [apply careful_isdir|]. intros is_dir.
  apply careful_bind; [destruct is_dir; now apply careful_copyfile|].
  intros _. apply careful_bind; [apply careful_fallible|].
  intros _. apply careful_ret.
Qed.

Lemma careful_json_dump (W : path -> Prop) (obj : value) (fp : path)
      (indent : nat) :
  W fp -> careful W (json_dump obj fp indent).
Proof.
  intros Hw. unfold json_dump, dumps.
  rewrite (utf8_ascii (iterencode_ascii indent obj 0)).
  now apply careful_write.
Qed.

Lemma careful_loop_body (f : str) : careful (written f) (loop_body f).
Proof.
  destruct (processed f) eqn:Hp;
    [|rewrite (@loop_body_skip f Hp); apply careful_ret].
  rewrite (@loop_body_unfold f Hp).
  apply careful_bind; [apply careful_makedirs|]. intros _.
  apply careful_bind.
  { apply careful_copy.
    - now left.
    - right. left. now rewrite basename_source_path. }
  intros _. apply careful_bind.
  - apply careful_open_w. right. now right.
  - intros _. apply careful_json_dump. right. now right.
Qed.

Lemma careful_loop (w : world) :
  careful (run_written w) (for_each (candidates w) loop_body).
Proof.
  apply careful_for_each. intros f Hf.
  destruct (processed f) eqn:Hp.
  - eapply careful_weaken; [|apply careful_loop_body].
    intros p Hw. now exists f.
  - rewrite (@loop_body_skip f Hp). apply careful_ret.
Qed.

(** X12.  Whatever the outcome of a run, nothing that was on the disk
    is removed, no directory becomes a file and no file a directory, and
    the only things that change are files at the places the run writes
    to: the copy, the copy below a directory that stands in its place,
    and the descriptor of a processed candidate. *)
Theorem run_changes_only_its_files (w w' : world) (r : result unit)
        (p : path) :
  main w = (r, w') ->
  node_at (disk w) p <> None ->
  kind (node_at (disk w') p) = kind (node_at (disk w) p)
  /\ ((forall f, In f (candidates w) -> processed f = true ->
                 ~ written f p) ->
      node_at (disk w') p = node_at (disk w) p).
Proof.
  intros E Hp.
  assert (K : keeps (run_written w) (disk w) (disk w')).
  { apply main_outcome in E.
    destruct E as [e Em _ | wa e Em El _ | wa wb e Em El Ef _
                  | wa wb wc Em El Ef Ep _].
    - exact (proj1 (@careful_makedirs (run_written w) dest_root _ _ _ Em)).
    - eapply keeps_trans.
      + exact (proj1 (@careful_makedirs (run_written w) dest_root _ _ _ Em)).
      + exact (proj1 (@careful_listdir (run_written w) source_dir _ _ _ El)).
    - eapply keeps_trans; [eapply keeps_trans|].
      + exact (proj1 (@careful_makedirs (run_written w) dest_root _ _ _ Em)).
      + exact (proj1 (@careful_listdir (run_written w) source_dir _ _ _ El)).
      + exact (proj1 (@careful_loop w _ _ _ Ef)).
    - unfold print in Ep. injection Ep as <-. cbn [disk].
      eapply keeps_trans; [eapply keeps_trans|].
      + exact (proj1 (@careful_makedirs (run_written w) dest_root _ _ _ Em)).
      + exact (proj1 (@careful_listdir (run_written w) source_dir _ _ _ El)).
      + exact (proj1 (@careful_loop w _ _ _ Ef)). }
  destruct (K p Hp) as [Hk He]. split; [exact Hk|].
  intros Hn. apply He. intros (f & Hf & Hpf & Hw).
  exact (Hn f Hf Hpf Hw).
Qed.

Lemma run_changes_only_its_files_witness :
  node_at (disk copy_place_taken) (copy_path (lit "sports.png")) <> None
  /\ kind (node_at (disk (snd (main copy_place_taken)))
                   (copy_path (lit "sports.png"))) = Some true.
Proof.
  assert (Hrun : main copy_place_taken
                 = (Ok tt, snd (main copy_place_taken)))
    by (vm_compute; reflexivity).
  assert (Hp : node_at (disk copy_place_taken) (copy_path (lit "sports.png"))
               <> None) by (vm_compute; discriminate).
  split; [exact Hp|].
  destruct (@run_changes_only_its_files copy_place_taken _ _
              (copy_path (lit "sports.png")) Hrun Hp) as [Hk _].
  rewrite Hk. vm_compute. reflexivity.
Defined.

(** X13.  A run that raises has printed nothing, and what it raises is an
    [OSError]: serializing the descriptor never fails on the encoding,
    whatever the file name. *)
Theorem failed_run_is_silent (w w' : world) (e : exn) :
  main w = (Raise e, w') ->
  is_OSError e = true /\ stdout w' = stdout w.
Proof.
  intros E. apply main_outcome in E.
  destruct E as [e0 Em Hr | wa e0 Em El Hr | wa wb e0 Em El Ef Hr
                | wa wb wc Em El Ef Ep Hr].
  - injection Hr as ->.
    destruct (@careful_makedirs (fun _ => True) dest_root _ _ _ Em)
      as (_ & O & X). now split.
  - injection Hr as ->.
    destruct (@careful_makedirs (fun _ => True) dest_root _ _ _ Em)
      as (_ & O1 & _).
    destruct (@careful_listdir (fun _ => True) source_dir _ _ _ El)
      as (_ & O2 & X). split; [exact X | now rewrite O2].
  - injection Hr as ->.
    destruct (@careful_makedirs (fun _ => True) dest_root _ _ _ Em)
      as (_ & O1 & _).
    destruct (@careful_listdir (fun _ => True) source_dir _ _ _ El)
      as (_ & O2 & _).
    destruct (@careful_loop w _ _ _ Ef) as (_ & O3 & X).
    split; [exact X | now rewrite O3, O2].
  - discriminate Hr.
Qed.

Lemma failed_run_is_silent_witness :
  main dotted_icons_disk_full
  = (Raise OSError_, snd (main dotted_icons_disk_full))
  /\ is_OSError OSError_ = true
  /\ stdout (snd (main dotted_icons_disk_full))
     = stdout dotted_icons_disk_full.
Proof.
  assert (Hrun : main dotted_icons_disk_full
                 = (Raise OSError_, snd (main dotted_icons_disk_full)))
    by (vm_compute; reflexivity).
  split; [exact Hrun|].
  exact (@failed_run_is_silent dotted_icons_disk_full _ OSError_ Hrun).
Defined.

(* --------------------------------------------------------------------- *)
(** *** Running the script again *)

(** [os.makedirs] does not fail with [FileExistsError] on a path that is
    not there. *)
Lemma makedirs_rev_not_exists_error (rname : list str) (w w' : world) :
  node_at (disk w) (rev rname) = None ->
  os_makedirs_rev rname w <> (Raise FileExistsError, w').
Proof.
  destruct rname as [|tail rhead]; [discriminate|].
  intros Hn E. rewrite makedirs_rev_unfold in E.
  apply bind_cases in E.
  destruct E as [([] & w1 & E1 & E) | (e & E1 & He)].
  - assert (G : grows (fun e => length (event_path e) <= length rhead) w w1).
    { revert E1. apply confined_bind; [apply confined_exists|].
      intros b. destruct (negb b); [|apply confined_ret].
      apply confined_catch.
      - apply confined_makedirs_rev. intros q _ Hq. cbn [event_path].
        apply is_prefix_length in Hq. now rewrite length_rev in Hq.
      - intros e. destruct e; try apply confined_raise. apply confined_ret. }
    assert (Hn1 : node_at (disk w1) (rev (tail :: rhead)) = None).
    { destruct G as (evs & (_ & -> & _) & F).
      rewrite node_at_replay_other; [exact Hn|].
      eapply Forall_impl; [|exact F]. intros e He. apply path_length_neq.
      cbv beta in He. rewrite length_rev. cbn [length]. lia. }
    unfold catch in E.
    destruct (os_mkdir (rev (tail :: rhead)) w1) as [[[]|e] w2] eqn:Em;
      [discriminate|].
    assert (He : e <> FileExistsError).
    { intros ->. unfold os_mkdir, bind in Em. rewrite fallible_run in Em.
      destruct (faults w1 (clock w1)); [discriminate|].
      unfold get_disk in Em. cbn [disk tick] in Em. rewrite Hn1 in Em.
      destruct (node_at (disk w1) (dirname (rev (tail :: rhead))))
        as [[d|]|]; discriminate. }
    unfold exist_ok_handler in E. destruct (is_OSError e).
    + unfold bind in E. rewrite isdir_run in E.
      destruct (node_at (disk w2) (rev (tail :: rhead))) as [[d|]|];
        cbn [negb] in E; try discriminate;
        injection E as Ee _; now apply He.
    + injection E as Ee _. now apply He.
  - injection He as <-. unfold bind in E1. rewrite path_exists_run in E1.
    destruct (node_at (disk w) (rev rhead)); cbn [negb] in E1;
      [discriminate|].
    unfold catch in E1.
    destruct (os_makedirs_rev rhead w) as [[[]|e] w2]; [discriminate|].
    destruct e; discriminate.
Qed.

(** After [os.makedirs(name)] the parent of [name] is there. *)
Lemma makedirs_parent (name : path) (w w' : world) :
  os_makedirs name w = (Ok tt, w') ->
  node_at (disk w') (dirname name) <> None.
Proof.
  unfold os_makedirs. destruct (rev name) as [|tail rhead] eqn:Er.
  - intros _. apply (f_equal (@rev str)) in Er.
    rewrite rev_involutive in Er. subst name. discriminate.
  - assert (En : rev (tail :: rhead) = name)
      by (rewrite <- Er; apply rev_involutive).
    assert (Eh : rev rhead = dirname name).
    { rewrite <- En. cbn [rev]. unfold dirname. now rewrite removelast_last. }
    rewrite makedirs_rev_unfold, En, Eh. intros E.
    apply bind_ok in E. destruct E as ([] & w1 & E1 & E).
    assert (H1 : node_at (disk w1) (dirname name) <> None).
    { unfold bind in E1. rewrite path_exists_run in E1.
      destruct (node_at (disk w) (dirname name)) as [n|] eqn:Hh;
        cbn [negb] in E1.
      - injection E1 as <-. congruence.
      - unfold catch in E1.
        destruct (os_makedirs_rev rhead w) as [[[]|e] w2] eqn:Erec.
        + injection E1 as <-.
          assert (Hd : node_at (disk w2) (rev rhead) = Some Dir).
          { apply (@makedirs_ok (rev rhead) w w2). unfold os_makedirs.
            now rewrite rev_involutive. }
          rewrite Eh in Hd. congruence.
        + destruct e; try discriminate. exfalso.
          apply (@makedirs_rev_not_exists_error rhead w w2);
            [now rewrite Eh | exact Erec]. }
    destruct (@careful_mkdir_exist_ok (fun _ => True) name _ _ _ E)
      as (K & _). destruct (K _ H1) as [Hk _].
    intros Hn. apply H1. apply kind_none. rewrite <- Hk.
    now apply kind_none.
Qed.

Lemma makedirs_rev_existing (tail : str) (rhead : list str) (w : world) :
  node_at (disk w) (rev (tail :: rhead)) = Some Dir ->
  node_at (disk w) (rev rhead) <> None ->
  os_makedirs_rev (tail :: rhead) w = (Ok tt, tick w).
Proof.
  intros Hdir Hparent. rewrite makedirs_rev_unfold. unfold bind at 1.
  unfold bind at 1. rewrite path_exists_run.
  destruct (node_at (disk w) (rev rhead)); [|contradiction].
  cbn [negb ret]. now apply mkdir_exist_ok.
Qed.

(** An iteration that finds its container and its copy in place changes
    nothing but the descriptor. *)
Lemma body_settled (f : str) (w w' : world) (data : bytes) :
  processed f = true ->
  loop_body f w = (Ok tt, w') ->
  node_at (disk w) dest_root <> None ->
  node_at (disk w) (imageset_dir f) = Some Dir ->
  node_at (disk w) (source_path f) = Some (File data) ->
  node_at (disk w) (copy_path f) = Some (File data) ->
  forall p, p <> descriptor_path f ->
            node_at (disk w') p = node_at (disk w) p.
Proof.
  intros Hp E Hroot Hdir Hsrc Hcopy p Hne.
  rewrite (@loop_body_unfold f Hp) in E.
  apply bind_ok in E. destruct E as ([] & w1 & Em & E).
  rewrite (@makedirs_imageset_dir f w Hroot) in Em.
  rewrite (@mkdir_exist_ok (imageset_dir f) w Hdir) in Em.
  injection Em as <-.
  apply bind_ok in E. destruct E as (dst & w2 & Ec & E).
  apply copy_ok in Ec. destruct Ec as (-> & data' & Hsrc' & S2).
  cbn [disk tick] in Hsrc', S2. unfold copy_target in S2.
  cbn [disk tick] in S2. rewrite Hcopy in S2.
  rewrite Hsrc in Hsrc'. injection Hsrc' as <-.
  apply bind_ok in E. destruct E as ([] & w3 & Eo & E).
  apply open_w_ok in Eo. destruct Eo as (S3 & _).
  apply json_dump_ok in E. destruct E as (bytes' & _ & S4).
  destruct S4 as (_ & -> & _). destruct S3 as (_ & -> & _).
  rewrite node_at_replay_other
    by (apply Forall_cons; [cbn [event_path]; congruence | apply Forall_nil]).
  rewrite node_at_replay_other
    by (apply Forall_cons; [cbn [event_path]; congruence | apply Forall_nil]).
  destruct S2 as (_ & -> & _). cbn [disk tick].
  destruct (list_eq_dec (list_eq_dec N.eq_dec) p (copy_path f)) as [-> | Hc].
  - rewrite node_at_written by apply join_not_nil. now rewrite Hcopy.
  - apply node_at_replay_other.
    apply Forall_cons; [cbn [event_path]; congruence|].
    apply Forall_cons; [cbn [event_path]; congruence | apply Forall_nil].
Qed.

Lemma descriptor_path_basename (f : str) :
  basename (descriptor_path f) = lit "Contents.json".
Proof. apply basename_join. Qed.

(** A loop over entries that find their containers and their copies in
    place changes nothing but descriptors. *)
Lemma loop_settled (l : list str) (w w' : world) :
  for_each l loop_body w = (Ok tt, w') ->
  node_at (disk w) dest_root <> None ->
  (forall f, In f l -> processed f = true ->
     f <> lit "Contents.json"
     /\ node_at (disk w) (imageset_dir f) = Some Dir
     /\ exists data,
          node_at (disk w) (source_path f) = Some (File data)
          /\ node_at (disk w) (copy_path f) = Some (File data)) ->
  forall p, basename p <> lit "Contents.json" ->
            node_at (disk w') p = node_at (disk w) p.
Proof.
  revert w. induction l as [|f l IH]; intros w E Hroot Hset p Hb.
  - now injection E as <-.
  - cbn [for_each] in E. apply bind_ok in E.
    destruct E as ([] & w1 & Eb & E).
    assert (Hstep : forall q, basename q <> lit "Contents.json" ->
                              node_at (disk w1) q = node_at (disk w) q).
    { intros q Hq. destruct (processed f) eqn:Hp.
      - destruct (Hset f (or_introl eq_refl) Hp)
          as (_ & Hdir & data & Hsrc & Hcopy).
        apply (@body_settled f w w1 data Hp Eb Hroot Hdir Hsrc Hcopy).
        intros ->. apply Hq, descriptor_path_basename.
      - rewrite (@loop_body_skip f Hp) in Eb. now injection Eb as <-. }
    rewrite (IH w1 E); [now apply Hstep | | | exact Hb].
    + rewrite Hstep; [exact Hroot|].
      intros Eq. apply contents_not_in_dest_root. rewrite <- Eq.
      apply basename_in; [|apply is_prefix_refl].
      intros Hnil. pose proof length_dest_root as L. rewrite Hnil in L.
      discriminate L.
    + intros g Hg Hpg.
      destruct (Hset g (or_intror Hg) Hpg) as (Hnc & Hdir & data & Hsrc & Hcopy).
      split; [exact Hnc|]. split.
      * rewrite Hstep; [exact Hdir|]. unfold imageset_dir.
        rewrite basename_join. apply imageset_name_not_contents.
      * exists data. split.
        -- rewrite Hstep; [exact Hsrc|]. now rewrite basename_source_path.
        -- rewrite Hstep; [exact Hcopy|]. unfold copy_path.
           now rewrite basename_join.
Qed.

Lemma kind_dir (n : option node) : kind n = Some true <-> n = Some Dir.
Proof. destruct n as [[d|]|]; split; (reflexivity || discriminate). Qed.

Lemma dest_root_not_nil : dest_root <> [].
Proof.
  intros E. pose proof length_dest_root as L. rewrite E in L. discriminate L.
Qed.

(** X14.  Running the script again changes nothing: after a run that
    completed, on a disk where no directory stood in the place of a copy,
    a second run that completes on a disk holding at every path what the
    first run left, and that lists the candidates in the same order or
    finds no two processed candidates in one container, leaves every
    path of the disk as the first run left it, directories, copies and
    descriptors alike. *)
Theorem second_run_changes_nothing (w w1 v w2 : world) :
  main w = (Ok tt, w1) ->
  (forall f, In f (candidates w) -> processed f = true ->
             node_at (disk w) (copy_path f) <> Some Dir) ->
  (forall p, node_at (disk v) p = node_at (disk w1) p) ->
  main v = (Ok tt, w2) ->
  candidates v = candidates w
  \/ (forall f g, In f (candidates w) -> In g (candidates w) ->
                  processed f = true -> processed g = true ->
                  imageset_dir f = imageset_dir g -> f = g) ->
  forall p, node_at (disk w2) p = node_at (disk w1) p.
Proof.
  intros Hrun1 Hfree Hv Hrun2 Hcase p.
  pose proof (@main_effects w w1 (Ok tt) Hrun1) as (evs & _ & D1 & F1).
  assert (Hsrc : forall q, node_at (disk w1) (source_dir ++ q)
                           = node_at (disk w) (source_dir ++ q)).
  { intros q. rewrite D1. apply node_at_replay_other.
    eapply Forall_impl; [|exact F1]. intros e He.
    apply dest_side_source_path. eapply main_event_dest_side, He. }
  assert (Hc : forall f, In f (candidates v) <-> In f (candidates w)).
  { intros f. unfold candidates, png_files, entries.
    rewrite !filter_In, !children_in, Hv.
    unfold os_path_join. now rewrite Hsrc. }
  destruct (str_dec (basename p) (lit "Contents.json")) as [Hb | Hb].
  { apply (@rerun_descriptor w w1 v w2 p Hrun1 Hv Hrun2 Hb).
    destruct Hcase as [-> | Huniq]; [reflexivity|].
    apply last_writer_order; [exact Hc|].
    intros f g If Ig Pf Pg Df Dg. apply (Huniq f g If Ig Pf Pg).
    apply (@descriptor_path_inj g f). now rewrite Df, Dg. }
  assert (Hset : forall f, In f (candidates w) -> processed f = true ->
            f <> lit "Contents.json"
            /\ node_at (disk w1) (imageset_dir f) = Some Dir
            /\ exists data,
                 node_at (disk w1) (source_path f) = Some (File data)
                 /\ node_at (disk w1) (copy_path f) = Some (File data)).
  { intros f Hf Hp.
    pose proof (candidate_not_contents (candidates_png _ _ Hf)) as Hnc.
    destruct (@last_iteration w w1 f Hrun1 Hf Hp)
      as (l1 & l2 & wi & wj & wc & data & Hsplit & Hlast & Eb & E2 & Hd
          & Hdata & Hdir & _ & Hcopy).
    split; [exact Hnc|]. split.
    - rewrite Hd. eapply loop_keeps_dir; [exact E2 | | exact Hdir].
      rewrite length_imageset_dir. lia.
    - exists data. split.
      + unfold source_path, os_path_join. rewrite Hsrc. exact Hdata.
      + rewrite Hd, (@loop_keeps_copy l2 f wj wc (Ok tt) E2 Hlast Hnc).
        exact (Hcopy (Hfree f Hf Hp)). }
  completed_run Hrun1 wa wb wc Em El Ef Ep.
  assert (Hd1 : disk w1 = disk wc)
    by (unfold print in Ep; now injection Ep as <-).
  assert (Hroot : node_at (disk w1) dest_root = Some Dir
                  /\ node_at (disk w1) (dirname dest_root) <> None).
  { pose proof (@makedirs_ok dest_root w wa Em) as Hr.
    pose proof (@makedirs_parent dest_root w wa Em) as Hpar.
    destruct (@careful_listdir (fun _ => True) source_dir _ _ _ El)
      as (K2 & _).
    destruct (@careful_for_each (fun _ => True) _ (candidates w) loop_body)
      with (w := wb) (r := Ok tt) (w' := wc) as (K3 & _); [|exact Ef|].
    { intros f _. eapply careful_weaken; [|apply careful_loop_body].
      intros q _. exact I. }
    pose proof (keeps_trans K2 K3) as K. rewrite Hd1. split.
    - apply kind_dir. rewrite (proj1 (K dest_root ltac:(congruence))).
      now apply kind_dir.
    - intros Hn. apply Hpar. apply kind_none.
      rewrite <- (proj1 (K (dirname dest_root) Hpar)). now apply kind_none. }
  destruct Hroot as [Hr Hpar].
  completed_run Hrun2 va vb vc Em2 El2 Ef2 Ep2.
  assert (Hd2 : disk w2 = disk vc)
    by (unfold print in Ep2; now injection Ep2 as <-).
  assert (Hva : disk va = disk v).
  { unfold os_makedirs in Em2.
    destruct (rev dest_root) as [|tail rhead] eqn:Er.
    - apply (f_equal (@rev str)) in Er. rewrite rev_involutive in Er.
      now apply dest_root_not_nil in Er.
    - assert (En : rev (tail :: rhead) = dest_root)
        by (rewrite <- Er; apply rev_involutive).
      assert (Eh : rev rhead = dirname dest_root).
      { rewrite <- En. cbn [rev]. unfold dirname.
        now rewrite removelast_last. }
      rewrite makedirs_rev_existing in Em2.
      + now injection Em2 as <-.
      + now rewrite En, Hv.
      + now rewrite Eh, Hv. }
  assert (Hvb : forall q, node_at (disk vb) q = node_at (disk w1) q).
  { intros q. destruct (listdir_ok _ _ El2) as ((_ & Db & _) & _).
    rewrite Db. cbn [replay fold_left]. now rewrite Hva. }
  rewrite Hd2.
  rewrite (@loop_settled (candidates v) vb vc Ef2); [apply Hvb | | | exact Hb].
  - rewrite Hvb. congruence.
  - intros f Hf Hp. rewrite !Hvb. apply Hset; [now apply Hc | exact Hp].
Qed.

Lemma second_run_changes_nothing_witness :
  main three_icons = (Ok tt, three_icons_done)
  /\ candidates three_icons_relisted <> candidates three_icons
  /\ main three_icons_relisted = (Ok tt, snd (main three_icons_relisted))
  /\ forall p, node_at (disk (snd (main three_icons_relisted))) p
               = node_at (disk three_icons_done) p.
Proof.
  assert (H2 : main three_icons_relisted
               = (Ok tt, snd (main three_icons_relisted)))
    by (vm_compute; reflexivity).
  split; [exact three_icons_run|].
  split; [vm_compute; discriminate|]. split; [exact H2|].
  apply (@second_run_changes_nothing three_icons three_icons_done
           three_icons_relisted (snd (main three_icons_relisted))).
  - exact three_icons_run.
  - intros f Hf Hp. vm_compute in Hf.
    destruct Hf as [<- | [<- | [<- | []]]]; vm_compute; discriminate.
  - exact three_icons_relisted_same.
  - exact H2.
  - right. intros f g Hf Hg Pf Pg Hd. vm_compute in Hf, Hg.
    destruct Hf as [<- | [<- | [<- | []]]];
      destruct Hg as [<- | [<- | [<- | []]]];
      try reflexivity;
      try (vm_compute in Pf; discriminate Pf);
      try (vm_compute in Pg; discriminate Pg);
      vm_compute in Hd; discriminate Hd.
Defined.
